(** * Solar wallet visualizer: the rendering core and its data feed

    A shallow embedding of the TypeScript sources
    [canvas/planets.ts], [canvas/orbits.ts], [canvas/ships.ts],
    [canvas/renderer.ts] and [api/goldrush.ts].

    JavaScript numbers are idealised as real numbers: no rounding, no NaN,
    no signed zero.  Counts produced by [buildInteractions] are natural
    numbers and are injected into the reals where the code does arithmetic
    on them.  [Math.random] is an explicit stream of draws, consumed in
    program order.  Canvas calls are abstracted to the list of things
    drawn, in drawing order. *)

From Stdlib Require Import Reals Lra Lia List String Ascii ZArith Bool Arith.
From Stdlib Require Import Permutation Sorted.
From Stdlib Require OrderedTypeEx.
Import ListNotations.
Local Open Scope R_scope.

(* ================================================================= *)
(** ** JavaScript primitives used by the sources *)

Module JS.

(** [a < b] and [a > b] on numbers, as booleans. *)
Definition ltb (a b : R) : bool := if Rlt_dec a b then true else false.
Definition gtb (a b : R) : bool := ltb b a.

(** [Array.prototype.sort(comparefn)]: a stable sort; [a] is placed
    before [b] when [comparefn a b <= 0] and [a] came first.  Written as
    an insertion sort, which every stable sort agrees with on a
    consistent comparator. *)
Fixpoint insert {A : Type} (comparefn : A -> A -> R) (a : A) (l : list A)
  : list A :=
  match l with
  | [] => [a]
  | b :: l' =>
      if Rle_dec (comparefn a b) 0 then a :: b :: l'
      else b :: insert comparefn a l'
  end.

Definition sort {A : Type} (comparefn : A -> A -> R) (l : list A) : list A :=
  fold_right (insert comparefn) [] l.

(** [x.toFixed(f)] for a magnitude below 1e21: the decimal string of [x]
    rounded to [f] digits, ties going up in magnitude, with a minus sign
    when [x < 0].  Two such strings are equal exactly when the sign flags
    and the scaled integers are. *)
Definition toFixed (f : nat) (x : R) : bool * Z :=
  if Rlt_dec x 0
  then (true, Zfloor (- x * 10 ^ f + / 2))
  else (false, Zfloor (x * 10 ^ f + / 2)).

(** [v || d] on a count. *)
Definition orElse (v d : nat) : nat :=
  match v with O => d | _ => v end.

(** [String.prototype.toLowerCase], on ASCII text. *)
Definition lowerChar (c : ascii) : ascii :=
  let n := nat_of_ascii c in
  if (65 <=? n)%nat && (n <=? 90)%nat then ascii_of_nat (n + 32) else c.

Fixpoint toLowerCase (s : string) : string :=
  match s with
  | EmptyString => EmptyString
  | String c s' => String (lowerChar c) (toLowerCase s')
  end.

(** Truthiness of a string that may be [null] or [undefined]. *)
Definition truthy (s : option string) : bool :=
  match s with
  | Some (String _ _) => true
  | _ => false
  end.

End JS.

(* ================================================================= *)
(** ** types.ts *)

Record WalletInteraction := mkWalletInteraction {
  address : string;
  label : option string;
  totalValueUsd : R;
  txCount : nat;
  sentCount : nat;
  receivedCount : nat;
  chains : list string;
  primaryChain : string;
  firstInteraction : string;
  lastInteraction : string
}.

Record Transaction := mkTransaction {
  from_address : option string;
  to_address : option string;
  from_address_label : option string;
  to_address_label : option string;
  value_quote : option R;
  block_signed_at : string;
  successful : bool;
  chain_name : string;
  chain_id : string;
  tx_hash : string;
  gas_quote : option R
}.

Record Planet := mkPlanet {
  interaction : WalletInteraction;
  orbitRadius : R;
  angle : R;
  angularSpeed : R;
  size : R;
  color : string;
  glowColor : string;
  px : R;
  py : R;
  pz : R;
  hovered : bool;
  planeTiltX : R;
  planeTiltZ : R
}.

Record TrailPoint := mkTrailPoint {
  tx : R;
  ty : R;
  alpha : R
}.

Inductive Direction := outbound | inbound.

Record Ship := mkShip {
  fromX : R;
  fromY : R;
  toX : R;
  toY : R;
  progress : R;
  speed : R;
  shipColor : string;
  trail : list TrailPoint;
  direction : Direction;
  chain : string;
  activationTime : R
}.

Record Camera := mkCamera {
  tiltX : R;
  rotationY : R
}.

Record Point3 := mkPoint3 {
  ptx : R;
  pty : R;
  ptz : R
}.

(** A [Set<string>] of chain names, as the list of its members.  Where the
    parameter is optional in the source, an absent set is the empty one. *)
Definition ChainSet := list string.

Definition has (s : ChainSet) (c : string) : bool :=
  existsb (String.eqb c) s.

(* ================================================================= *)
(** ** canvas/planets.ts *)

Module Planets.

Definition CHAIN_COLORS : list (string * (string * string)) :=
  [ ("eth-mainnet", ("#627EEA", "rgba(98, 126, 234, 0.4)"));
    ("matic-mainnet", ("#8247E5", "rgba(130, 71, 229, 0.4)"));
    ("polygon-mainnet", ("#8247E5", "rgba(130, 71, 229, 0.4)"));
    ("arbitrum-mainnet", ("#28A0F0", "rgba(40, 160, 240, 0.4)"));
    ("base-mainnet", ("#0052FF", "rgba(0, 82, 255, 0.4)"));
    ("optimism-mainnet", ("#FF0420", "rgba(255, 4, 32, 0.4)"));
    ("bsc-mainnet", ("#F0B90B", "rgba(240, 185, 11, 0.4)"));
    ("avalanche-mainnet", ("#E84142", "rgba(232, 65, 66, 0.4)"));
    ("fantom-mainnet", ("#1969FF", "rgba(25, 105, 255, 0.4)"));
    ("default", ("#4ECDC4", "rgba(78, 205, 196, 0.4)")) ]%string.

Definition CHAIN_PLANES : list (string * (R * R)) :=
  [ ("eth-mainnet"%string, (0, 0));
    ("base-mainnet"%string, (PI * 0.38, 0));
    ("bsc-mainnet"%string, (PI * 0.25, PI * 0.5));
    ("matic-mainnet"%string, (PI * 0.35, PI * 0.33));
    ("polygon-mainnet"%string, (PI * 0.35, PI * 0.33));
    ("arbitrum-mainnet"%string, (PI * 0.2, PI * 0.67));
    ("optimism-mainnet"%string, (PI * 0.42, PI * 0.17));
    ("avalanche-mainnet"%string, (PI * 0.15, PI * 0.83));
    ("fantom-mainnet"%string, (PI * 0.3, PI * 0.5)) ].

Definition DEFAULT_PLANE : R * R := (PI * 0.1, 0).

Fixpoint lookup {V : Type} (k : string) (t : list (string * V)) : option V :=
  match t with
  | [] => None
  | (k', v) :: t' => if String.eqb k k' then Some v else lookup k t'
  end.

Definition getChainColor (c : string) : string * string :=
  match lookup c CHAIN_COLORS with
  | Some v => v
  | None => ("#4ECDC4", "rgba(78, 205, 196, 0.4)")%string
  end.

Definition getChainPlane (c : string) : R * R :=
  match lookup c CHAIN_PLANES with
  | Some v => v
  | None => DEFAULT_PLANE
  end.

(** [Math.max(...counts)] for the counts of a non-empty array (the only
    place it is evaluated is inside the [map] callback, which does not
    run on an empty array). *)
Definition maxTxCount (interactions : list WalletInteraction) : nat :=
  fold_right Nat.max O (map txCount interactions).

(** The body of the [map] callback of [createPlanets], for the record of
    rank [i]; it draws [Math.random()] twice, the draws [2i] and [2i+1]
    of the stream. *)
Definition createPlanet (rand : nat -> R) (interactions : list WalletInteraction)
    (centerX centerY height : R) (i : nat) (w : WalletInteraction) : Planet :=
  let minOrbit := 100 in
  let maxOrbit := Rmin (height * 0.42) 500 in
  let orbitStep :=
    if (1 <? List.length interactions)%nat
    then (maxOrbit - minOrbit) / (INR (List.length interactions) - 1)
    else 0 in
  let orbitRadius := minOrbit + orbitStep * INR i in
  let angle :=
    (INR i / INR (List.length interactions)) * PI * 2 + rand (2 * i)%nat * 0.5 in
  let angularSpeed := (0.15 + rand (2 * i + 1)%nat * 0.1) / (INR i + 1) in
  let maxTx := maxTxCount interactions in
  let sizeRatio := INR (txCount w) / INR (JS.orElse maxTx 1) in
  let size := 6 + sizeRatio * 18 in
  let colors := getChainColor (primaryChain w) in
  let plane := getChainPlane (primaryChain w) in
  {| interaction := w;
     orbitRadius := orbitRadius;
     angle := angle;
     angularSpeed := angularSpeed;
     size := size;
     color := fst colors;
     glowColor := snd colors;
     px := centerX + cos angle * orbitRadius;
     py := centerY + sin angle * orbitRadius;
     pz := 0;
     hovered := false;
     planeTiltX := fst plane;
     planeTiltZ := snd plane |}.

Fixpoint mapi {A B : Type} (f : nat -> A -> B) (i : nat) (l : list A) : list B :=
  match l with
  | [] => []
  | a :: l' => f i a :: mapi f (S i) l'
  end.

Definition createPlanets (rand : nat -> R) (interactions : list WalletInteraction)
    (centerX centerY _width height : R) : list Planet :=
  mapi (createPlanet rand interactions centerX centerY height) 0 interactions.

Definition projectOrbitPoint (angle orbitRadius planeTiltX planeTiltZ
    centerX centerY : R) (camera : Camera) : Point3 :=
  (* Start on flat circle *)
  let x := cos angle * orbitRadius in
  let y := sin angle * orbitRadius in
  let z := 0 in
  (* Rotate around X axis by planeTiltX *)
  let c := cos planeTiltX in
  let s := sin planeTiltX in
  let ny := y * c - z * s in
  let nz := y * s + z * c in
  let y := ny in
  let z := nz in
  (* Rotate around Z axis by planeTiltZ *)
  let c := cos planeTiltZ in
  let s := sin planeTiltZ in
  let nx := x * c - y * s in
  let ny := x * s + y * c in
  let x := nx in
  let y := ny in
  (* Apply camera Y rotation *)
  let c := cos (rotationY camera) in
  let s := sin (rotationY camera) in
  let nx := x * c - z * s in
  let nz := x * s + z * c in
  let x := nx in
  let z := nz in
  (* Apply camera X tilt *)
  let c := cos (tiltX camera) in
  let s := sin (tiltX camera) in
  let ny := y * c - z * s in
  let nz := y * s + z * c in
  let y := ny in
  let z := nz in
  {| ptx := centerX + x; pty := centerY + y; ptz := z |}.

(** The first loop of [drawPlanets], for one body: advance the angle by
    the fixed step and store the fresh projection in the body. *)
Definition advance (centerX centerY : R) (camera : Camera) (p : Planet)
  : Planet :=
  let angle' := angle p + angularSpeed p * 0.016 in
  let proj := projectOrbitPoint angle' (orbitRadius p)
                (planeTiltX p) (planeTiltZ p) centerX centerY camera in
  {| interaction := interaction p;
     orbitRadius := orbitRadius p;
     angle := angle';
     angularSpeed := angularSpeed p;
     size := size p;
     color := color p;
     glowColor := glowColor p;
     px := ptx proj;
     py := pty proj;
     pz := ptz proj;
     hovered := hovered p;
     planeTiltX := planeTiltX p;
     planeTiltZ := planeTiltZ p |}.

(** What is drawn for one body: the body, its depth fade and its drawn
    radius.  The gradients painted from these are not modelled. *)
Record BodyDraw := mkBodyDraw {
  body : Planet;
  depthAlpha : R;
  drawnRadius : R
}.

Definition drawBody (e : Planet * R) : BodyDraw :=
  let '(planet, z) := e in
  let depthAlpha := Rmax 0.4 (1 - z / 600) in
  let depthScale := 0.8 + 0.2 * depthAlpha in
  {| body := planet; depthAlpha := depthAlpha;
     drawnRadius := size planet * depthScale |}.

(** [drawPlanets]: the updated bodies, and the bodies drawn, in drawing
    order. *)
Definition drawPlanets (planets : list Planet) (centerX centerY : R)
    (camera : Camera) (disabledChains : ChainSet)
  : list Planet * list BodyDraw :=
  let planets' := map (advance centerX centerY camera) planets in
  let sorted := map (fun p => (p, pz p)) planets' in
  let sorted := JS.sort (fun a b => snd b - snd a) sorted in
  let enabled :=
    filter (fun e => negb (has disabledChains (primaryChain (interaction (fst e)))))
           sorted in
  (planets', map drawBody enabled).

End Planets.

(* ================================================================= *)
(** ** canvas/orbits.ts *)

Module Orbits.

Definition ORBIT_SEGMENTS : nat := 120.

(** The template string used to deduplicate rings. *)
Definition RingKey : Type := (bool * Z) * (bool * Z) * (bool * Z).

Definition ringKey (planet : Planet) : RingKey :=
  (JS.toFixed 1 (orbitRadius planet),
   JS.toFixed 3 (planeTiltX planet),
   JS.toFixed 3 (planeTiltZ planet)).

Definition fixedEqb (a b : bool * Z) : bool :=
  Bool.eqb (fst a) (fst b) && (snd a =? snd b)%Z.

Definition keyEqb (a b : RingKey) : bool :=
  fixedEqb (fst (fst a)) (fst (fst b))
  && fixedEqb (snd (fst a)) (snd (fst b))
  && fixedEqb (snd a) (snd b).

Definition drawnHas (drawn : list RingKey) (k : RingKey) : bool :=
  existsb (keyEqb k) drawn.

(** One [ctx.stroke()] of a line segment. *)
Record Stroke := mkStroke {
  strokeFrom : Point3;
  strokeTo : Point3;
  strokeAlpha : R;
  lineWidth : R
}.

Definition samplePoints (planet : Planet) (centerX centerY : R)
    (camera : Camera) : list Point3 :=
  map (fun i =>
         let a := (INR i / INR ORBIT_SEGMENTS) * PI * 2 in
         Planets.projectOrbitPoint a (orbitRadius planet)
           (planeTiltX planet) (planeTiltZ planet) centerX centerY camera)
      (seq 0 (ORBIT_SEGMENTS + 1)).

Definition origin3 : Point3 := {| ptx := 0; pty := 0; ptz := 0 |}.

Definition segmentStrokes (hov : bool) (points : list Point3) (i : nat)
  : list Stroke :=
  let p0 := nth i points origin3 in
  let p1 := nth (i + 1) points origin3 in
  let avgZ := (ptz p0 + ptz p1) / 2 in
  let depthFade := Rmax 0.08 (1 - avgZ / 500) in
  [ mkStroke p0 p1 (0.04 * depthFade) 3;
    mkStroke p0 p1 (0.18 * depthFade) 0.8 ]
  ++ (if hov
      then [ mkStroke p0 p1 (0.35 * depthFade) 1.2;
             mkStroke p0 p1 (0.08 * depthFade) 6 ]
      else []).

(** One ring drawn: the body it was drawn for and its strokes. *)
Record RingDraw := mkRingDraw {
  ringOf : Planet;
  strokes : list Stroke
}.

Definition drawRing (planet : Planet) (centerX centerY : R) (camera : Camera)
  : RingDraw :=
  let points := samplePoints planet centerX centerY camera in
  {| ringOf := planet;
     strokes := flat_map (segmentStrokes (hovered planet) points)
                         (seq 0 ORBIT_SEGMENTS) |}.

(** The loop of [drawOrbits], with the set [drawn] threaded through. *)
Fixpoint drawOrbitsFrom (drawn : list RingKey) (planets : list Planet)
    (centerX centerY : R) (camera : Camera) (disabledChains : ChainSet)
  : list RingDraw :=
  match planets with
  | [] => []
  | planet :: rest =>
      let key := ringKey planet in
      if drawnHas drawn key
      then drawOrbitsFrom drawn rest centerX centerY camera disabledChains
      else
        let drawn := key :: drawn in
        if has disabledChains (primaryChain (interaction planet))
        then drawOrbitsFrom drawn rest centerX centerY camera disabledChains
        else drawRing planet centerX centerY camera
             :: drawOrbitsFrom drawn rest centerX centerY camera disabledChains
  end.

Definition drawOrbits (planets : list Planet) (centerX centerY : R)
    (camera : Camera) (disabledChains : ChainSet) : list RingDraw :=
  drawOrbitsFrom [] planets centerX centerY camera disabledChains.

End Orbits.

(* ================================================================= *)
(** ** canvas/ships.ts *)

Module Ships.

(** [activationTime] of the ships of one body.  [getTime] stands for
    [new Date(s).getTime()]. *)
Definition activation (getTime : string -> R) (timelineRange : option (R * R))
    (planet : Planet) : R :=
  match timelineRange with
  | None => 0
  | Some (start, end_) =>
      let firstDate := getTime (firstInteraction (interaction planet)) in
      let range := end_ - start in
      if JS.gtb range 0
      then Rmax 0 (Rmin 1 ((firstDate - start) / range))
      else 0
  end.

(** The ships pushed during the loop iteration of one body; the first
    draw of [Math.random()] it uses is the draw [k] of the stream. *)
Definition shipsOf (rand : nat -> R) (k : nat) (getTime : string -> R)
    (centerX centerY : R) (timelineRange : option (R * R)) (planet : Planet)
  : list Ship :=
  let outboundCount := Nat.min (sentCount (interaction planet)) 3 in
  let inboundCount := Nat.min (receivedCount (interaction planet)) 3 in
  let activationTime := activation getTime timelineRange planet in
  map (fun i =>
         {| fromX := centerX; fromY := centerY;
            toX := px planet; toY := py planet;
            progress := rand (k + 2 * i)%nat;
            speed := 0.003 + rand (k + 2 * i + 1)%nat * 0.004;
            shipColor := "#ff9944";
            trail := [];
            direction := outbound;
            chain := primaryChain (interaction planet);
            activationTime := activationTime |})
      (seq 0 outboundCount)
  ++
  map (fun i =>
         {| fromX := px planet; fromY := py planet;
            toX := centerX; toY := centerY;
            progress := rand (k + 2 * outboundCount + 2 * i)%nat;
            speed := 0.003 + rand (k + 2 * outboundCount + 2 * i + 1)%nat * 0.004;
            shipColor := "#44ccff";
            trail := [];
            direction := inbound;
            chain := primaryChain (interaction planet);
            activationTime := activationTime |})
      (seq 0 inboundCount).

Fixpoint createShipsFrom (rand : nat -> R) (k : nat) (getTime : string -> R)
    (planets : list Planet) (centerX centerY : R)
    (timelineRange : option (R * R)) : list Ship :=
  match planets with
  | [] => []
  | planet :: rest =>
      let pushed := shipsOf rand k getTime centerX centerY timelineRange planet in
      pushed ++ createShipsFrom rand (k + 2 * List.length pushed) getTime rest
                  centerX centerY timelineRange
  end.

(** [createShips]; [k] is the number of draws already taken from the
    stream. *)
Definition createShips (rand : nat -> R) (k : nat) (getTime : string -> R)
    (planets : list Planet) (centerX centerY : R)
    (timelineRange : option (R * R)) : list Ship :=
  createShipsFrom rand k getTime planets centerX centerY timelineRange.

(** [planets[idx % planets.length]]; [undefined] on an empty array,
    where the index is NaN. *)
Definition planetAt (planets : list Planet) (idx : nat) : option Planet :=
  match planets with
  | [] => None
  | _ => nth_error planets (idx mod List.length planets)
  end.

Definition setEndpoints (ship : Ship) (fx fy tx' ty' : R) : Ship :=
  {| fromX := fx; fromY := fy; toX := tx'; toY := ty';
     progress := progress ship; speed := speed ship;
     shipColor := shipColor ship; trail := trail ship;
     direction := direction ship; chain := chain ship;
     activationTime := activationTime ship |}.

(** The endpoint assignment shared by [updateShips] and
    [reassociateShips]. *)
Definition attach (ship : Ship) (planet : option Planet) (centerX centerY : R)
  : Ship :=
  match planet with
  | None => ship
  | Some planet =>
      match direction ship with
      | outbound => setEndpoints ship centerX centerY (px planet) (py planet)
      | inbound => setEndpoints ship (px planet) (py planet) centerX centerY
      end
  end.

Definition fade (point : TrailPoint) : TrailPoint :=
  {| tx := tx point; ty := ty point; alpha := alpha point - 0.03 |}.

(** The body of the loop of [updateShips] for one ship. *)
Definition updateShip (planets : list Planet) (centerX centerY : R)
    (trailsEnabled : bool) (planetIdx : nat) (ship : Ship) : Ship :=
  let progress1 := progress ship + speed ship in
  let wrapped := JS.gtb progress1 1 in
  let progress2 := if wrapped then 0 else progress1 in
  let trail2 := if wrapped then [] else trail ship in
  let ship := attach ship (planetAt planets planetIdx) centerX centerY in
  let t := progress2 in
  let midX := (fromX ship + toX ship) / 2 in
  let midY := (fromY ship + toY ship) / 2 in
  let dx := toX ship - fromX ship in
  let dy := toY ship - fromY ship in
  let perpX := - dy * 0.15 in
  let perpY := dx * 0.15 in
  let controlX := midX + perpX in
  let controlY := midY + perpY in
  let x := (1 - t) * (1 - t) * fromX ship + 2 * (1 - t) * t * controlX
           + t * t * toX ship in
  let y := (1 - t) * (1 - t) * fromY ship + 2 * (1 - t) * t * controlY
           + t * t * toY ship in
  let head := {| tx := x; ty := y; alpha := 1 |} in
  let trail3 :=
    if trailsEnabled
    then filter (fun p => JS.gtb (alpha p) 0) (map fade (trail2 ++ [head]))
    else [head] in
  {| fromX := fromX ship; fromY := fromY ship;
     toX := toX ship; toY := toY ship;
     progress := progress2; speed := speed ship;
     shipColor := shipColor ship; trail := trail3;
     direction := direction ship; chain := chain ship;
     activationTime := activationTime ship |}.

Fixpoint updateLoop (planets : list Planet) (centerX centerY : R)
    (trailsEnabled : bool) (planetIdx : nat) (ships : list Ship) : list Ship :=
  match ships with
  | [] => []
  | ship :: rest =>
      updateShip planets centerX centerY trailsEnabled planetIdx ship
      :: updateLoop planets centerX centerY trailsEnabled (S planetIdx) rest
  end.

Fixpoint reassociateFrom (outIdx inIdx : nat) (ships : list Ship)
    (planets : list Planet) (centerX centerY : R) : list Ship :=
  match ships with
  | [] => []
  | ship :: rest =>
      match direction ship with
      | outbound =>
          attach ship (planetAt planets outIdx) centerX centerY
          :: reassociateFrom (S outIdx) inIdx rest planets centerX centerY
      | inbound =>
          attach ship (planetAt planets inIdx) centerX centerY
          :: reassociateFrom outIdx (S inIdx) rest planets centerX centerY
      end
  end.

Definition reassociateShips (ships : list Ship) (planets : list Planet)
    (centerX centerY : R) : list Ship :=
  reassociateFrom 0 0 ships planets centerX centerY.

Definition updateShips (ships : list Ship) (planets : list Planet)
    (centerX centerY : R) (trailsEnabled : bool) : list Ship :=
  reassociateShips (updateLoop planets centerX centerY trailsEnabled 0 ships)
                   planets centerX centerY.

End Ships.

(* ================================================================= *)
(** ** canvas/renderer.ts *)

Module Renderer.

(** The part of [RendererState] the frame loop computes with.  A body
    reference ([hoveredPlanet], [found]) is the index of the body in
    [planets]. *)
Record RendererState := mkRendererState {
  width : R;
  height : R;
  centerX : R;
  centerY : R;
  planets : list Planet;
  ships : list Ship;
  time : R;
  mouseX : R;
  mouseY : R;
  hoveredPlanet : option nat;
  zoom : R;
  stTiltX : R;
  stRotationY : R;
  disabledChains : ChainSet;
  loading : bool;
  trailsEnabled : bool;
  timelineRange : option (R * R);
  timelineProgress : option R
}.

(** The [wheel] listener of [setupInteraction], as a function of
    [e.deltaY] and the current zoom. *)
Definition onWheel (deltaY : R) (zoom : R) : R :=
  let zoomFactor := if JS.ltb deltaY 0 then 1.08 else 1 / 1.08 in
  Rmax 0.3 (Rmin 8 (zoom * zoomFactor)).

(** The zoom after a sequence of wheel events, oldest first. *)
Definition wheelEvents (deltas : list R) (zoom : R) : R :=
  fold_left (fun z deltaY => onWheel deltaY z) deltas zoom.

Definition screenToWorld (state : RendererState) (sx sy : R) : R * R :=
  ((sx - centerX state) / zoom state + centerX state,
   (sy - centerY state) / zoom state + centerY state).

Definition isDisabled (state : RendererState) (planet : Planet) : bool :=
  has (disabledChains state) (primaryChain (interaction planet)).

Definition distance (world : R * R) (x y : R) : R :=
  let dx := fst world - x in
  let dy := snd world - y in
  sqrt (dx * dx + dy * dy).

(** Pass 1: planet bodies.  [i] is the index of the head of [planets]. *)
Fixpoint hitBodies (state : RendererState) (world : R * R) (i : nat)
    (planets : list Planet) (found : option nat) : option nat :=
  match planets with
  | [] => found
  | planet :: rest =>
      if isDisabled state planet
      then hitBodies state world (S i) rest found
      else
        let dist := distance world (px planet) (py planet) in
        if JS.ltb dist (size planet + 12)
        then hitBodies state world (S i) rest (Some i)
        else hitBodies state world (S i) rest found
  end.

Definition orbitSamples : nat := 60.

(** [dist < closestDist], where [None] is [Infinity]. *)
Definition closer (dist : R) (closestDist : option R) : bool :=
  match closestDist with
  | None => true
  | Some c => JS.ltb dist c
  end.

(** The inner loop body of pass 2: sample [i] of the ring of the body of
    index [idx]. *)
Definition hitSample (state : RendererState) (world : R * R) (camera : Camera)
    (idx : nat) (planet : Planet) (acc : option R * option nat) (i : nat)
  : option R * option nat :=
  let orbitThreshold := 10 / zoom state in
  let a := (INR i / INR orbitSamples) * PI * 2 in
  let pt := Planets.projectOrbitPoint a (orbitRadius planet)
              (planeTiltX planet) (planeTiltZ planet)
              (centerX state) (centerY state) camera in
  let dist := distance world (ptx pt) (pty pt) in
  if JS.ltb dist orbitThreshold && closer dist (fst acc)
  then (Some dist, Some idx)
  else acc.

(** Pass 2: orbit paths. *)
Fixpoint hitRings (state : RendererState) (world : R * R) (camera : Camera)
    (idx : nat) (planets : list Planet) (acc : option R * option nat)
  : option R * option nat :=
  match planets with
  | [] => acc
  | planet :: rest =>
      if isDisabled state planet
      then hitRings state world camera (S idx) rest acc
      else hitRings state world camera (S idx) rest
             (fold_left (hitSample state world camera idx planet)
                        (seq 0 orbitSamples) acc)
  end.

(** The hit test at the end of [render]. *)
Definition hitTest (state : RendererState) : option nat :=
  let camera := {| tiltX := stTiltX state; rotationY := stRotationY state |} in
  let world := screenToWorld state (mouseX state) (mouseY state) in
  let found := hitBodies state world 0 (planets state) None in
  match found with
  | Some _ => found
  | None => snd (hitRings state world camera 0 (planets state) (None, None))
  end.

Definition setHovered (found : option nat) (i : nat) (planet : Planet) : Planet :=
  {| interaction := interaction planet;
     orbitRadius := orbitRadius planet;
     angle := angle planet;
     angularSpeed := angularSpeed planet;
     size := size planet;
     color := color planet;
     glowColor := glowColor planet;
     px := px planet; py := py planet; pz := pz planet;
     hovered := match found with Some j => Nat.eqb i j | None => false end;
     planeTiltX := planeTiltX planet;
     planeTiltZ := planeTiltZ planet |}.

(** What one frame draws under the zoom transform. *)
Record Frame := mkFrame {
  rings : list Orbits.RingDraw;
  bodies : list Planets.BodyDraw
}.

Definition withScene (state : RendererState) (planets' : list Planet)
    (ships' : list Ship) (hov : option nat) : RendererState :=
  {| width := width state; height := height state;
     centerX := centerX state; centerY := centerY state;
     planets := planets'; ships := ships';
     time := time state + 0.016;
     mouseX := mouseX state; mouseY := mouseY state;
     hoveredPlanet := hov;
     zoom := zoom state;
     stTiltX := stTiltX state; stRotationY := stRotationY state;
     disabledChains := disabledChains state;
     loading := loading state;
     trailsEnabled := trailsEnabled state;
     timelineRange := timelineRange state;
     timelineProgress := timelineProgress state |}.

(** One call of [render]: orbits, then bodies (which moves them), then
    ships, then the hit test on the moved bodies. *)
Definition render (state : RendererState) : RendererState * Frame :=
  let camera := {| tiltX := stTiltX state; rotationY := stRotationY state |} in
  let rings := Orbits.drawOrbits (planets state) (centerX state) (centerY state)
                 camera (disabledChains state) in
  let '(planets1, bodies) :=
    Planets.drawPlanets (planets state) (centerX state) (centerY state)
      camera (disabledChains state) in
  let ships1 := Ships.updateShips (ships state) planets1
                  (centerX state) (centerY state) (trailsEnabled state) in
  let state1 := withScene state planets1 ships1 (hoveredPlanet state) in
  let found := hitTest state1 in
  let planets2 := Planets.mapi (setHovered found) 0 planets1 in
  (withScene state planets2 ships1 found,
   {| rings := rings; bodies := bodies |}).

(** [setInteractions]: the bodies take the first [2n] draws of the
    stream, the ships the following ones. *)
Definition setInteractions (rand : nat -> R) (getTime : string -> R)
    (state : RendererState) (interactions : list WalletInteraction)
  : RendererState :=
  let planets' := Planets.createPlanets rand interactions
                    (centerX state) (centerY state) (width state) (height state) in
  let ships' := Ships.createShips rand (2 * List.length interactions) getTime
                  planets' (centerX state) (centerY state) (timelineRange state) in
  {| width := width state; height := height state;
     centerX := centerX state; centerY := centerY state;
     planets := planets'; ships := ships';
     time := time state;
     mouseX := mouseX state; mouseY := mouseY state;
     hoveredPlanet := hoveredPlanet state;
     zoom := zoom state;
     stTiltX := stTiltX state; stRotationY := stRotationY state;
     disabledChains := disabledChains state;
     loading := loading state;
     trailsEnabled := trailsEnabled state;
     timelineRange := timelineRange state;
     timelineProgress := timelineProgress state |}.

End Renderer.

(* ================================================================= *)
(** ** api/goldrush.ts *)

Module Goldrush.

(** A value of the [Map] built by [buildInteractions]. *)
Record Entry := mkEntry {
  e_address : string;
  e_label : option string;
  e_totalValueUsd : R;
  e_txCount : nat;
  e_sentCount : nat;
  e_receivedCount : nat;
  e_chains : list string;
  e_primaryChainCount : list (string * nat);
  e_firstInteraction : string;
  e_lastInteraction : string
}.

Inductive Sent := sent | received.

(** A [Map<string, V>] in insertion order. *)
Fixpoint mapGet {V : Type} (k : string) (m : list (string * V)) : option V :=
  match m with
  | [] => None
  | (k', v) :: m' => if String.eqb k k' then Some v else mapGet k m'
  end.

Fixpoint mapSet {V : Type} (k : string) (v : V) (m : list (string * V))
  : list (string * V) :=
  match m with
  | [] => [(k, v)]
  | (k', v') :: m' =>
      if String.eqb k k' then (k, v) :: m' else (k', v') :: mapSet k v m'
  end.

(** [Set.prototype.add], insertion order kept. *)
Definition setAdd (c : string) (s : list string) : list string :=
  if existsb (String.eqb c) s then s else s ++ [c].

Definition orZero (v : option R) : R :=
  match v with Some q => q | None => 0 end.

Definition orZeroNat (v : option nat) : nat :=
  match v with Some q => q | None => O end.

(** The updates made to the entry of the counterparty by one
    transaction. *)
Definition record (entry : Entry) (dir : Sent)
    (counterpartyLabel : option string) (tx : Transaction) : Entry :=
  let txCount' := S (e_txCount entry) in
  let sentCount' :=
    match dir with sent => S (e_sentCount entry) | received => e_sentCount entry end in
  let receivedCount' :=
    match dir with
    | sent => e_receivedCount entry
    | received => S (e_receivedCount entry)
    end in
  let total' := e_totalValueUsd entry + orZero (value_quote tx) in
  let named := JS.truthy (Some (chain_name tx)) in
  let chains' :=
    if named then setAdd (chain_name tx) (e_chains entry) else e_chains entry in
  let counts' :=
    if named
    then mapSet (chain_name tx)
           (orZeroNat (mapGet (chain_name tx) (e_primaryChainCount entry)) + 1)%nat
           (e_primaryChainCount entry)
    else e_primaryChainCount entry in
  let last' :=
    if String.ltb (e_lastInteraction entry) (block_signed_at tx)
    then block_signed_at tx else e_lastInteraction entry in
  let first' :=
    if String.ltb (block_signed_at tx) (e_firstInteraction entry)
    then block_signed_at tx else e_firstInteraction entry in
  let label' :=
    if negb (JS.truthy (e_label entry)) && JS.truthy counterpartyLabel
    then counterpartyLabel else e_label entry in
  {| e_address := e_address entry;
     e_label := label';
     e_totalValueUsd := total';
     e_txCount := txCount';
     e_sentCount := sentCount';
     e_receivedCount := receivedCount';
     e_chains := chains';
     e_primaryChainCount := counts';
     e_firstInteraction := first';
     e_lastInteraction := last' |}.

(** The body of the loop over the transactions. *)
Definition visit (wallet : string) (map : list (string * Entry))
    (tx : Transaction) : list (string * Entry) :=
  let from := option_map JS.toLowerCase (from_address tx) in
  let to := option_map JS.toLowerCase (to_address tx) in
  match from, to with
  | Some (String _ _ as from), Some (String _ _ as to) =>
      let choice :=
        if String.eqb from wallet then Some (to, to_address_label tx, sent)
        else if String.eqb to wallet then Some (from, from_address_label tx, received)
        else None in
      match choice with
      | None => map
      | Some (counterparty, counterpartyLabel, dir) =>
          if String.eqb counterparty wallet then map
          else
            let entry :=
              match mapGet counterparty map with
              | Some entry => entry
              | None =>
                  {| e_address := counterparty;
                     e_label := counterpartyLabel;
                     e_totalValueUsd := 0;
                     e_txCount := 0;
                     e_sentCount := 0;
                     e_receivedCount := 0;
                     e_chains := [];
                     e_primaryChainCount := [];
                     e_firstInteraction := block_signed_at tx;
                     e_lastInteraction := block_signed_at tx |}
              end in
            mapSet counterparty (record entry dir counterpartyLabel tx) map
      end
  | _, _ => map
  end.

(** The chain with the largest count, the first one on ties. *)
Definition pickPrimary (counts : list (string * nat)) : string :=
  fst (fold_left
         (fun (acc : string * nat) (kv : string * nat) =>
            if (snd acc <? snd kv)%nat then (fst kv, snd kv) else acc)
         counts ("eth-mainnet"%string, O)).

Definition toInteraction (entry : Entry) : WalletInteraction :=
  {| address := e_address entry;
     label := e_label entry;
     totalValueUsd := e_totalValueUsd entry;
     txCount := e_txCount entry;
     sentCount := e_sentCount entry;
     receivedCount := e_receivedCount entry;
     chains := e_chains entry;
     primaryChain := pickPrimary (e_primaryChainCount entry);
     firstInteraction := e_firstInteraction entry;
     lastInteraction := e_lastInteraction entry |}.

Definition buildInteractions (walletAddress : string)
    (transactions : list Transaction) : list WalletInteraction :=
  let wallet := JS.toLowerCase walletAddress in
  let map := fold_left (visit wallet) transactions [] in
  firstn 20
    (JS.sort (fun a b => INR (txCount b) - INR (txCount a))
             (List.map toInteraction (List.map snd map))).

End Goldrush.

(* ================================================================= *)
(** ** canvas/ships.ts: drawing *)

Module ShipsView.

(** A filled disc. *)
Record Dot := mkDot {
  dotX : R;
  dotY : R;
  dotRadius : R;
  dotAlpha : R
}.

(** What [drawShips] draws for one ship: the dots of its trail and, at the
    last point of the trail, the glow and the core of the ship. *)
Record ShipDraw := mkShipDraw {
  drawnShip : Ship;
  trailDots : list Dot;
  headDots : list Dot
}.

Definition trailDot (point : TrailPoint) : Dot :=
  {| dotX := tx point; dotY := ty point; dotRadius := 1;
     dotAlpha := alpha point * 0.6 |}.

(** [ship.trail[ship.trail.length - 1]], when the trail is not empty. *)
Definition headPoint (ship : Ship) : option TrailPoint :=
  if (0 <? List.length (trail ship))%nat
  then nth_error (trail ship) (List.length (trail ship) - 1)
  else None.

Definition drawShip (trailsEnabled : bool) (ship : Ship) : ShipDraw :=
  {| drawnShip := ship;
     trailDots := if trailsEnabled then map trailDot (trail ship) else [];
     headDots :=
       match headPoint ship with
       | Some head =>
           [ {| dotX := tx head; dotY := ty head; dotRadius := 3; dotAlpha := 0.6 |};
             {| dotX := tx head; dotY := ty head; dotRadius := 1; dotAlpha := 1 |} ]
       | None => []
       end |}.

Fixpoint drawShips (ships : list Ship) (disabledChains : ChainSet)
    (trailsEnabled : bool) (timelineProgress : option R) : list ShipDraw :=
  match ships with
  | [] => []
  | ship :: rest =>
      if has disabledChains (chain ship)
      then drawShips rest disabledChains trailsEnabled timelineProgress
      else
        if match timelineProgress with
           | Some progressNow => JS.ltb progressNow (activationTime ship)
           | None => false
           end
        then drawShips rest disabledChains trailsEnabled timelineProgress
        else drawShip trailsEnabled ship
             :: drawShips rest disabledChains trailsEnabled timelineProgress
  end.

End ShipsView.

(* ================================================================= *)
(** ** canvas/renderer.ts: pointer handlers and the zoom transform *)

Module Interaction.

(** The drag bookkeeping of [setupInteraction]: the [isDragging] and
    [dragStart...] fields of the renderer state and the [didDrag] variable
    of the closure. *)
Record Drag := mkDrag {
  isDragging : bool;
  dragStartX : R;
  dragStartY : R;
  dragStartTiltX : R;
  dragStartRotationY : R;
  didDrag : bool
}.

(** The bookkeeping [createRenderer] and [setupInteraction] start with. *)
Definition idle : Drag :=
  {| isDragging := false; dragStartX := 0; dragStartY := 0;
     dragStartTiltX := 0; dragStartRotationY := 0; didDrag := false |}.

Definition withCamera (state : Renderer.RendererState) (tilt rotation : R)
  : Renderer.RendererState :=
  {| Renderer.width := Renderer.width state;
     Renderer.height := Renderer.height state;
     Renderer.centerX := Renderer.centerX state;
     Renderer.centerY := Renderer.centerY state;
     Renderer.planets := Renderer.planets state;
     Renderer.ships := Renderer.ships state;
     Renderer.time := Renderer.time state;
     Renderer.mouseX := Renderer.mouseX state;
     Renderer.mouseY := Renderer.mouseY state;
     Renderer.hoveredPlanet := Renderer.hoveredPlanet state;
     Renderer.zoom := Renderer.zoom state;
     Renderer.stTiltX := tilt;
     Renderer.stRotationY := rotation;
     Renderer.disabledChains := Renderer.disabledChains state;
     Renderer.loading := Renderer.loading state;
     Renderer.trailsEnabled := Renderer.trailsEnabled state;
     Renderer.timelineRange := Renderer.timelineRange state;
     Renderer.timelineProgress := Renderer.timelineProgress state |}.

(** The [mousedown] listener. *)
Definition onMouseDown (button : Z) (clientX clientY : R)
    (state : Renderer.RendererState) (drag : Drag) : Drag :=
  if negb (button =? 0)%Z then drag
  else {| isDragging := true;
          dragStartX := clientX;
          dragStartY := clientY;
          dragStartTiltX := Renderer.stTiltX state;
          dragStartRotationY := Renderer.stRotationY state;
          didDrag := false |}.

(** The [mousemove] listener. *)
Definition onMouseMove (clientX clientY : R)
    (state : Renderer.RendererState) (drag : Drag)
  : Renderer.RendererState * Drag :=
  if isDragging drag
  then
    let dx := clientX - dragStartX drag in
    let dy := clientY - dragStartY drag in
    let didDrag' :=
      if JS.gtb (Rabs dx) 3 || JS.gtb (Rabs dy) 3 then true else didDrag drag in
    (withCamera state (dragStartTiltX drag + dy * 0.005)
                      (dragStartRotationY drag + dx * 0.005),
     {| isDragging := isDragging drag;
        dragStartX := dragStartX drag;
        dragStartY := dragStartY drag;
        dragStartTiltX := dragStartTiltX drag;
        dragStartRotationY := dragStartRotationY drag;
        didDrag := didDrag' |})
  else (state, drag).

(** The [mouseup] listener: the argument of the call of [onClickPlanet],
    if it is called, and the bookkeeping afterwards.  [hasCallback] tells
    whether [state.onClickPlanet] is set. *)
Definition onMouseUp (hasCallback : bool)
    (state : Renderer.RendererState) (drag : Drag)
  : option (option nat) * Drag :=
  (if isDragging drag && negb (didDrag drag) && hasCallback
   then Some (Renderer.hoveredPlanet state)
   else None,
   {| isDragging := false;
      dragStartX := dragStartX drag;
      dragStartY := dragStartY drag;
      dragStartTiltX := dragStartTiltX drag;
      dragStartRotationY := dragStartRotationY drag;
      didDrag := didDrag drag |}).

(** The pointer positions of a gesture after its [mousedown], replayed
    through [onMouseMove]. *)
Fixpoint moves (path : list (R * R)) (state : Renderer.RendererState)
    (drag : Drag) : Renderer.RendererState * Drag :=
  match path with
  | [] => (state, drag)
  | (clientX, clientY) :: rest =>
      let '(state', drag') := onMouseMove clientX clientY state drag in
      moves rest state' drag'
  end.

(** Where [render] draws a point of the scene: the transform set up by
    [translate(centerX, centerY)], [scale(zoom, zoom)],
    [translate(-centerX, -centerY)]. *)
Definition zoomTransform (state : Renderer.RendererState) (x y : R) : R * R :=
  (Renderer.centerX state + Renderer.zoom state * (x + - Renderer.centerX state),
   Renderer.centerY state + Renderer.zoom state * (y + - Renderer.centerY state)).

(** The [mousemove] listener of the application: it stores the pointer. *)
Definition withMouse (state : Renderer.RendererState) (clientX clientY : R)
  : Renderer.RendererState :=
  {| Renderer.width := Renderer.width state;
     Renderer.height := Renderer.height state;
     Renderer.centerX := Renderer.centerX state;
     Renderer.centerY := Renderer.centerY state;
     Renderer.planets := Renderer.planets state;
     Renderer.ships := Renderer.ships state;
     Renderer.time := Renderer.time state;
     Renderer.mouseX := clientX;
     Renderer.mouseY := clientY;
     Renderer.hoveredPlanet := Renderer.hoveredPlanet state;
     Renderer.zoom := Renderer.zoom state;
     Renderer.stTiltX := Renderer.stTiltX state;
     Renderer.stRotationY := Renderer.stRotationY state;
     Renderer.disabledChains := Renderer.disabledChains state;
     Renderer.loading := Renderer.loading state;
     Renderer.trailsEnabled := Renderer.trailsEnabled state;
     Renderer.timelineRange := Renderer.timelineRange state;
     Renderer.timelineProgress := Renderer.timelineProgress state |}.

End Interaction.

(* ================================================================= *)
(** ** canvas/starfield.ts *)

Module Starfield.








End Starfield.

(* ================================================================= *)
(** ** The projection pipeline, as the specification words it *)

Module Pipeline.

(** Step 1: the point of the flat ring of the given radius at [angle]. *)
Definition place (angle orbitRadius : R) : Point3 :=
  {| ptx := cos angle * orbitRadius;
     pty := sin angle * orbitRadius;
     ptz := 0 |}.

(** A plane rotation by [theta], applied to the two affected
    coordinates. *)
Definition rotate2 (theta a b : R) : R * R :=
  (a * cos theta - b * sin theta, a * sin theta + b * cos theta).

Definition rotateX (theta : R) (p : Point3) : Point3 :=
  let r := rotate2 theta (pty p) (ptz p) in
  {| ptx := ptx p; pty := fst r; ptz := snd r |}.

Definition rotateZ (theta : R) (p : Point3) : Point3 :=
  let r := rotate2 theta (ptx p) (pty p) in
  {| ptx := fst r; pty := snd r; ptz := ptz p |}.

Definition rotateY (theta : R) (p : Point3) : Point3 :=
  let r := rotate2 theta (ptx p) (ptz p) in
  {| ptx := fst r; pty := pty p; ptz := snd r |}.

(** Steps 1 to 5: the point after the plane and the camera rotations. *)
Definition postCamera (angle orbitRadius planeTiltX planeTiltZ : R)
    (camera : Camera) : Point3 :=
  rotateX (tiltX camera)
    (rotateY (rotationY camera)
       (rotateZ planeTiltZ
          (rotateX planeTiltX (place angle orbitRadius)))).

(** Step 6: the screen position is translated by the origin; the depth
    is left as it is. *)
Definition translate (centerX centerY : R) (p : Point3) : Point3 :=
  {| ptx := centerX + ptx p; pty := centerY + pty p; ptz := ptz p |}.

Definition project (angle orbitRadius planeTiltX planeTiltZ centerX centerY : R)
    (camera : Camera) : Point3 :=
  translate centerX centerY
    (postCamera angle orbitRadius planeTiltX planeTiltZ camera).

(** Direct flat-circle trigonometry. *)
Definition flatCircle (angle orbitRadius centerX centerY : R) : R * R :=
  (centerX + cos angle * orbitRadius, centerY + sin angle * orbitRadius).

Definition identityCamera : Camera := {| tiltX := 0; rotationY := 0 |}.

End Pipeline.

(* ================================================================= *)
(** ** Observations on a scene *)

Definition isOutbound (ship : Ship) : bool :=
  match direction ship with outbound => true | inbound => false end.

Definition isInbound (ship : Ship) : bool :=
  match direction ship with outbound => false | inbound => true end.

(** The bodies of a chain that is not disabled. *)
Definition enabledBody (disabledChains : ChainSet) (planet : Planet) : bool :=
  negb (has disabledChains (primaryChain (interaction planet))).

(** A ship of a body: it is on the chain of the body and joins the centre
    and the stored position of the body, from the centre when outbound and
    to the centre when inbound. *)
Definition shipOfBody (centerX centerY : R) (planet : Planet) (ship : Ship) : Prop :=
  chain ship = primaryChain (interaction planet)
  /\ match direction ship with
     | outbound =>
         (fromX ship, fromY ship) = (centerX, centerY)
         /\ (toX ship, toY ship) = (px planet, py planet)
     | inbound =>
         (fromX ship, fromY ship) = (px planet, py planet)
         /\ (toX ship, toY ship) = (centerX, centerY)
     end.

(** The post-camera depth of a body in a frame: the depth, after the plane
    and the camera rotations of the pipeline, of the point of its ring at
    the angle the frame moves it to. *)
Definition frameDepth (camera : Camera) (planet : Planet) : R :=
  ptz (Pipeline.postCamera (angle planet + angularSpeed planet * 0.016)
         (orbitRadius planet) (planeTiltX planet) (planeTiltZ planet) camera).

(** The camera of a renderer state. *)
Definition cameraOf (state : Renderer.RendererState) : Camera :=
  {| tiltX := Renderer.stTiltX state; rotationY := Renderer.stRotationY state |}.

(** The un-zoomed pointer: the offset of the pointer from the centre,
    divided by the zoom and taken from the centre again.  It is the point
    of the scene that a frame, drawn zoomed about the centre, shows under
    the pointer. *)
Definition pointer (state : Renderer.RendererState) : R * R :=
  ((Renderer.mouseX state - Renderer.centerX state) / Renderer.zoom state
   + Renderer.centerX state,
   (Renderer.mouseY state - Renderer.centerY state) / Renderer.zoom state
   + Renderer.centerY state).

(** The body of index [i] is on an enabled chain and its projected position
    is less than [size + 12] away from the pointer. *)
Definition bodyHit (state : Renderer.RendererState) (i : nat) : Prop :=
  exists planet,
    nth_error (Renderer.planets state) i = Some planet
    /\ Renderer.isDisabled state planet = false
    /\ Renderer.distance (pointer state) (px planet) (py planet) < size planet + 12.

(** The distance from the pointer to sample [k] of the ring of a body. *)
Definition sampleDistance (state : Renderer.RendererState) (planet : Planet)
    (k : nat) : R :=
  let a := (INR k / INR Renderer.orbitSamples) * PI * 2 in
  let pt := Planets.projectOrbitPoint a (orbitRadius planet)
              (planeTiltX planet) (planeTiltZ planet)
              (Renderer.centerX state) (Renderer.centerY state) (cameraOf state) in
  Renderer.distance (pointer state) (ptx pt) (pty pt).

(** One of the 60 samples of the ring of the body of index [i], a body on
    an enabled chain, lies at distance [d] from the pointer. *)
Definition ringSample (state : Renderer.RendererState) (i : nat) (d : R) : Prop :=
  exists planet k,
    nth_error (Renderer.planets state) i = Some planet
    /\ Renderer.isDisabled state planet = false
    /\ (k < 60)%nat
    /\ d = sampleDistance state planet k.

(** Such a sample lies within the ring threshold [10 / zoom]. *)
Definition ringHit (state : Renderer.RendererState) (i : nat) (d : R) : Prop :=
  ringSample state i d /\ d < 10 / Renderer.zoom state.

(** The samples of pass 2 in scanning order, each with the index of its
    body. *)
Fixpoint ringScan (state : Renderer.RendererState) (idx : nat)
    (planets : list Planet) : list (nat * R) :=
  match planets with
  | [] => []
  | planet :: rest =>
      (if Renderer.isDisabled state planet then []
       else map (fun k => (idx, sampleDistance state planet k))
                (seq 0 Renderer.orbitSamples))
      ++ ringScan state (S idx) rest
  end.

(** The update of [closestDist] and [found] by one sample. *)
Definition pick (threshold : R) (acc : option R * option nat) (s : nat * R)
  : option R * option nat :=
  if JS.ltb (snd s) threshold && Renderer.closer (snd s) (fst acc)
  then (Some (snd s), Some (fst s))
  else acc.

(** What a scan has found after the samples [seen]: nothing while no
    sample was within the threshold, otherwise a sample within the
    threshold that no sample seen is closer than. *)
Definition scanned (threshold : R) (seen : list (nat * R))
    (acc : option R * option nat) : Prop :=
  (acc = (None, None) /\ forall s, In s seen -> threshold <= snd s)
  \/ (exists i d,
        acc = (Some d, Some i)
        /\ In (i, d) seen
        /\ d < threshold
        /\ forall s, In s seen -> d <= snd s).

(** The points of a trail, newest first, the one of rank [k] having an
    alpha above 0 and at most [1 - 0.03 * k]. *)
Fixpoint aged (k : nat) (newestFirst : list TrailPoint) : Prop :=
  match newestFirst with
  | [] => True
  | point :: older =>
      0 < alpha point <= 1 - 0.03 * INR k /\ aged (S k) older
  end.

Definition wellAged (ship : Ship) : Prop := aged 0 (rev (trail ship)).

(** A ship is shown when its chain is enabled and, under a timeline, its
    activation time has been reached. *)
Definition shown (disabledChains : ChainSet) (timelineProgress : option R)
    (ship : Ship) : bool :=
  negb (has disabledChains (chain ship))
  && match timelineProgress with
     | Some progressNow => negb (JS.ltb progressNow (activationTime ship))
     | None => true
     end.

(** The point of the curved path of a ship at its current progress. *)
Definition pathPoint (ship : Ship) : R * R :=
  let t := progress ship in
  let controlX := (fromX ship + toX ship) / 2 + - (toY ship - fromY ship) * 0.15 in
  let controlY := (fromY ship + toY ship) / 2 + (toX ship - fromX ship) * 0.15 in
  ((1 - t) * (1 - t) * fromX ship + 2 * (1 - t) * t * controlX + t * t * toX ship,
   (1 - t) * (1 - t) * fromY ship + 2 * (1 - t) * t * controlY + t * t * toY ship).

(** The other party of a transaction of the wallet, whose address is given
    in lower case, and the direction: nothing for a transaction without a
    sender or a receiver, between strangers, or from the wallet to
    itself. *)
Definition counterpartyOf (wallet : string) (tx : Transaction)
  : option (string * Goldrush.Sent) :=
  match option_map JS.toLowerCase (from_address tx),
        option_map JS.toLowerCase (to_address tx) with
  | Some sender, Some receiver =>
      if JS.truthy (Some sender) && JS.truthy (Some receiver)
      then
        if String.eqb sender wallet
        then if String.eqb receiver wallet then None
             else Some (receiver, Goldrush.sent)
        else if String.eqb receiver wallet then Some (sender, Goldrush.received)
             else None
      else None
  | _, _ => None
  end.

Definition exchangedWith (wallet k : string) (tx : Transaction) : bool :=
  match counterpartyOf wallet tx with
  | Some (c, _) => String.eqb c k
  | None => false
  end.

Definition sentTo (wallet k : string) (tx : Transaction) : bool :=
  match counterpartyOf wallet tx with
  | Some (c, Goldrush.sent) => String.eqb c k
  | _ => false
  end.

Definition receivedFrom (wallet k : string) (tx : Transaction) : bool :=
  match counterpartyOf wallet tx with
  | Some (c, Goldrush.received) => String.eqb c k
  | _ => false
  end.

(** Exchanged with [k] on the chain named [c], the empty name counting
    for no chain. *)
Definition exchangedOn (wallet k c : string) (tx : Transaction) : bool :=
  exchangedWith wallet k tx
  && JS.truthy (Some (chain_name tx))
  && String.eqb (chain_name tx) c.

(** The sum of the quotes of a list of transactions, a missing quote
    counting for 0, added up from the left. *)
Definition quoteSum (txs : list Transaction) : R :=
  fold_left (fun acc tx => acc + Goldrush.orZero (value_quote tx)) txs 0.

(** The figures of the entry of a counterparty are those of the
    transactions seen so far. *)
Definition counted (wallet : string) (txs : list Transaction) (k : string)
    (e : Goldrush.Entry) : Prop :=
  Goldrush.e_address e = k
  /\ k <> wallet
  /\ Goldrush.e_txCount e = List.length (filter (exchangedWith wallet k) txs)
  /\ Goldrush.e_sentCount e = List.length (filter (sentTo wallet k) txs)
  /\ Goldrush.e_receivedCount e = List.length (filter (receivedFrom wallet k) txs)
  /\ Goldrush.e_totalValueUsd e = quoteSum (filter (exchangedWith wallet k) txs)
  /\ NoDup (map fst (Goldrush.e_primaryChainCount e))
  /\ Goldrush.e_chains e = map fst (Goldrush.e_primaryChainCount e)
  /\ (forall c n, In (c, n) (Goldrush.e_primaryChainCount e) -> (1 <= n)%nat)
  /\ forall c,
       Goldrush.orZeroNat (Goldrush.mapGet c (Goldrush.e_primaryChainCount e))
       = List.length (filter (exchangedOn wallet k c) txs).

(** An entry of the map: its figures are right and it stands for at least
    one transaction. *)
Definition tallies (wallet : string) (txs : list Transaction) (k : string)
    (e : Goldrush.Entry) : Prop :=
  counted wallet txs k e /\ (1 <= Goldrush.e_txCount e)%nat.

(** The map built from the transactions seen so far. *)
Definition tallied (wallet : string) (txs : list Transaction)
    (m : list (string * Goldrush.Entry)) : Prop :=
  NoDup (map fst m)
  /\ forall k,
       match Goldrush.mapGet k m with
       | Some e => tallies wallet txs k e
       | None => forall tx, In tx txs -> exchangedWith wallet k tx = false
       end.

(** The dates of the entry of a counterparty: each is the date of a
    transaction exchanged with it, none of which is signed before the first
    or after the last, in the order of [<] on strings. *)
Definition dated (wallet : string) (txs : list Transaction) (k : string)
    (e : Goldrush.Entry) : Prop :=
  (exists tx, In tx txs /\ exchangedWith wallet k tx = true
              /\ block_signed_at tx = Goldrush.e_firstInteraction e)
  /\ (exists tx, In tx txs /\ exchangedWith wallet k tx = true
                 /\ block_signed_at tx = Goldrush.e_lastInteraction e)
  /\ forall tx, In tx txs -> exchangedWith wallet k tx = true ->
       String.ltb (block_signed_at tx) (Goldrush.e_firstInteraction e) = false
       /\ String.ltb (Goldrush.e_lastInteraction e) (block_signed_at tx) = false.

(* ================================================================= *)
(** ** Sample data *)

Definition sampleRecord (n nSent nReceived : nat) (c : string) : WalletInteraction :=
  {| address := "0x00000000000000000000000000000000000000a1";
     label := None;
     totalValueUsd := 0;
     txCount := n;
     sentCount := nSent;
     receivedCount := nReceived;
     chains := [c];
     primaryChain := c;
     firstInteraction := "2024-01-01T00:00:00Z";
     lastInteraction := "2024-06-01T00:00:00Z" |}.

(** A body at rest at the top of an upright ring of radius [r]. *)
Definition sampleBody (r : R) : Planet :=
  {| interaction := sampleRecord 1 1 0 "eth-mainnet";
     orbitRadius := r;
     angle := PI / 2;
     angularSpeed := 0;
     size := 6;
     color := "#627EEA";
     glowColor := "rgba(98, 126, 234, 0.4)";
     px := 0; py := 0; pz := 0;
     hovered := false;
     planeTiltX := PI / 2;
     planeTiltZ := 0 |}.

(** A body drawn at [(x, y)], with the given numbers of transactions sent
    to it and received from it. *)
Definition bodyAt (x y : R) (nSent nReceived : nat) : Planet :=
  {| interaction := sampleRecord (nSent + nReceived) nSent nReceived "eth-mainnet";
     orbitRadius := 100;
     angle := 0;
     angularSpeed := 0.2;
     size := 6;
     color := "#627EEA";
     glowColor := "rgba(98, 126, 234, 0.4)";
     px := x; py := y; pz := 0;
     hovered := false;
     planeTiltX := 0;
     planeTiltZ := 0 |}.

(** A ship about to pass the end of its path, trailing two points. *)
Definition sampleShip : Ship :=
  {| fromX := 0; fromY := 0; toX := 100; toY := 0;
     progress := 0.999;
     speed := 0.01;
     shipColor := "#ff9944";
     trail := [ {| tx := 99; ty := 0; alpha := 0.94 |};
                {| tx := 99.5; ty := 0; alpha := 0.97 |} ];
     direction := outbound;
     chain := "eth-mainnet";
     activationTime := 0 |}.

(** Three records with counts 10, 5, 1 on eth-mainnet, base-mainnet and
    eth-mainnet. *)
Definition threeRecords : list WalletInteraction :=
  [ sampleRecord 10 5 5 "eth-mainnet";
    sampleRecord 5 3 2 "base-mainnet";
    sampleRecord 1 1 0 "eth-mainnet" ].

(** The camera a renderer starts with. *)
Definition initialCamera : Camera := {| tiltX := 0.35; rotationY := 0 |}.

(** A renderer whose only body sits under the pointer. *)
Definition sampleState (disabled : ChainSet) : Renderer.RendererState :=
  {| Renderer.width := 1200;
     Renderer.height := 800;
     Renderer.centerX := 0;
     Renderer.centerY := 0;
     Renderer.planets := [bodyAt 100 0 1 0];
     Renderer.ships := [];
     Renderer.time := 0;
     Renderer.mouseX := 100;
     Renderer.mouseY := 0;
     Renderer.hoveredPlanet := None;
     Renderer.zoom := 1;
     Renderer.stTiltX := 0.35;
     Renderer.stRotationY := 0;
     Renderer.disabledChains := disabled;
     Renderer.loading := false;
     Renderer.trailsEnabled := true;
     Renderer.timelineRange := None;
     Renderer.timelineProgress := None |}.

(** The camera turned half way round. *)
Definition turnedCamera : Camera := {| tiltX := 0; rotationY := PI |}.

(** A renderer zoomed twice about the centre (600, 400): its only body, at
    (700, 400), is drawn at (800, 400), where the pointer is. *)
Definition zoomedState (disabled : ChainSet) : Renderer.RendererState :=
  {| Renderer.width := 1200;
     Renderer.height := 800;
     Renderer.centerX := 600;
     Renderer.centerY := 400;
     Renderer.planets := [bodyAt 700 400 1 0];
     Renderer.ships := [];
     Renderer.time := 0;
     Renderer.mouseX := 800;
     Renderer.mouseY := 400;
     Renderer.hoveredPlanet := None;
     Renderer.zoom := 2;
     Renderer.stTiltX := 0.35;
     Renderer.stRotationY := 0;
     Renderer.disabledChains := disabled;
     Renderer.loading := false;
     Renderer.trailsEnabled := true;
     Renderer.timelineRange := None;
     Renderer.timelineProgress := None |}.

(** A successful transfer of 5 USD. *)
Definition transfer (sender receiver chainName signedAt : string) : Transaction :=
  {| from_address := Some sender;
     to_address := Some receiver;
     from_address_label := None;
     to_address_label := None;
     value_quote := Some 5;
     block_signed_at := signedAt;
     successful := true;
     chain_name := chainName;
     chain_id := "1";
     tx_hash := "0x01";
     gas_quote := None |}.

(** One transfer sent by the wallet 0xAA, two received from one
    counterparty, and one that does not involve the wallet. *)
Definition sampleTransfers : list Transaction :=
  [ transfer "0xAA" "0xB1" "eth-mainnet" "2024-01-03";
    transfer "0xC2" "0xaa" "base-mainnet" "2024-01-02";
    transfer "0xc2" "0xAA" "base-mainnet" "2024-01-01";
    transfer "0xD3" "0xE4" "eth-mainnet" "2024-01-04" ].

(** A body on the ring of radius 100 in the plane shared by matic-mainnet
    and polygon-mainnet, for a record of the given chain. *)
Definition bodyOnChain (c : string) : Planet :=
  {| interaction := sampleRecord 1 1 0 c;
     orbitRadius := 100;
     angle := 0;
     angularSpeed := 0.2;
     size := 24;
     color := "#8247E5";
     glowColor := "rgba(130, 71, 229, 0.4)";
     px := 100; py := 0; pz := 0;
     hovered := false;
     planeTiltX := PI * 0.35;
     planeTiltZ := PI * 0.33 |}.

(** The renderer state with its bodies and ships removed. *)
Definition withEmptyScene (state : Renderer.RendererState) : Renderer.RendererState :=
  {| Renderer.width := Renderer.width state;
     Renderer.height := Renderer.height state;
     Renderer.centerX := Renderer.centerX state;
     Renderer.centerY := Renderer.centerY state;
     Renderer.planets := [];
     Renderer.ships := [];
     Renderer.time := Renderer.time state;
     Renderer.mouseX := Renderer.mouseX state;
     Renderer.mouseY := Renderer.mouseY state;
     Renderer.hoveredPlanet := Renderer.hoveredPlanet state;
     Renderer.zoom := Renderer.zoom state;
     Renderer.stTiltX := Renderer.stTiltX state;
     Renderer.stRotationY := Renderer.stRotationY state;
     Renderer.disabledChains := Renderer.disabledChains state;
     Renderer.loading := Renderer.loading state;
     Renderer.trailsEnabled := Renderer.trailsEnabled state;
     Renderer.timelineRange := Renderer.timelineRange state;
     Renderer.timelineProgress := Renderer.timelineProgress state |}.

(* ================================================================= *)
(** ** Number comparisons *)

Lemma ltb_true (a b : R) : a < b -> JS.ltb a b = true.
Proof. intro H. unfold JS.ltb. destruct (Rlt_dec a b); [reflexivity | contradiction]. Qed.

Lemma ltb_false (a b : R) : b <= a -> JS.ltb a b = false.
Proof. intro H. unfold JS.ltb. destruct (Rlt_dec a b); [lra | reflexivity]. Qed.

Lemma ltb_spec (a b : R) : JS.ltb a b = true <-> a < b.
Proof.
  unfold JS.ltb. destruct (Rlt_dec a b); split; intro; try assumption;
    try reflexivity; try discriminate; contradiction.
Qed.

Lemma gtb_true (a b : R) : a > b -> JS.gtb a b = true.
Proof. intro H. apply ltb_true. exact H. Qed.

Lemma gtb_false (a b : R) : a <= b -> JS.gtb a b = false.
Proof. intro H. apply ltb_false. exact H. Qed.

(* ================================================================= *)
(** ** Projection *)

(** C1. [projectOrbitPoint] is the six-step pipeline: the ring point at
    [angle], rotated about X by the plane tilt, about Z by the plane
    rotation, about Y by the camera rotation, about X by the camera tilt,
    then translated in x and y by the origin; its depth is the z of the
    point after the camera rotations, before the translation. *)
Theorem projectOrbitPoint_pipeline :
  forall angle orbitRadius planeTiltX planeTiltZ centerX centerY camera,
    Planets.projectOrbitPoint angle orbitRadius planeTiltX planeTiltZ
      centerX centerY camera
    = Pipeline.translate centerX centerY
        (Pipeline.rotateX (tiltX camera)
           (Pipeline.rotateY (rotationY camera)
              (Pipeline.rotateZ planeTiltZ
                 (Pipeline.rotateX planeTiltX
                    (Pipeline.place angle orbitRadius)))))
    /\ ptz (Planets.projectOrbitPoint angle orbitRadius planeTiltX planeTiltZ
              centerX centerY camera)
       = ptz (Pipeline.postCamera angle orbitRadius planeTiltX planeTiltZ camera).
Proof.
  intros. split; reflexivity.
Qed.

(** With the identity camera the projection is the ring point turned by the
    plane tilts only. *)
Lemma projectOrbitPoint_identity_camera :
  forall angle r tiltx tiltz cx cy,
    let p := Planets.projectOrbitPoint angle r tiltx tiltz cx cy
               Pipeline.identityCamera in
    ptx p = cx + (cos angle * r * cos tiltz - sin angle * r * cos tiltx * sin tiltz)
    /\ pty p = cy + (cos angle * r * sin tiltz + sin angle * r * cos tiltx * cos tiltz).
Proof.
  intros. subst p. unfold Planets.projectOrbitPoint, Pipeline.identityCamera.
  cbn [ptx pty tiltX rotationY]. rewrite cos_0, sin_0. split; ring.
Qed.

(** C6, as amended.  For a body on an untilted plane (both plane tilts 0,
    as on eth-mainnet), at any radius and angle, the projection under the
    identity camera is the flat-circle point
    [(centerX + cos(angle)*r, centerY + sin(angle)*r)]. *)
Theorem identity_camera_flat_plane :
  forall angle r cx cy,
    let p := Planets.projectOrbitPoint angle r 0 0 cx cy Pipeline.identityCamera in
    (ptx p, pty p) = Pipeline.flatCircle angle r cx cy.
Proof.
  intros a r cx cy p. subst p.
  destruct (projectOrbitPoint_identity_camera a r 0 0 cx cy) as [Hx Hy].
  cbv zeta in Hx, Hy. rewrite Hx, Hy. unfold Pipeline.flatCircle.
  rewrite cos_0, sin_0. f_equal; ring.
Qed.

(** C6 fails on a tilted plane: the body of a base-mainnet record at
    angle PI/2 on the ring of radius 100 is drawn at least 50 pixels away
    from the flat-circle point. *)
Lemma identity_camera_tilted_plane_differs :
  let plane := Planets.getChainPlane "base-mainnet" in
  let p := Planets.projectOrbitPoint (PI / 2) 100 (fst plane) (snd plane) 0 0
             Pipeline.identityCamera in
  ~ (Rabs (ptx p - fst (Pipeline.flatCircle (PI / 2) 100 0 0)) <= 1
     /\ Rabs (pty p - snd (Pipeline.flatCircle (PI / 2) 100 0 0)) <= 1).
Proof.
  intros plane p [_ Hy].
  assert (Hplane : plane = (PI * 0.38, 0)) by reflexivity.
  subst p. rewrite Hplane in Hy. cbn [fst snd] in Hy.
  destruct (projectOrbitPoint_identity_camera (PI / 2) 100 (PI * 0.38) 0 0 0)
    as [_ Hpy].
  cbv zeta in Hpy. rewrite Hpy in Hy. unfold Pipeline.flatCircle in Hy.
  cbn [snd] in Hy. rewrite cos_PI2, sin_PI2, cos_0, sin_0 in Hy.
  assert (Hpi : 0 < PI) by apply PI_RGT_0.
  assert (Hc : cos (PI * 0.38) <= cos (PI / 3)).
  { apply cos_decr_1; lra. }
  rewrite cos_PI3 in Hc.
  replace (0 + (0 * 100 * 0 + 1 * 100 * cos (PI * 0.38) * 1) - (0 + 1 * 100))
    with (- (100 - 100 * cos (PI * 0.38))) in Hy by ring.
  rewrite Rabs_Ropp, Rabs_pos_eq in Hy; lra.
Qed.

(* ================================================================= *)
(** ** Zoom *)

Lemma onWheel_range (deltaY zoom : R) : 0.3 <= Renderer.onWheel deltaY zoom <= 8.
Proof.
  unfold Renderer.onWheel. cbv zeta.
  set (v := zoom * _). split.
  - apply Rmax_l.
  - apply Rmax_lub; [lra | apply Rmin_l].
Qed.

(** C8. From zoom 1, whatever the sequence of wheel events (each one
    multiplying the zoom by 1.08 or by 1/1.08 before clamping), the zoom
    stays between 0.3 and 8. *)
Theorem zoom_stays_clamped :
  forall deltas : list R, 0.3 <= Renderer.wheelEvents deltas 1 <= 8.
Proof.
  intro deltas. unfold Renderer.wheelEvents.
  assert (H : forall z, 0.3 <= z <= 8 ->
                        0.3 <= fold_left (fun z deltaY => Renderer.onWheel deltaY z) deltas z <= 8).
  { induction deltas as [| d ds IH]; intros z Hz; cbn [fold_left].
    - exact Hz.
    - apply IH. apply onWheel_range. }
  apply H. lra.
Qed.

(* ================================================================= *)
(** ** Sorting by a descending key *)

Section SortDescending.

Variable A : Type.
Variable key : A -> R.

(** The comparator [(a, b) => key(b) - key(a)] and the order it sorts
    into are written out in each statement. *)

Lemma insert_permutation (a : A) (l : list A) :
  Permutation (JS.insert (fun a b : A => key b - key a) a l) (a :: l).
Proof.
  induction l as [| b l IH]; cbn [JS.insert].
  - apply Permutation_refl.
  - destruct (Rle_dec (key b - key a) 0).
    + apply Permutation_refl.
    + eapply perm_trans; [apply perm_skip, IH | apply perm_swap].
Qed.

Lemma sort_permutation (l : list A) :
  Permutation (JS.sort (fun a b : A => key b - key a) l) l.
Proof.
  induction l as [| a l IH]; cbn [JS.sort fold_right].
  - apply perm_nil.
  - eapply perm_trans; [apply insert_permutation | apply perm_skip, IH].
Qed.

Lemma insert_sorted (a : A) (l : list A) :
  StronglySorted (fun a b : A => key b <= key a) l ->
  StronglySorted (fun a b : A => key b <= key a) (JS.insert (fun a b : A => key b - key a) a l).
Proof.
  induction 1 as [| b l Hs IH Hb]; cbn [JS.insert].
  - constructor; constructor.
  - destruct (Rle_dec (key b - key a) 0) as [Hle | Hgt].
    + assert (Hab : key b <= key a) by (cbv beta in Hle; lra).
      constructor; [constructor; assumption |].
      constructor; [exact Hab |].
      rewrite Forall_forall in Hb |- *. intros c Hc.
      specialize (Hb c Hc). cbv beta in Hb. lra.
    + assert (Hba : key a <= key b) by (cbv beta in Hgt; lra).
      constructor; [exact IH |].
      eapply Permutation_Forall.
      * apply Permutation_sym, insert_permutation.
      * constructor; assumption.
Qed.

Lemma sort_sorted (l : list A) :
  StronglySorted (fun a b : A => key b <= key a)
    (JS.sort (fun a b : A => key b - key a) l).
Proof.
  induction l as [| a l IH]; cbn [JS.sort fold_right].
  - constructor.
  - apply insert_sorted, IH.
Qed.

(** Three elements of strictly increasing keys have one (fun a b : A => key b <= key a)
    arrangement. *)
Lemma sorted_three (l : list A) (a1 a2 a3 : A) :
  Permutation l [a1; a2; a3] ->
  StronglySorted (fun a b : A => key b <= key a) l ->
  key a1 < key a2 < key a3 ->
  l = [a3; a2; a1].
Proof.
  intros Hp Hs [H12 H23].
  assert (Hlen := Permutation_length Hp).
  destruct l as [| b1 [| b2 [| b3 [| b4 l]]]]; try discriminate Hlen.
  assert (Hin : forall b, In b [b1; b2; b3] -> b = a1 \/ b = a2 \/ b = a3).
  { intros b Hb. apply (Permutation_in _ Hp) in Hb. cbn in Hb. intuition. }
  assert (Hni : forall a, In a [a1; a2; a3] -> a = b1 \/ a = b2 \/ a = b3).
  { intros a Ha. apply (Permutation_in _ (Permutation_sym Hp)) in Ha.
    cbn in Ha. intuition. }
  inversion Hs as [| ? ? Hs1 Hf1]; subst.
  inversion Hs1 as [| ? ? Hs2 Hf2]; subst.
  inversion Hf1 as [| ? ? H1 Hf1']; subst.
  inversion Hf1' as [| ? ? H1' _]; subst.
  inversion Hf2 as [| ? ? H2 _]; subst.
  cbv beta in H1, H1', H2.
  destruct (Hin b1) as [E1 | [E1 | E1]]; [cbn; tauto | ..];
    destruct (Hin b2) as [E2 | [E2 | E2]]; try (cbn; tauto);
    destruct (Hin b3) as [E3 | [E3 | E3]]; try (cbn; tauto);
    subst b1 b2 b3; try lra; try reflexivity; exfalso;
    first
      [ destruct (Hni a1) as [E | [E | E]]; [cbn; tauto | ..];
        apply (f_equal key) in E; lra
      | destruct (Hni a2) as [E | [E | E]]; [cbn; tauto | ..];
        apply (f_equal key) in E; lra
      | destruct (Hni a3) as [E | [E | E]]; [cbn; tauto | ..];
        apply (f_equal key) in E; lra ].
Qed.

End SortDescending.

(* ================================================================= *)
(** ** Drawing order of the bodies *)

Lemma drawBody_body (e : Planet * R) : Planets.body (Planets.drawBody e) = fst e.
Proof. destruct e as [planet z]. reflexivity. Qed.

Lemma has_empty (c : string) : has [] c = false.
Proof. reflexivity. Qed.

Lemma advance_depth cx cy camera planet :
  pz (Planets.advance cx cy camera planet) = frameDepth camera planet.
Proof. reflexivity. Qed.

(** C5. Three bodies, given in any order, whose post-camera depths in the
    frame, under the camera of the frame, are [d1 < d2 < d3]: for any
    camera they are drawn d3 first, then d2, then d1, each with that
    depth.  A body of a disabled chain is left out of the drawing; the
    others keep that order. *)
Theorem bodies_drawn_farthest_first :
  forall planets b1 b2 b3 cx cy camera disabledChains,
    Permutation planets [b1; b2; b3] ->
    frameDepth camera b1 < frameDepth camera b2 < frameDepth camera b3 ->
    map Planets.body (snd (Planets.drawPlanets planets cx cy camera []))
    = [Planets.advance cx cy camera b3; Planets.advance cx cy camera b2;
       Planets.advance cx cy camera b1]
    /\ map (fun drawn => pz (Planets.body drawn))
         (snd (Planets.drawPlanets planets cx cy camera []))
       = [frameDepth camera b3; frameDepth camera b2; frameDepth camera b1]
    /\ map Planets.body
         (snd (Planets.drawPlanets planets cx cy camera disabledChains))
       = filter (enabledBody disabledChains)
           [Planets.advance cx cy camera b3; Planets.advance cx cy camera b2;
            Planets.advance cx cy camera b1].
Proof.
  intros planets b1 b2 b3 cx cy camera disabledChains Hperm Hdepth.
  rewrite <- !(advance_depth cx cy camera) in Hdepth.
  set (moved := Planets.advance cx cy camera) in *.
  set (entry := fun p : Planet => (p, pz p)).
  assert (Hsorted :
    JS.sort (fun a b : Planet * R => snd b - snd a) (map entry (map moved planets))
    = [entry (moved b3); entry (moved b2); entry (moved b1)]).
  { apply (sorted_three (Planet * R) snd).
    - eapply perm_trans; [apply sort_permutation |].
      change [entry (moved b1); entry (moved b2); entry (moved b3)]
        with (map entry (map moved [b1; b2; b3])).
      apply Permutation_map, Permutation_map, Hperm.
    - apply sort_sorted.
    - exact Hdepth. }
  unfold Planets.drawPlanets. cbv zeta. cbn [snd].
  fold moved. fold entry. rewrite Hsorted.
  split; [reflexivity |]. split.
  - cbn [filter fst]. rewrite !has_empty. cbn [negb map].
    rewrite !drawBody_body. unfold entry, moved. cbn [fst].
    rewrite !advance_depth. reflexivity.
  - cbn [filter fst entry]. unfold enabledBody.
    destruct (has disabledChains (primaryChain (interaction (moved b3))));
      destruct (has disabledChains (primaryChain (interaction (moved b2))));
      destruct (has disabledChains (primaryChain (interaction (moved b1))));
      reflexivity.
Qed.

Lemma sampleBody_depth (r : R) : frameDepth turnedCamera (sampleBody r) = - r.
Proof.
  unfold frameDepth, Pipeline.postCamera, Pipeline.rotateX, Pipeline.rotateY,
    Pipeline.rotateZ, Pipeline.rotate2, Pipeline.place, sampleBody, turnedCamera.
  cbn [ptx pty ptz fst snd angle angularSpeed orbitRadius planeTiltX planeTiltZ
       tiltX rotationY].
  replace (PI / 2 + 0 * 0.016) with (PI / 2) by lra.
  rewrite sin_PI2, cos_PI2, sin_PI, cos_PI, sin_0, cos_0. ring.
Qed.

Lemma bodies_drawn_farthest_first_witness :
  Permutation [sampleBody 2; sampleBody 3; sampleBody 1]
              [sampleBody 3; sampleBody 2; sampleBody 1]
  /\ frameDepth turnedCamera (sampleBody 3) < frameDepth turnedCamera (sampleBody 2)
       < frameDepth turnedCamera (sampleBody 1)
  /\ map Planets.body
       (snd (Planets.drawPlanets [sampleBody 2; sampleBody 3; sampleBody 1]
               0 0 turnedCamera []))
     = [Planets.advance 0 0 turnedCamera (sampleBody 1);
        Planets.advance 0 0 turnedCamera (sampleBody 2);
        Planets.advance 0 0 turnedCamera (sampleBody 3)].
Proof.
  assert (Hperm : Permutation [sampleBody 2; sampleBody 3; sampleBody 1]
                              [sampleBody 3; sampleBody 2; sampleBody 1])
    by apply perm_swap.
  assert (Hdepth :
    frameDepth turnedCamera (sampleBody 3) < frameDepth turnedCamera (sampleBody 2)
    < frameDepth turnedCamera (sampleBody 1)).
  { rewrite !sampleBody_depth. lra. }
  split; [exact Hperm | split; [exact Hdepth |]].
  exact (proj1 (bodies_drawn_farthest_first _ _ _ _ 0 0 turnedCamera
                  [] Hperm Hdepth)).
Defined.

(* ================================================================= *)
(** ** Body sizes *)







(* ================================================================= *)
(** ** Caps on bodies and ships *)

Lemma firstn_incl {A : Type} (l : list A) :
  forall n b, In b (firstn n l) -> In b l.
Proof.
  induction l as [| a l IH]; intros [| n] b Hb; cbn [firstn] in Hb;
    try destruct Hb as [Hb | Hb]; try contradiction.
  - left. exact Hb.
  - right. eapply IH, Hb.
Qed.

Lemma StronglySorted_firstn {A : Type} (R : A -> A -> Prop) (l : list A) :
  StronglySorted R l -> forall n, StronglySorted R (firstn n l).
Proof.
  induction 1 as [| a l Hs IH Ha]; intros [| n]; cbn [firstn]; try constructor.
  - apply IH.
  - rewrite Forall_forall in Ha |- *. intros b Hb.
    apply Ha. eapply firstn_incl, Hb.
Qed.

Lemma StronglySorted_weaken {A : Type} (R S : A -> A -> Prop) (l : list A) :
  (forall a b, R a b -> S a b) -> StronglySorted R l -> StronglySorted S l.
Proof.
  intros HRS. induction 1 as [| a l Hs IH Ha]; constructor.
  - exact IH.
  - eapply Forall_impl; [| exact Ha]. intros b. apply HRS.
Qed.

Lemma filter_map_const {A : Type} (f : nat -> A) (test : A -> bool) (b : bool)
    (l : list nat) :
  (forall i, test (f i) = b) ->
  List.length (filter test (map f l)) = if b then List.length l else 0%nat.
Proof.
  intros H. induction l as [| i l IH]; cbn [map filter List.length].
  - destruct b; reflexivity.
  - rewrite H. destruct b; cbn [List.length]; rewrite ?IH; reflexivity.
Qed.

Lemma shipsOf_counts rand k getTime cx cy range planet :
  List.length (filter isOutbound (Ships.shipsOf rand k getTime cx cy range planet))
  = Nat.min (sentCount (interaction planet)) 3
  /\ List.length (filter isInbound (Ships.shipsOf rand k getTime cx cy range planet))
     = Nat.min (receivedCount (interaction planet)) 3
  /\ List.length (Ships.shipsOf rand k getTime cx cy range planet)
     = (Nat.min (sentCount (interaction planet)) 3
        + Nat.min (receivedCount (interaction planet)) 3)%nat.
Proof.
  unfold Ships.shipsOf. cbv zeta.
  rewrite !filter_app, !length_app.
  rewrite (filter_map_const _ isOutbound true) by reflexivity.
  rewrite (filter_map_const _ isOutbound false) by reflexivity.
  rewrite (filter_map_const _ isInbound false) by reflexivity.
  rewrite (filter_map_const _ isInbound true) by reflexivity.
  rewrite !length_map, !length_seq. repeat split; lia.
Qed.

Lemma shipsOf_In rand k getTime cx cy range planet ship :
  In ship (Ships.shipsOf rand k getTime cx cy range planet) ->
  trail ship = []
  /\ chain ship = primaryChain (interaction planet)
  /\ activationTime ship = Ships.activation getTime range planet
  /\ (exists j, progress ship = rand j /\ speed ship = 0.003 + rand (S j) * 0.004)
  /\ match direction ship with
     | outbound =>
         (fromX ship, fromY ship) = (cx, cy)
         /\ (toX ship, toY ship) = (px planet, py planet)
         /\ (0 < sentCount (interaction planet))%nat
     | inbound =>
         (fromX ship, fromY ship) = (px planet, py planet)
         /\ (toX ship, toY ship) = (cx, cy)
         /\ (0 < receivedCount (interaction planet))%nat
     end.
Proof.
  unfold Ships.shipsOf. cbv zeta. intros Hin.
  apply in_app_or in Hin.
  destruct Hin as [Hin | Hin]; apply in_map_iff in Hin;
    destruct Hin as (i & <- & Hi); apply in_seq in Hi;
    cbn [trail chain activationTime progress speed direction fromX fromY toX toY].
  - repeat split; try lia.
    exists (k + 2 * i)%nat. split; [reflexivity |].
    replace (S (k + 2 * i)) with (k + 2 * i + 1)%nat by lia. reflexivity.
  - repeat split; try lia.
    exists (k + 2 * Nat.min (sentCount (interaction planet)) 3 + 2 * i)%nat.
    split; [reflexivity |].
    replace (S (k + 2 * Nat.min (sentCount (interaction planet)) 3 + 2 * i))
      with (k + 2 * Nat.min (sentCount (interaction planet)) 3 + 2 * i + 1)%nat
      by lia.
    reflexivity.
Qed.

Lemma createShipsFrom_groups rand getTime cx cy range planets :
  forall k,
    exists groups,
      Ships.createShipsFrom rand k getTime planets cx cy range = List.concat groups
      /\ Forall2
           (fun planet group =>
              List.length (filter isOutbound group)
              = Nat.min (sentCount (interaction planet)) 3
              /\ List.length (filter isInbound group)
                 = Nat.min (receivedCount (interaction planet)) 3
              /\ (List.length group <= 6)%nat
              /\ Forall (shipOfBody cx cy planet) group)
           planets groups.
Proof.
  induction planets as [| planet rest IH]; intros k; cbn [Ships.createShipsFrom].
  - exists []. split; [reflexivity | constructor].
  - cbv zeta.
    destruct (IH (k + 2 * List.length
                          (Ships.shipsOf rand k getTime cx cy range planet))%nat)
      as (groups & E & Hall).
    exists (Ships.shipsOf rand k getTime cx cy range planet :: groups).
    split; [cbn [List.concat]; rewrite E; reflexivity |].
    constructor; [| exact Hall].
    destruct (shipsOf_counts rand k getTime cx cy range planet) as (Ho & Hi & Hl).
    split; [exact Ho |]. split; [exact Hi |]. split; [lia |].
    apply Forall_forall. intros ship Hin.
    destruct (shipsOf_In _ _ _ _ _ _ _ _ Hin) as (_ & Hchain & _ & _ & Hends).
    split; [exact Hchain |].
    destruct (direction ship); destruct Hends as (Hfrom & Hto & _);
      split; assumption.
Qed.

Lemma createShipsFrom_length rand getTime cx cy range planets :
  forall k,
    (List.length (Ships.createShipsFrom rand k getTime planets cx cy range)
     <= 6 * List.length planets)%nat.
Proof.
  induction planets as [| planet rest IH]; intros k; cbn [Ships.createShipsFrom].
  - cbn. lia.
  - cbv zeta. rewrite length_app.
    destruct (shipsOf_counts rand k getTime cx cy range planet) as (_ & _ & ->).
    specialize (IH (k + 2 * (Nat.min (sentCount (interaction planet)) 3
                             + Nat.min (receivedCount (interaction planet)) 3))%nat).
    cbn [List.length]. lia.
Qed.

(** C9. [buildInteractions] returns at most 20 records, in descending
    order of [txCount]; the ships created for a body are exactly
    [min(sentCount, 3)] outbound and [min(receivedCount, 3)] inbound ones,
    so at most 6: the ships [createShips] makes are, body after body, these
    ships of each body, on its chain and between the centre and its
    position, and so at most 6 per body in all. *)
Theorem bodies_and_ships_capped :
  forall walletAddress transactions,
    (List.length (Goldrush.buildInteractions walletAddress transactions) <= 20)%nat
    /\ StronglySorted (fun a b => (txCount b <= txCount a)%nat)
         (Goldrush.buildInteractions walletAddress transactions)
    /\ (forall rand k getTime cx cy range planet,
          List.length (filter isOutbound
                         (Ships.shipsOf rand k getTime cx cy range planet))
          = Nat.min (sentCount (interaction planet)) 3
          /\ List.length (filter isInbound
                            (Ships.shipsOf rand k getTime cx cy range planet))
             = Nat.min (receivedCount (interaction planet)) 3
          /\ (List.length (Ships.shipsOf rand k getTime cx cy range planet) <= 6)%nat)
    /\ (forall rand k getTime cx cy range planets,
          (List.length (Ships.createShips rand k getTime planets cx cy range)
           <= 6 * List.length planets)%nat)
    /\ (forall rand k getTime cx cy range planets,
          exists groups,
            Ships.createShips rand k getTime planets cx cy range = List.concat groups
            /\ Forall2
                 (fun planet group =>
                    List.length (filter isOutbound group)
                    = Nat.min (sentCount (interaction planet)) 3
                    /\ List.length (filter isInbound group)
                       = Nat.min (receivedCount (interaction planet)) 3
                    /\ (List.length group <= 6)%nat
                    /\ Forall (shipOfBody cx cy planet) group)
                 planets groups).
Proof.
  intros walletAddress transactions. unfold Goldrush.buildInteractions. cbv zeta.
  split; [apply firstn_le_length |].
  split.
  { apply StronglySorted_firstn.
    eapply StronglySorted_weaken;
      [| apply (sort_sorted WalletInteraction (fun w => INR (txCount w)))].
    intros a b Hab. cbv beta in Hab. apply INR_le. exact Hab. }
  split; [| split].
  - intros rand k getTime cx cy range planet.
    destruct (shipsOf_counts rand k getTime cx cy range planet) as (Ho & Hi & Hl).
    repeat split; [exact Ho | exact Hi | lia].
  - intros. apply createShipsFrom_length.
  - intros rand k getTime cx cy range planets.
    apply createShipsFrom_groups.
Qed.

Lemma bodies_and_ships_capped_witness :
  List.length
    (filter isOutbound
       (Ships.createShips (fun _ => / 2) 0 (fun _ => 0) [bodyAt 30 40 2 1] 0 0 None))
  = 2%nat
  /\ List.length
       (filter isInbound
          (Ships.createShips (fun _ => / 2) 0 (fun _ => 0) [bodyAt 30 40 2 1] 0 0 None))
     = 1%nat.
Proof.
  destruct (proj2 (proj2 (proj2 (proj2 (bodies_and_ships_capped "0xAA" []))))
              (fun _ : nat => / 2) 0%nat (fun _ : string => 0)
              0 0 None [bodyAt 30 40 2 1])
    as (groups & E & Hall).
  inversion Hall as [| planet group planets' groups' Hgroup Hrest]; subst.
  inversion Hrest; subst.
  rewrite E. cbn [List.concat]. rewrite app_nil_r.
  destruct Hgroup as (Ho & Hi & _).
  split; [exact Ho | exact Hi].
Defined.

(** [buildInteractions] on four transfers: the counterparty with two
    transfers comes first, addresses are lower-cased, and the transfer
    between strangers is dropped. *)
Example buildInteractions_sample :
  map (fun w => (address w, txCount w, sentCount w, receivedCount w,
                 primaryChain w, firstInteraction w))
      (Goldrush.buildInteractions "0xAA" sampleTransfers)
  = [ ("0xc2", 2, 0, 2, "base-mainnet", "2024-01-01");
      ("0xb1", 1, 1, 0, "eth-mainnet", "2024-01-03") ]%string%nat.
Proof.
  unfold Goldrush.buildInteractions. cbv zeta.
  set (m := fold_left _ _ _). vm_compute in m. subst m.
  cbn [map snd Goldrush.toInteraction].
  unfold JS.sort.
  cbn [fold_right JS.insert txCount Goldrush.toInteraction Goldrush.e_txCount].
  destruct (Rle_dec _ _) as [H | H].
  - cbn [INR] in H. lra.
  - reflexivity.
Qed.

(* ================================================================= *)
(** ** Ships: one update step *)

Lemma attach_progress ship planet cx cy :
  progress (Ships.attach ship planet cx cy) = progress ship.
Proof.
  unfold Ships.attach. destruct planet as [planet |]; [| reflexivity].
  destruct (direction ship) eqn:E; cbn; first [reflexivity | exact E].
Qed.

Lemma attach_trail ship planet cx cy :
  trail (Ships.attach ship planet cx cy) = trail ship.
Proof.
  unfold Ships.attach. destruct planet as [planet |]; [| reflexivity].
  destruct (direction ship) eqn:E; cbn; first [reflexivity | exact E].
Qed.

Lemma attach_direction ship planet cx cy :
  direction (Ships.attach ship planet cx cy) = direction ship.
Proof.
  unfold Ships.attach. destruct planet as [planet |]; [| reflexivity].
  destruct (direction ship) eqn:E; cbn; first [reflexivity | exact E].
Qed.

Lemma updateLoop_nth planets cx cy trailsEnabled ships :
  forall k i,
    nth_error (Ships.updateLoop planets cx cy trailsEnabled k ships) i
    = option_map (Ships.updateShip planets cx cy trailsEnabled (k + i))
                 (nth_error ships i).
Proof.
  induction ships as [| ship rest IH]; intros k [| i]; cbn [Ships.updateLoop nth_error option_map];
    try reflexivity.
  - rewrite Nat.add_0_r. reflexivity.
  - rewrite IH. replace (S k + i)%nat with (k + S i)%nat by lia. reflexivity.
Qed.

(** [reassociateShips] changes nothing of a ship but its endpoints. *)
Lemma reassociateFrom_nth planets cx cy ships :
  forall outIdx inIdx i ship,
    nth_error ships i = Some ship ->
    exists planet,
      nth_error (Ships.reassociateFrom outIdx inIdx ships planets cx cy) i
      = Some (Ships.attach ship planet cx cy).
Proof.
  induction ships as [| s rest IH]; intros outIdx inIdx [| i] ship Hi;
    cbn [nth_error] in Hi; try discriminate.
  - injection Hi as ->. cbn [Ships.reassociateFrom].
    destruct (direction ship); eexists; reflexivity.
  - cbn [Ships.reassociateFrom]. destruct (direction s); cbn [nth_error];
      eapply IH, Hi.
Qed.

(** A ship whose progress passes 1 restarts at 0; its old trail is dropped
    and the head recorded in the same step is the only point left. *)
Lemma updateShip_wrap planets cx cy trailsEnabled planetIdx ship :
  progress ship + speed ship > 1 ->
  let ship' := Ships.updateShip planets cx cy trailsEnabled planetIdx ship in
  let start := Ships.attach ship (Ships.planetAt planets planetIdx) cx cy in
  progress ship' = 0
  /\ trail ship'
     = [ {| tx := fromX start; ty := fromY start;
            alpha := if trailsEnabled then 1 - 0.03 else 1 |} ].
Proof.
  intros Hwrap ship' start. subst ship'. unfold Ships.updateShip. cbv zeta.
  rewrite (gtb_true _ _ Hwrap). fold start. cbn [progress trail].
  split; [reflexivity |].
  destruct trailsEnabled.
  - cbn [app map filter Ships.fade alpha tx ty].
    rewrite gtb_true by lra.
    unfold Ships.fade. cbn [tx ty alpha].
    apply (f_equal (fun p => [p])). f_equal; ring.
  - apply (f_equal (fun p => [p])). f_equal; ring.
Qed.

Lemma updateShips_wrap ships planets cx cy trailsEnabled i ship :
  nth_error ships i = Some ship ->
  progress ship + speed ship > 1 ->
  let start := Ships.attach ship (Ships.planetAt planets i) cx cy in
  exists ship',
    nth_error (Ships.updateShips ships planets cx cy trailsEnabled) i = Some ship'
    /\ progress ship' = 0
    /\ trail ship'
       = [ {| tx := fromX start; ty := fromY start;
              alpha := if trailsEnabled then 1 - 0.03 else 1 |} ].
Proof.
  intros Hi Hwrap start.
  unfold Ships.updateShips, Ships.reassociateShips.
  pose proof (updateLoop_nth planets cx cy trailsEnabled ships 0 i) as Hloop.
  rewrite Hi in Hloop. cbn [option_map Nat.add] in Hloop.
  destruct (reassociateFrom_nth planets cx cy _ 0%nat 0%nat i _ Hloop) as [planet Hre].
  eexists. split; [exact Hre |].
  rewrite attach_progress, attach_trail.
  exact (updateShip_wrap planets cx cy trailsEnabled i ship Hwrap).
Qed.

(** C3, as amended.  A ship with progress 0.999 and speed 0.01 has, after
    one update step, progress 0 and a trail of exactly one point: the head
    recorded in that step at the start of its path (faded once when trails
    are on).  The points it trailed before are gone. *)
Theorem wrapped_ship_restarts :
  forall ships planets cx cy trailsEnabled i ship,
    nth_error ships i = Some ship ->
    progress ship = 0.999 ->
    speed ship = 0.01 ->
    exists ship' head,
      nth_error (Ships.updateShips ships planets cx cy trailsEnabled) i = Some ship'
      /\ progress ship' = 0
      /\ trail ship' = [head]
      /\ tx head = fromX (Ships.attach ship (Ships.planetAt planets i) cx cy)
      /\ ty head = fromY (Ships.attach ship (Ships.planetAt planets i) cx cy)
      /\ alpha head = if trailsEnabled then 1 - 0.03 else 1.
Proof.
  intros ships planets cx cy trailsEnabled i ship Hi Hp Hs.
  destruct (updateShips_wrap ships planets cx cy trailsEnabled i ship Hi)
    as (ship' & Hnth & Hprog & Htrail).
  { rewrite Hp, Hs. lra. }
  eexists ship', _. repeat split; [exact Hnth | exact Hprog | exact Htrail | ..];
    reflexivity.
Qed.

Lemma wrapped_ship_restarts_witness :
  nth_error [sampleShip] 0 = Some sampleShip
  /\ progress sampleShip = 0.999
  /\ speed sampleShip = 0.01
  /\ exists ship' head,
       nth_error (Ships.updateShips [sampleShip] [bodyAt 30 40 1 0] 0 0 true) 0
       = Some ship'
       /\ progress ship' = 0
       /\ trail ship' = [head]
       /\ alpha head = 1 - 0.03.
Proof.
  repeat split; try reflexivity.
  destruct (wrapped_ship_restarts [sampleShip] [bodyAt 30 40 1 0] 0 0 true 0
              sampleShip eq_refl eq_refl eq_refl)
    as (ship' & head & H1 & H2 & H3 & _ & _ & H6).
  exists ship', head. repeat split; assumption.
Defined.

(** C3 fails as stated: the ship that wraps does not end the step with an
    empty trail. *)
Lemma wrapped_ship_trail_not_empty :
  ~ Forall (fun ship' => progress ship' = 0 /\ trail ship' = [])
           (Ships.updateShips [sampleShip] [bodyAt 30 40 1 0] 0 0 true).
Proof.
  intros H.
  destruct (updateShips_wrap [sampleShip] [bodyAt 30 40 1 0] 0 0 true 0
              sampleShip eq_refl)
    as (ship' & Hnth & _ & Htrail).
  { cbn [progress speed sampleShip]. lra. }
  rewrite Forall_forall in H.
  destruct (H ship' (nth_error_In _ _ Hnth)) as [_ Hempty].
  rewrite Hempty in Htrail. discriminate Htrail.
Qed.

(* ================================================================= *)
(** ** Ships: which body a ship follows *)

(** C4 does not hold of [updateShips].  Two bodies, the first with two
    transactions sent to it, the second with one: the ship of index 1 is
    pushed by [createShips] for the first body, and after one update step
    its far endpoint is the position of the second body. *)
Lemma second_ship_follows_other_body :
  let b0 := bodyAt 10 0 2 0 in
  let b1 := bodyAt 0 20 1 0 in
  let ships := Ships.createShips (fun _ => / 2) 0 (fun _ => 0) [b0; b1] 0 0 None in
  nth_error ships 1
  = nth_error (Ships.shipsOf (fun _ => / 2) 0 (fun _ => 0) 0 0 None b0) 1
  /\ exists ship ship',
       nth_error ships 1 = Some ship
       /\ (toX ship, toY ship) = (px b0, py b0)
       /\ nth_error (Ships.updateShips ships [b0; b1] 0 0 true) 1 = Some ship'
       /\ direction ship' = outbound
       /\ (fromX ship', fromY ship') = (0, 0)
       /\ (toX ship', toY ship') = (px b1, py b1)
       /\ (toX ship', toY ship') <> (px b0, py b0).
Proof.
  intros b0 b1 ships. split; [reflexivity |].
  eexists. eexists.
  split; [reflexivity |].
  split; [reflexivity |].
  split; [reflexivity |].
  split; [reflexivity |].
  split; [reflexivity |].
  split; [reflexivity |].
  intros H. apply (f_equal fst) in H. cbn in H. lra.
Qed.

(* ================================================================= *)
(** ** Ring keys and ring draws *)

Lemma toFixed_nonneg (f : nat) (x : R) :
  0 <= x -> JS.toFixed f x = (false, Zfloor (x * 10 ^ f + / 2)).
Proof.
  intros Hx. unfold JS.toFixed. destruct (Rlt_dec x 0); [lra | reflexivity].
Qed.

Lemma fixedEqb_eq (a b : bool * Z) : Orbits.fixedEqb a b = true <-> a = b.
Proof.
  destruct a as [sa na], b as [sb nb]. unfold Orbits.fixedEqb. cbn [fst snd].
  rewrite andb_true_iff, Bool.eqb_true_iff, Z.eqb_eq. split.
  - intros [-> ->]. reflexivity.
  - intros E. injection E as -> ->. split; reflexivity.
Qed.

Lemma keyEqb_eq (a b : Orbits.RingKey) : Orbits.keyEqb a b = true <-> a = b.
Proof.
  destruct a as [[a1 a2] a3], b as [[b1 b2] b3]. unfold Orbits.keyEqb.
  cbn [fst snd]. rewrite !andb_true_iff, !fixedEqb_eq. split.
  - intros [[-> ->] ->]. reflexivity.
  - intros E. injection E as -> -> ->. repeat split.
Qed.

Lemma drawnHas_false (drawn : list Orbits.RingKey) (k : Orbits.RingKey) :
  (forall k', In k' drawn -> k <> k') -> Orbits.drawnHas drawn k = false.
Proof.
  intros H. unfold Orbits.drawnHas.
  destruct (existsb (Orbits.keyEqb k) drawn) eqn:E; [| reflexivity].
  apply existsb_exists in E. destruct E as (k' & Hin & Heq).
  apply keyEqb_eq in Heq. exfalso. exact (H k' Hin Heq).
Qed.

Lemma ringOf_drawRing planet cx cy camera :
  Orbits.ringOf (Orbits.drawRing planet cx cy camera) = planet.
Proof. reflexivity. Qed.

(** The radius of the body of rank [i] among three. *)
Lemma radius_of_three rand w0 w1 w2 cx cy h i w :
  orbitRadius (Planets.createPlanet rand [w0; w1; w2] cx cy h i w)
  = 100 + (Rmin (h * 0.42) 500 - 100) / 2 * INR i.
Proof.
  unfold Planets.createPlanet.
  cbn [orbitRadius List.length Nat.ltb Nat.leb INR]. field.
Qed.

Lemma plane_of_created rand ws cx cy h i w :
  (planeTiltX (Planets.createPlanet rand ws cx cy h i w),
   planeTiltZ (Planets.createPlanet rand ws cx cy h i w))
  = Planets.getChainPlane (primaryChain w).
Proof.
  unfold Planets.createPlanet. cbn [planeTiltX planeTiltZ].
  destruct (Planets.getChainPlane (primaryChain w)). reflexivity.
Qed.

(** The key of a ring of radius 100 differs from the key of a ring whose
    radius prints as 100.1 or more. *)
Lemma toFixed_radius_differs (r : R) :
  100.05 <= r -> JS.toFixed 1 100 <> JS.toFixed 1 r.
Proof.
  intros Hr. rewrite !toFixed_nonneg by lra. intros E.
  injection E as E. cbn [pow] in E.
  assert (E0 : Zfloor (100 * (10 * 1) + / 2) = 1000%Z).
  { apply Zfloor_eq. lra. }
  assert (E1 : (1001 <= Zfloor (r * (10 * 1) + / 2))%Z).
  { apply Zfloor_lub. lra. }
  rewrite <- E, E0 in E1. lia.
Qed.

(** The tilt 0 of eth-mainnet and the tilt of base-mainnet print
    differently. *)
Lemma toFixed_tilt_differs : JS.toFixed 3 0 <> JS.toFixed 3 (PI * 0.38).
Proof.
  pose proof PI2_1 as Hpi.
  rewrite !toFixed_nonneg by lra. intros E. injection E as E. cbn [pow] in E.
  assert (E0 : Zfloor (0 * (10 * (10 * (10 * 1))) + / 2) = 0%Z).
  { apply Zfloor_eq. lra. }
  assert (E1 : (1 <= Zfloor (PI * 0.38 * (10 * (10 * (10 * 1))) + / 2))%Z).
  { apply Zfloor_lub. lra. }
  rewrite <- E, E0 in E1. lia.
Qed.

(** What [createPlanets] and [drawOrbits] make of three records on
    eth-mainnet, base-mainnet and eth-mainnet when the outer radius is at
    least 100.05. *)
Lemma three_records_scene rand w0 w1 w2 cx cy width height camera :
  primaryChain w0 = "eth-mainnet"%string ->
  primaryChain w1 = "base-mainnet"%string ->
  primaryChain w2 = "eth-mainnet"%string ->
  100.05 <= height * 0.42 ->
  exists b0 b1 b2,
    Planets.createPlanets rand [w0; w1; w2] cx cy width height = [b0; b1; b2]
    /\ orbitRadius b0 < orbitRadius b1 < orbitRadius b2
    /\ (planeTiltX b0, planeTiltZ b0) = (planeTiltX b2, planeTiltZ b2)
    /\ Orbits.ringKey b0 <> Orbits.ringKey b2
    /\ map Orbits.ringOf (Orbits.drawOrbits [b0; b1; b2] cx cy camera [])
       = [b0; b1; b2].
Proof.
  intros Hc0 Hc1 Hc2 Hh.
  unfold Planets.createPlanets. cbn [Planets.mapi].
  set (b0 := Planets.createPlanet rand [w0; w1; w2] cx cy height 0 w0).
  set (b1 := Planets.createPlanet rand [w0; w1; w2] cx cy height 1 w1).
  set (b2 := Planets.createPlanet rand [w0; w1; w2] cx cy height 2 w2).
  exists b0, b1, b2.
  assert (Hmax : 100.05 <= Rmin (height * 0.42) 500).
  { apply Rmin_glb; lra. }
  assert (R0 : orbitRadius b0 = 100).
  { subst b0. rewrite radius_of_three. cbn [INR]. lra. }
  assert (R1 : orbitRadius b1 = 100 + (Rmin (height * 0.42) 500 - 100) / 2).
  { subst b1. rewrite radius_of_three. cbn [INR]. lra. }
  assert (R2 : orbitRadius b2 = Rmin (height * 0.42) 500).
  { subst b2. rewrite radius_of_three. cbn [INR]. lra. }
  assert (P0 : (planeTiltX b0, planeTiltZ b0) = (0, 0)).
  { subst b0. rewrite plane_of_created, Hc0. reflexivity. }
  assert (P1 : (planeTiltX b1, planeTiltZ b1) = (PI * 0.38, 0)).
  { subst b1. rewrite plane_of_created, Hc1. reflexivity. }
  assert (P2 : (planeTiltX b2, planeTiltZ b2) = (0, 0)).
  { subst b2. rewrite plane_of_created, Hc2. reflexivity. }
  assert (X0 : planeTiltX b0 = 0) by exact (f_equal fst P0).
  assert (X1 : planeTiltX b1 = PI * 0.38) by exact (f_equal fst P1).
  assert (X2 : planeTiltX b2 = 0) by exact (f_equal fst P2).
  assert (K02 : Orbits.ringKey b0 <> Orbits.ringKey b2).
  { unfold Orbits.ringKey. rewrite R0, R2. intros E. injection E as E _ _.
    exact (toFixed_radius_differs _ Hmax E). }
  assert (K01 : Orbits.ringKey b1 <> Orbits.ringKey b0).
  { unfold Orbits.ringKey. rewrite X0, X1. intros E. injection E as _ E _.
    exact (toFixed_tilt_differs (eq_sym E)). }
  assert (K12 : Orbits.ringKey b2 <> Orbits.ringKey b1).
  { unfold Orbits.ringKey. rewrite X1, X2. intros E. injection E as _ E _.
    exact (toFixed_tilt_differs E). }
  split; [reflexivity |].
  split; [rewrite R0, R1, R2; lra |].
  split; [rewrite P0, P2; reflexivity |].
  split; [exact K02 |].
  unfold Orbits.drawOrbits. cbn [Orbits.drawOrbitsFrom]. cbv zeta.
  rewrite !has_empty.
  rewrite (drawnHas_false [] (Orbits.ringKey b0)) by (intros k' []).
  rewrite (drawnHas_false [Orbits.ringKey b0] (Orbits.ringKey b1))
    by (intros k' [<- | []]; exact K01).
  rewrite (drawnHas_false [Orbits.ringKey b1; Orbits.ringKey b0] (Orbits.ringKey b2))
    by (intros k' [<- | [<- | []]]; [exact K12 | exact (not_eq_sym K02)]).
  reflexivity.
Qed.

(** C2, as amended.  Three records with counts 10, 5, 1 on eth-mainnet,
    base-mainnet, eth-mainnet, on a canvas tall enough for an outer radius
    of 100.05 or more: the radii increase with the rank; the two
    eth-mainnet bodies lie in the same plane but, having different radii,
    have different ring keys; and [drawOrbits] draws three rings, one per
    body. *)
Theorem three_records_three_rings :
  forall rand w0 w1 w2 cx cy width height camera,
    txCount w0 = 10%nat -> txCount w1 = 5%nat -> txCount w2 = 1%nat ->
    primaryChain w0 = "eth-mainnet"%string ->
    primaryChain w1 = "base-mainnet"%string ->
    primaryChain w2 = "eth-mainnet"%string ->
    100.05 <= height * 0.42 ->
    exists b0 b1 b2,
      Planets.createPlanets rand [w0; w1; w2] cx cy width height = [b0; b1; b2]
      /\ orbitRadius b0 < orbitRadius b1 < orbitRadius b2
      /\ (planeTiltX b0, planeTiltZ b0) = (planeTiltX b2, planeTiltZ b2)
      /\ Orbits.ringKey b0 <> Orbits.ringKey b2
      /\ map Orbits.ringOf (Orbits.drawOrbits [b0; b1; b2] cx cy camera [])
         = [b0; b1; b2].
Proof.
  intros rand w0 w1 w2 cx cy width height camera _ _ _ Hc0 Hc1 Hc2 Hh.
  exact (three_records_scene rand w0 w1 w2 cx cy width height camera
           Hc0 Hc1 Hc2 Hh).
Qed.

Lemma three_records_three_rings_witness :
  100.05 <= 1000 * 0.42
  /\ exists b0 b1 b2,
       Planets.createPlanets (fun _ => 0) threeRecords 600 500 1200 1000
       = [b0; b1; b2]
       /\ orbitRadius b0 < orbitRadius b1 < orbitRadius b2
       /\ Orbits.ringKey b0 <> Orbits.ringKey b2
       /\ List.length (Orbits.drawOrbits [b0; b1; b2] 600 500 initialCamera [])
          = 3%nat.
Proof.
  assert (Hh : 100.05 <= 1000 * 0.42) by lra.
  split; [exact Hh |].
  destruct (three_records_three_rings (fun _ => 0)
              (sampleRecord 10 5 5 "eth-mainnet")
              (sampleRecord 5 3 2 "base-mainnet")
              (sampleRecord 1 1 0 "eth-mainnet")
              600 500 1200 1000 initialCamera
              eq_refl eq_refl eq_refl eq_refl eq_refl eq_refl Hh)
    as (b0 & b1 & b2 & Hcreate & Hradii & _ & Hkey & Hdraw).
  exists b0, b1, b2.
  split; [exact Hcreate |].
  split; [exact Hradii |].
  split; [exact Hkey |].
  rewrite <- (length_map Orbits.ringOf), Hdraw. reflexivity.
Defined.

(** C2 fails as stated: on a canvas 1000 pixels tall the two eth-mainnet
    bodies have different ring keys and three rings are drawn, not two. *)
Lemma three_records_not_two_rings :
  ~ (exists b0 b1 b2,
       Planets.createPlanets (fun _ => 0) threeRecords 600 500 1200 1000
       = [b0; b1; b2]
       /\ orbitRadius b0 < orbitRadius b1 < orbitRadius b2
       /\ Orbits.ringKey b0 = Orbits.ringKey b2
       /\ List.length (Orbits.drawOrbits [b0; b1; b2] 600 500 initialCamera [])
          = 2%nat).
Proof.
  intros (b0 & b1 & b2 & Hcreate & _ & Hkey & _).
  destruct (three_records_scene (fun _ => 0)
              (sampleRecord 10 5 5 "eth-mainnet")
              (sampleRecord 5 3 2 "base-mainnet")
              (sampleRecord 1 1 0 "eth-mainnet")
              600 500 1200 1000 initialCamera eq_refl eq_refl eq_refl)
    as (c0 & c1 & c2 & Hcreate' & _ & _ & Hkey' & _).
  { lra. }
  unfold threeRecords in Hcreate. rewrite Hcreate' in Hcreate.
  injection Hcreate as -> -> ->. exact (Hkey' Hkey).
Qed.

(* ================================================================= *)
(** ** Hit test, pass 1: bodies *)

Lemma hitBodies_spec state world planets :
  forall i0 found,
    (Renderer.hitBodies state world i0 planets found = found
     /\ forall k p, nth_error planets k = Some p ->
                    Renderer.isDisabled state p = false ->
                    size p + 12 <= Renderer.distance world (px p) (py p))
    \/ (exists k p,
          Renderer.hitBodies state world i0 planets found = Some (i0 + k)%nat
          /\ nth_error planets k = Some p
          /\ Renderer.isDisabled state p = false
          /\ Renderer.distance world (px p) (py p) < size p + 12
          /\ forall k' p', nth_error planets k' = Some p' ->
                           Renderer.isDisabled state p' = false ->
                           Renderer.distance world (px p') (py p') < size p' + 12 ->
                           (k' <= k)%nat).
Proof.
  induction planets as [| planet rest IH]; intros i0 found.
  - left. split; [reflexivity |]. intros [| k] p H; discriminate H.
  - cbn [Renderer.hitBodies]. cbv zeta.
    destruct (Renderer.isDisabled state planet) eqn:Hdis.
    + destruct (IH (S i0) found) as [[Hr Hnone] | (k & p & Hr & Hk & Hp & Hd & Hmax)].
      * left. split; [exact Hr |].
        intros [| k] p Hk Hen; cbn [nth_error] in Hk.
        -- injection Hk as <-. congruence.
        -- eapply Hnone; eassumption.
      * right. exists (S k), p. rewrite Hr.
        split; [f_equal; lia |]. split; [exact Hk |].
        split; [exact Hp |]. split; [exact Hd |].
        intros [| k'] p' Hk' Hen' Hd'; cbn [nth_error] in Hk'; [lia |].
        specialize (Hmax _ _ Hk' Hen' Hd'). lia.
    + destruct (Rlt_dec (Renderer.distance world (px planet) (py planet))
                        (size planet + 12)) as [Hlt | Hge].
      * rewrite (ltb_true _ _ Hlt).
        destruct (IH (S i0) (Some i0))
          as [[Hr Hnone] | (k & p & Hr & Hk & Hp & Hd & Hmax)].
        -- right. exists 0%nat, planet. rewrite Hr.
           split; [f_equal; lia |]. split; [reflexivity |].
           split; [exact Hdis |]. split; [exact Hlt |].
           intros [| k'] p' Hk' Hen' Hd'; cbn [nth_error] in Hk'; [lia |].
           specialize (Hnone _ _ Hk' Hen'). lra.
        -- right. exists (S k), p. rewrite Hr.
           split; [f_equal; lia |]. split; [exact Hk |].
           split; [exact Hp |]. split; [exact Hd |].
           intros [| k'] p' Hk' Hen' Hd'; cbn [nth_error] in Hk'; [lia |].
           specialize (Hmax _ _ Hk' Hen' Hd'). lia.
      * rewrite ltb_false by lra.
        destruct (IH (S i0) found)
          as [[Hr Hnone] | (k & p & Hr & Hk & Hp & Hd & Hmax)].
        -- left. split; [exact Hr |].
           intros [| k] p Hk Hen; cbn [nth_error] in Hk.
           ++ injection Hk as <-. lra.
           ++ eapply Hnone; eassumption.
        -- right. exists (S k), p. rewrite Hr.
           split; [f_equal; lia |]. split; [exact Hk |].
           split; [exact Hp |]. split; [exact Hd |].
           intros [| k'] p' Hk' Hen' Hd'; cbn [nth_error] in Hk'.
           ++ injection Hk' as <-. lra.
           ++ specialize (Hmax _ _ Hk' Hen' Hd'). lia.
Qed.

(** Pass 1 on a whole state: no enabled body is near the pointer and
    nothing is found, or the last enabled body near the pointer is. *)
Lemma hitBodies_last state :
  (Renderer.hitBodies state (pointer state) 0 (Renderer.planets state) None = None
   /\ forall i, ~ bodyHit state i)
  \/ (exists i,
        Renderer.hitBodies state (pointer state) 0 (Renderer.planets state) None
        = Some i
        /\ bodyHit state i
        /\ forall j, bodyHit state j -> (j <= i)%nat).
Proof.
  destruct (hitBodies_spec state (pointer state) (Renderer.planets state) 0 None)
    as [[Hr Hnone] | (k & p & Hr & Hk & Hp & Hd & Hmax)].
  - left. split; [exact Hr |].
    intros i (planet & Hi & Hen & Hd). specialize (Hnone _ _ Hi Hen). lra.
  - right. exists k. split; [exact Hr |].
    split; [exists p; repeat split; assumption |].
    intros j (planet & Hj & Hen & Hd'). exact (Hmax _ _ Hj Hen Hd').
Qed.

(* ================================================================= *)
(** ** Hit test, pass 2: rings *)

Lemma fold_left_map {A B C : Type} (g : A -> C -> A) (f : B -> C) (l : list B) :
  forall a, fold_left g (map f l) a = fold_left (fun a b => g a (f b)) l a.
Proof.
  induction l as [| b l IH]; intros a; cbn [map fold_left];
    [reflexivity | apply IH].
Qed.

(** Pass 2 is one scan of the samples of the enabled rings. *)
Lemma hitRings_scan state planets :
  forall idx acc,
    Renderer.hitRings state (pointer state) (cameraOf state) idx planets acc
    = fold_left (pick (10 / Renderer.zoom state)) (ringScan state idx planets) acc.
Proof.
  induction planets as [| planet rest IH]; intros idx acc;
    cbn [Renderer.hitRings ringScan]; [reflexivity |].
  destruct (Renderer.isDisabled state planet).
  - cbn [app]. apply IH.
  - rewrite fold_left_app, fold_left_map. apply IH.
Qed.

Lemma ringScan_In state planets :
  forall idx i d,
    In (i, d) (ringScan state idx planets) <->
    exists j planet k,
      i = (idx + j)%nat
      /\ nth_error planets j = Some planet
      /\ Renderer.isDisabled state planet = false
      /\ (k < 60)%nat
      /\ d = sampleDistance state planet k.
Proof.
  induction planets as [| planet rest IH]; intros idx i d; cbn [ringScan].
  - split; [intros [] |]. intros (j & planet & k & _ & Hj & _).
    destruct j; discriminate Hj.
  - rewrite in_app_iff, IH. split.
    + intros [Hhere | (j & p & k & -> & Hj & Hen & Hk & Hd)].
      * destruct (Renderer.isDisabled state planet) eqn:Hdis; [destruct Hhere |].
        apply in_map_iff in Hhere. destruct Hhere as (k & E & Hk).
        injection E as <- <-. apply in_seq in Hk.
        exists 0%nat, planet, k. unfold Renderer.orbitSamples in Hk.
        repeat split; [lia | assumption | lia].
      * exists (S j), p, k. repeat split; [lia | assumption ..].
    + intros (j & p & k & -> & Hj & Hen & Hk & Hd). destruct j as [| j].
      * cbn [nth_error] in Hj. injection Hj as <-. left. rewrite Hen.
        apply in_map_iff. exists k. split.
        -- rewrite Nat.add_0_r, Hd. reflexivity.
        -- apply in_seq. unfold Renderer.orbitSamples. lia.
      * right. exists j, p, k. repeat split; [lia | assumption ..].
Qed.

Lemma pick_scanned threshold seen acc s :
  scanned threshold seen acc ->
  scanned threshold (seen ++ [s]) (pick threshold acc s).
Proof.
  destruct s as [i d]. unfold pick. cbn [fst snd].
  intros [[-> Hall] | (i0 & d0 & -> & Hin & Hlt & Hall)]; cbn [fst Renderer.closer].
  - destruct (Rlt_dec d threshold) as [Hd | Hd].
    + rewrite (ltb_true _ _ Hd). cbn [andb]. right. exists i, d.
      split; [reflexivity |]. split; [apply in_or_app; right; left; reflexivity |].
      split; [exact Hd |].
      intros s Hs. apply in_app_or in Hs. destruct Hs as [Hs | [<- | []]].
      * specialize (Hall s Hs). lra.
      * cbn [snd]. lra.
    + rewrite ltb_false by lra. cbn [andb]. left.
      split; [reflexivity |].
      intros s Hs. apply in_app_or in Hs. destruct Hs as [Hs | [<- | []]].
      * exact (Hall s Hs).
      * cbn [snd]. lra.
  - destruct (Rlt_dec d threshold) as [Hd | Hd];
      [rewrite (ltb_true _ _ Hd) | rewrite ltb_false by lra]; cbn [andb].
    + destruct (Rlt_dec d d0) as [Hc | Hc];
        [rewrite (ltb_true _ _ Hc) | rewrite ltb_false by lra].
      * right. exists i, d.
        split; [reflexivity |].
        split; [apply in_or_app; right; left; reflexivity |].
        split; [exact Hd |].
        intros s Hs. apply in_app_or in Hs. destruct Hs as [Hs | [<- | []]].
        -- specialize (Hall s Hs). lra.
        -- cbn [snd]. lra.
      * right. exists i0, d0.
        split; [reflexivity |]. split; [apply in_or_app; left; exact Hin |].
        split; [exact Hlt |].
        intros s Hs. apply in_app_or in Hs. destruct Hs as [Hs | [<- | []]].
        -- exact (Hall s Hs).
        -- cbn [snd]. lra.
    + right. exists i0, d0.
      split; [reflexivity |]. split; [apply in_or_app; left; exact Hin |].
      split; [exact Hlt |].
      intros s Hs. apply in_app_or in Hs. destruct Hs as [Hs | [<- | []]].
      * exact (Hall s Hs).
      * cbn [snd]. lra.
Qed.

Lemma fold_pick_scanned threshold l :
  forall seen acc,
    scanned threshold seen acc ->
    scanned threshold (seen ++ l) (fold_left (pick threshold) l acc).
Proof.
  induction l as [| s l IH]; intros seen acc H; cbn [fold_left].
  - rewrite app_nil_r. exact H.
  - replace (seen ++ s :: l) with ((seen ++ [s]) ++ l)
      by (rewrite <- app_assoc; reflexivity).
    apply IH, pick_scanned, H.
Qed.

(** Pass 2 on a whole state. *)
Lemma hitRings_closest state :
  scanned (10 / Renderer.zoom state) (ringScan state 0 (Renderer.planets state))
    (Renderer.hitRings state (pointer state) (cameraOf state) 0
       (Renderer.planets state) (None, None)).
Proof.
  rewrite hitRings_scan.
  apply (fold_pick_scanned _ _ [] (None, None)).
  left. split; [reflexivity | intros s []].
Qed.

Lemma ringScan_ringSample state i d :
  In (i, d) (ringScan state 0 (Renderer.planets state)) <-> ringSample state i d.
Proof.
  rewrite ringScan_In. unfold ringSample. split.
  - intros (j & planet & k & -> & Hj & Hen & Hk & Hd).
    exists planet, k. repeat split; assumption.
  - intros (planet & k & Hi & Hen & Hk & Hd).
    exists i, planet, k. repeat split; assumption.
Qed.

(* ================================================================= *)
(** ** Hit test *)

Lemma hitTest_passes state :
  Renderer.hitTest state
  = match Renderer.hitBodies state (pointer state) 0 (Renderer.planets state) None with
    | Some i => Some i
    | None =>
        snd (Renderer.hitRings state (pointer state) (cameraOf state) 0
               (Renderer.planets state) (None, None))
    end.
Proof.
  unfold Renderer.hitTest. cbv zeta. fold (cameraOf state).
  change (Renderer.screenToWorld state (Renderer.mouseX state)
            (Renderer.mouseY state))
    with (pointer state).
  destruct (Renderer.hitBodies state (pointer state) 0 (Renderer.planets state) None);
    reflexivity.
Qed.

(** Whatever the hit test finds is an enabled body near the pointer or an
    enabled body with a ring sample near the pointer. *)
Lemma hitTest_sound state i :
  Renderer.hitTest state = Some i ->
  bodyHit state i \/ exists d, ringHit state i d.
Proof.
  rewrite hitTest_passes.
  destruct (hitBodies_last state) as [[Hr _] | (i' & Hr & Hb & _)]; rewrite Hr.
  - destruct (hitRings_closest state)
      as [[E _] | (i0 & d & E & Hin & Hlt & _)]; rewrite E; cbn [snd].
    + discriminate.
    + intros H. injection H as <-. right. exists d.
      split; [apply ringScan_ringSample; exact Hin | exact Hlt].
  - intros H. injection H as <-. left. exact Hb.
Qed.



(** On the screen the pointer of [zoomedState] is 100 pixels away from the
    place of the body in the scene, farther than [size + 12]. *)
Lemma zoomedState_screen_distance :
  Renderer.distance (Renderer.mouseX (zoomedState []), Renderer.mouseY (zoomedState []))
                    700 400
  = 100.
Proof.
  unfold Renderer.distance, zoomedState.
  cbn [fst snd Renderer.mouseX Renderer.mouseY].
  replace ((800 - 700) * (800 - 700) + (400 - 400) * (400 - 400))
    with (100 * 100) by ring.
  apply sqrt_square. lra.
Qed.


(* ================================================================= *)
(** ** Further facts *)

(** In the right-handed convention the camera step about Y turns the
    point by the opposite angle. *)
Lemma rotateY_right_handed (theta : R) (p : Point3) :
  Pipeline.rotateY theta p
  = {| ptx := ptx p * cos (- theta) + ptz p * sin (- theta);
       pty := pty p;
       ptz := - ptx p * sin (- theta) + ptz p * cos (- theta) |}.
Proof.
  unfold Pipeline.rotateY, Pipeline.rotate2. cbn [fst snd].
  rewrite cos_neg, sin_neg. f_equal; ring.
Qed.

(** Two bodies with the same radius and plane share a key, and one ring is
    drawn for them. *)
Example same_ring_drawn_once :
  map Orbits.ringOf
      (Orbits.drawOrbits [bodyAt 10 0 2 0; bodyAt 0 20 1 0] 0 0 initialCamera [])
  = [bodyAt 10 0 2 0].
Proof.
  unfold Orbits.drawOrbits. cbn [Orbits.drawOrbitsFrom]. cbv zeta.
  rewrite !has_empty.
  rewrite (drawnHas_false [] _) by (intros k' []).
  assert (Hsame : Orbits.drawnHas [Orbits.ringKey (bodyAt 10 0 2 0)]
                    (Orbits.ringKey (bodyAt 0 20 1 0)) = true).
  { unfold Orbits.drawnHas. cbn [existsb]. apply orb_true_iff. left.
    apply keyEqb_eq. reflexivity. }
  rewrite Hsame. reflexivity.
Qed.

(** What [reassociateShips] does: a ship is attached to the body whose
    index is the number of ships of its own direction before it, modulo
    the number of bodies. *)
Lemma reassociateFrom_follows_rank planets cx cy ships :
  forall outIdx inIdx i ship,
    nth_error ships i = Some ship ->
    nth_error (Ships.reassociateFrom outIdx inIdx ships planets cx cy) i
    = Some (Ships.attach ship
              (Ships.planetAt planets
                 (match direction ship with
                  | outbound =>
                      outIdx + List.length (filter isOutbound (firstn i ships))
                  | inbound =>
                      inIdx + List.length (filter isInbound (firstn i ships))
                  end)%nat)
              cx cy).
Proof.
  induction ships as [| s rest IH]; intros outIdx inIdx [| i] ship Hi;
    cbn [nth_error] in Hi; try discriminate.
  - injection Hi as ->. cbn [Ships.reassociateFrom firstn filter List.length].
    rewrite !Nat.add_0_r. destruct (direction ship); reflexivity.
  - cbn [Ships.reassociateFrom firstn filter].
    unfold isOutbound at 1, isInbound at 1.
    destruct (direction s); cbn [nth_error List.length];
      rewrite (IH _ _ _ _ Hi); destruct (direction ship);
      do 3 f_equal; lia.
Qed.

(** One frame draws the bodies of [drawPlanets] and hovers what the hit
    test finds among the bodies it has just moved. *)
Lemma render_frame state :
  let camera := cameraOf state in
  let moved := Planets.drawPlanets (Renderer.planets state)
                 (Renderer.centerX state) (Renderer.centerY state) camera
                 (Renderer.disabledChains state) in
  Renderer.bodies (snd (Renderer.render state)) = snd moved
  /\ Renderer.hoveredPlanet (fst (Renderer.render state))
     = Renderer.hitTest
         (Renderer.withScene state (fst moved)
            (Ships.updateShips (Renderer.ships state) (fst moved)
               (Renderer.centerX state) (Renderer.centerY state)
               (Renderer.trailsEnabled state))
            (Renderer.hoveredPlanet state)).
Proof.
  split; reflexivity.
Qed.

Lemma mapi_length {A B : Type} (f : nat -> A -> B) (l : list A) :
  forall i, List.length (Planets.mapi f i l) = List.length l.
Proof.
  induction l as [| a l IH]; intros i; cbn [Planets.mapi List.length];
    [reflexivity | rewrite IH; reflexivity].
Qed.

(** A scene seeded from [buildInteractions] holds at most 20 bodies and at
    most 120 ships. *)
Lemma seeded_scene_capped rand getTime state walletAddress transactions :
  let state' := Renderer.setInteractions rand getTime state
                  (Goldrush.buildInteractions walletAddress transactions) in
  (List.length (Renderer.planets state') <= 20)%nat
  /\ (List.length (Renderer.ships state') <= 120)%nat.
Proof.
  cbv zeta. unfold Renderer.setInteractions.
  cbn [Renderer.planets Renderer.ships].
  set (records := Goldrush.buildInteractions walletAddress transactions).
  assert (Hrec : (List.length records <= 20)%nat).
  { subst records. unfold Goldrush.buildInteractions. apply firstn_le_length. }
  assert (Hbodies :
    List.length (Planets.createPlanets rand records (Renderer.centerX state)
                   (Renderer.centerY state) (Renderer.width state)
                   (Renderer.height state)) = List.length records).
  { unfold Planets.createPlanets. apply mapi_length. }
  split; [rewrite Hbodies; exact Hrec |].
  unfold Ships.createShips.
  eapply Nat.le_trans; [apply createShipsFrom_length |].
  rewrite Hbodies. lia.
Qed.

(* ================================================================= *)
(** ** More on the projection *)












(* ================================================================= *)
(** ** More on the creation of the bodies *)

Lemma mapi_nth {A B : Type} (f : nat -> A -> B) (l : list A) :
  forall k i,
    nth_error (Planets.mapi f k l) i = option_map (f (k + i)%nat) (nth_error l i).
Proof.
  induction l as [| a l IH]; intros k [| i]; cbn [Planets.mapi nth_error option_map];
    try reflexivity.
  - rewrite Nat.add_0_r. reflexivity.
  - rewrite IH. replace (S k + i)%nat with (k + S i)%nat by lia. reflexivity.
Qed.

Lemma created_nth rand interactions cx cy w h i planet :
  nth_error (Planets.createPlanets rand interactions cx cy w h) i = Some planet ->
  exists record,
    nth_error interactions i = Some record
    /\ planet = Planets.createPlanet rand interactions cx cy h i record.
Proof.
  unfold Planets.createPlanets. rewrite mapi_nth. cbn [Nat.add].
  destruct (nth_error interactions i) as [record |]; cbn [option_map];
    intros H; [| discriminate H].
  injection H as <-. exists record. split; reflexivity.
Qed.


(** The radius given to the rank [i] of [n] records: a fraction [t] of the
    way from 100 to the outer radius, 0 for the first rank and 1 for the
    last of several. *)
Lemma created_radius rand interactions cx cy h i record :
  (i < List.length interactions)%nat ->
  exists t,
    orbitRadius (Planets.createPlanet rand interactions cx cy h i record)
    = 100 + (Rmin (h * 0.42) 500 - 100) * t
    /\ 0 <= t <= 1
    /\ (i = 0%nat -> t = 0)
    /\ ((1 < List.length interactions)%nat ->
        t = INR i / (INR (List.length interactions) - 1)).
Proof.
  intros Hi. unfold Planets.createPlanet. cbn [orbitRadius].
  destruct (1 <? List.length interactions)%nat eqn:Hn.
  - apply Nat.ltb_lt in Hn.
    assert (Hd : 0 < INR (List.length interactions) - 1).
    { pose proof (lt_INR _ _ Hn) as H. cbn [INR] in H. lra. }
    exists (INR i / (INR (List.length interactions) - 1)).
    split; [field; lra |].
    split.
    + split.
      * apply Rmult_le_pos; [apply pos_INR | left; apply Rinv_0_lt_compat; exact Hd].
      * apply (Rmult_le_reg_r (INR (List.length interactions) - 1)); [exact Hd |].
        unfold Rdiv. rewrite Rmult_assoc, Rinv_l by lra.
        assert (Hle : (S i <= List.length interactions)%nat) by lia.
        apply le_INR in Hle. rewrite S_INR in Hle. lra.
    + split; [intros ->; cbn [INR]; unfold Rdiv; ring | intros _; reflexivity].
  - apply Nat.ltb_ge in Hn. assert (i = 0%nat) as -> by lia.
    exists 0. split; [cbn [INR]; ring |]. split; [lra |].
    split; [reflexivity | intros H; lia].
Qed.

Lemma created_radii rand interactions cx cy w h i planet :
  nth_error (Planets.createPlanets rand interactions cx cy w h) i = Some planet ->
  (i = 0%nat -> orbitRadius planet = 100)
  /\ (100 <= h * 0.42 -> 100 <= orbitRadius planet)
  /\ (h * 0.42 <= 100 -> orbitRadius planet <= 100)
  /\ (forall j planet',
        nth_error (Planets.createPlanets rand interactions cx cy w h) j
        = Some planet' ->
        (i < j)%nat ->
        (100 < h * 0.42 -> orbitRadius planet < orbitRadius planet')
        /\ (h * 0.42 < 100 -> orbitRadius planet' < orbitRadius planet)).
Proof.
  intros Hnth.
  destruct (created_nth _ _ _ _ _ _ _ _ Hnth) as (record & Hrec & ->).
  assert (Hi : (i < List.length interactions)%nat).
  { apply nth_error_Some. rewrite Hrec. discriminate. }
  destruct (created_radius rand interactions cx cy h i record Hi)
    as (t & Hr & Ht & Ht0 & Htn).
  split; [intros E; rewrite Hr, (Ht0 E); ring |].
  split.
  { intros Hh. rewrite Hr.
    assert (Hm : 100 <= Rmin (h * 0.42) 500) by (apply Rmin_glb; lra).
    nra. }
  split.
  { intros Hh. rewrite Hr.
    assert (Hm : Rmin (h * 0.42) 500 <= 100).
    { eapply Rle_trans; [apply Rmin_l | exact Hh]. }
    nra. }
  intros j planet' Hnth' Hij.
  destruct (created_nth _ _ _ _ _ _ _ _ Hnth') as (record' & Hrec' & ->).
  assert (Hj : (j < List.length interactions)%nat).
  { apply nth_error_Some. rewrite Hrec'. discriminate. }
  destruct (created_radius rand interactions cx cy h j record' Hj)
    as (t' & Hr' & _ & _ & Htn').
  assert (Hn : (1 < List.length interactions)%nat) by lia.
  assert (Hd : 0 < INR (List.length interactions) - 1).
  { pose proof (lt_INR _ _ Hn) as H. cbn [INR] in H. lra. }
  assert (Htt : t < t').
  { rewrite (Htn Hn), (Htn' Hn). unfold Rdiv.
    apply Rmult_lt_compat_r; [apply Rinv_0_lt_compat; exact Hd |].
    apply lt_INR. exact Hij. }
  rewrite Hr, Hr'. split; intros Hh.
  - assert (Hm : 100 < Rmin (h * 0.42) 500) by (apply Rmin_glb_lt; lra).
    nra.
  - assert (Hm : Rmin (h * 0.42) 500 < 100).
    { eapply Rle_lt_trans; [apply Rmin_l | exact Hh]. }
    nra.
Qed.

(** X3. The radii of the bodies made from any record list: the first rank
    gets 100; when [0.42 * height] is at least 100 no radius is below 100,
    and when it is more the radius grows strictly with the rank; on a
    lower canvas, where [0.42 * height] is below 100, no radius is above
    100 and the radius shrinks strictly with the rank. *)
Theorem radii_spread_by_rank :
  forall rand interactions cx cy w h i planet,
    nth_error (Planets.createPlanets rand interactions cx cy w h) i = Some planet ->
    (i = 0%nat -> orbitRadius planet = 100)
    /\ (100 <= h * 0.42 -> 100 <= orbitRadius planet)
    /\ (h * 0.42 <= 100 -> orbitRadius planet <= 100)
    /\ (forall j planet',
          nth_error (Planets.createPlanets rand interactions cx cy w h) j
          = Some planet' ->
          (i < j)%nat ->
          (100 < h * 0.42 -> orbitRadius planet < orbitRadius planet')
          /\ (h * 0.42 < 100 -> orbitRadius planet' < orbitRadius planet)).
Proof.
  intros rand interactions cx cy w h i planet H.
  exact (created_radii rand interactions cx cy w h i planet H).
Qed.

Lemma radii_spread_by_rank_witness :
  let bodies := Planets.createPlanets (fun _ => 0) threeRecords 600 500 1200 1000 in
  let middle := Planets.createPlanet (fun _ => 0) threeRecords 600 500 1000 1
                  (sampleRecord 5 3 2 "base-mainnet") in
  let last := Planets.createPlanet (fun _ => 0) threeRecords 600 500 1000 2
                (sampleRecord 1 1 0 "eth-mainnet") in
  nth_error bodies 1 = Some middle
  /\ nth_error bodies 2 = Some last
  /\ 100 < 1000 * 0.42
  /\ 100 <= orbitRadius middle
  /\ orbitRadius middle < orbitRadius last.
Proof.
  intros bodies middle last.
  assert (Hmid : nth_error bodies 1 = Some middle) by reflexivity.
  assert (Hlast : nth_error bodies 2 = Some last) by reflexivity.
  assert (Hh : 100 < 1000 * 0.42) by lra.
  pose proof (radii_spread_by_rank (fun _ => 0) threeRecords 600 500 1200 1000
                1 middle Hmid) as (_ & Hlow & _ & Hmono).
  split; [exact Hmid |]. split; [exact Hlast |]. split; [exact Hh |].
  split; [apply Hlow; lra |].
  exact (proj1 (Hmono 2%nat last Hlast ltac:(lia)) Hh).
Defined.




(** X5. When [Math.random] stays in [0, 1), the body of rank [i] turns with
    an angular speed in [0.15 / (i + 1), 0.25 / (i + 1)): every body turns
    the same way, none faster than 0.25, and the first rank is faster than
    every other rank. *)
Theorem angular_speed_by_rank :
  forall rand interactions cx cy w h i planet,
    (forall k, 0 <= rand k < 1) ->
    nth_error (Planets.createPlanets rand interactions cx cy w h) i = Some planet ->
    0.15 / (INR i + 1) <= angularSpeed planet < 0.25 / (INR i + 1)
    /\ 0 < angularSpeed planet < 0.25
    /\ forall first,
         nth_error (Planets.createPlanets rand interactions cx cy w h) 0
         = Some first ->
         (0 < i)%nat -> angularSpeed planet < angularSpeed first.
Proof.
  intros rand interactions cx cy w h i planet Hrand Hnth.
  destruct (created_nth _ _ _ _ _ _ _ _ Hnth) as (record & _ & ->).
  unfold Planets.createPlanet at 1 2 3 4 5. cbn [angularSpeed].
  pose proof (Hrand (2 * i + 1)%nat) as Hu.
  assert (Hi : 0 < INR i + 1) by (pose proof (pos_INR i); lra).
  assert (Hinv : 0 < / (INR i + 1)) by (apply Rinv_0_lt_compat; exact Hi).
  assert (Hinv1 : / (INR i + 1) <= 1).
  { rewrite <- Rinv_1 at 2. apply Rinv_le_contravar; [lra |].
    pose proof (pos_INR i). lra. }
  unfold Rdiv.
  assert (Hrange : 0.15 * / (INR i + 1)
                   <= (0.15 + rand (2 * i + 1)%nat * 0.1) * / (INR i + 1)
                   < 0.25 * / (INR i + 1)) by nra.
  split; [exact Hrange |]. split; [nra |].
  intros first Hfirst Hpos.
  destruct (created_nth _ _ _ _ _ _ _ _ Hfirst) as (record0 & _ & ->).
  unfold Planets.createPlanet. cbn [angularSpeed INR Nat.mul Nat.add].
  pose proof (Hrand 1%nat) as Hu0.
  assert (Hhalf : / (INR i + 1) <= / 2).
  { apply Rinv_le_contravar; [lra |].
    assert (H1 : (1 <= i)%nat) by lia. apply le_INR in H1. cbn [INR] in H1. lra. }
  unfold Rdiv.
  replace (i + (i + 0) + 1)%nat with (2 * i + 1)%nat by lia.
  rewrite Rplus_0_l, Rinv_1. lra.
Qed.

Lemma angular_speed_by_rank_witness :
  let second := Planets.createPlanet (fun _ => / 2) threeRecords 600 500 1000 1
                  (sampleRecord 5 3 2 "base-mainnet") in
  (forall k : nat, 0 <= (fun _ : nat => / 2) k < 1)
  /\ nth_error (Planets.createPlanets (fun _ => / 2) threeRecords 600 500 1200 1000) 1
     = Some second
  /\ 0 < angularSpeed second < 0.25.
Proof.
  intros second.
  assert (Hrand : forall k : nat, 0 <= (fun _ : nat => / 2) k < 1)
    by (intros k; cbv beta; lra).
  assert (Hnth : nth_error (Planets.createPlanets (fun _ => / 2) threeRecords
                              600 500 1200 1000) 1 = Some second) by reflexivity.
  split; [exact Hrand |]. split; [exact Hnth |].
  exact (proj1 (proj2 (angular_speed_by_rank (fun _ => / 2) threeRecords
                         600 500 1200 1000 1 second Hrand Hnth))).
Defined.

(* ================================================================= *)
(** ** More on the drawing of the bodies *)

Lemma filter_permutation {A : Type} (f : A -> bool) (l l' : list A) :
  Permutation l l' -> Permutation (filter f l) (filter f l').
Proof.
  induction 1 as [| a l l' Hp IH | a b l | l l' l'' H1 IH1 H2 IH2]; cbn [filter].
  - apply perm_nil.
  - destruct (f a); [apply perm_skip |]; exact IH.
  - destruct (f a), (f b); try apply Permutation_refl. apply perm_swap.
  - eapply perm_trans; eassumption.
Qed.

Lemma StronglySorted_filter {A : Type} (R : A -> A -> Prop) (f : A -> bool)
    (l : list A) :
  StronglySorted R l -> StronglySorted R (filter f l).
Proof.
  induction 1 as [| a l Hs IH Ha]; cbn [filter]; [constructor |].
  destruct (f a); [| exact IH]. constructor; [exact IH |].
  rewrite Forall_forall in Ha |- *. intros b Hb.
  apply filter_In in Hb. apply Ha. exact (proj1 Hb).
Qed.

Lemma StronglySorted_map {A B : Type} (S : B -> B -> Prop) (g : A -> B)
    (l : list A) :
  StronglySorted (fun a b => S (g a) (g b)) l -> StronglySorted S (map g l).
Proof.
  induction 1 as [| a l Hs IH Ha]; cbn [map]; constructor; [exact IH |].
  rewrite Forall_forall in Ha |- *. intros b Hb.
  apply in_map_iff in Hb. destruct Hb as (a' & <- & Ha'). exact (Ha a' Ha').
Qed.

Lemma StronglySorted_on {A : Type} (R S : A -> A -> Prop) (P : A -> Prop)
    (l : list A) :
  (forall a b, P a -> P b -> R a b -> S a b) ->
  Forall P l -> StronglySorted R l -> StronglySorted S l.
Proof.
  intros HRS HP. induction 1 as [| a l Hs IH Ha]; constructor.
  - apply IH. inversion HP; assumption.
  - inversion HP as [| ? ? Pa Pl]; subst.
    rewrite Forall_forall in Ha, Pl |- *. intros b Hb.
    apply HRS; [exact Pa | exact (Pl b Hb) | exact (Ha b Hb)].
Qed.

Lemma filter_map_fst {A B : Type} (f : A -> bool) (g : A -> B) (l : list A) :
  map fst (filter (fun e => f (fst e)) (map (fun a => (a, g a)) l)) = filter f l.
Proof.
  induction l as [| a l IH]; cbn [map filter fst]; [reflexivity |].
  destruct (f a); cbn [map fst]; rewrite IH; reflexivity.
Qed.

Lemma map_body_drawBody (l : list (Planet * R)) :
  map Planets.body (map Planets.drawBody l) = map fst l.
Proof.
  rewrite map_map. apply map_ext. intros e. apply drawBody_body.
Qed.

Lemma drawn_bodies_sorted planets cx cy camera disabledChains :
  fst (Planets.drawPlanets planets cx cy camera disabledChains)
  = map (Planets.advance cx cy camera) planets
  /\ StronglySorted (fun a b => pz b <= pz a)
       (map Planets.body
          (snd (Planets.drawPlanets planets cx cy camera disabledChains)))
  /\ Permutation
       (map Planets.body
          (snd (Planets.drawPlanets planets cx cy camera disabledChains)))
       (filter (enabledBody disabledChains)
          (map (Planets.advance cx cy camera) planets)).
Proof.
  unfold Planets.drawPlanets. cbv zeta. cbn [fst snd].
  set (moved := map (Planets.advance cx cy camera) planets).
  set (entry := fun p : Planet => (p, pz p)).
  set (sorted := JS.sort (fun a b : Planet * R => snd b - snd a) (map entry moved)).
  assert (Hperm : Permutation sorted (map entry moved))
    by apply (sort_permutation (Planet * R) snd).
  assert (Hkey : Forall (fun e : Planet * R => snd e = pz (fst e)) sorted).
  { eapply Permutation_Forall; [apply Permutation_sym, Hperm |].
    apply Forall_forall. intros e He. apply in_map_iff in He.
    destruct He as (p & <- & _). reflexivity. }
  split; [reflexivity |].
  rewrite map_body_drawBody. split.
  - apply StronglySorted_map, StronglySorted_filter.
    apply (StronglySorted_on (fun a b : Planet * R => snd b <= snd a) _
             (fun e => snd e = pz (fst e))).
    + intros a b Ha Hb Hab. rewrite <- Ha, <- Hb. exact Hab.
    + exact Hkey.
    + apply (sort_sorted (Planet * R) snd).
  - change (fun e : Planet * R =>
              negb (has disabledChains (primaryChain (interaction (fst e)))))
      with (fun e : Planet * R => enabledBody disabledChains (fst e)).
    rewrite <- (filter_map_fst (enabledBody disabledChains) pz moved).
    apply Permutation_map, filter_permutation, Hperm.
Qed.

(** X6. One call of [drawPlanets] on any list of bodies moves every body,
    also those of disabled chains, and draws exactly the moved bodies of
    enabled chains, each once, in an order in which the depth never
    increases: no body is drawn before a body that lies farther away. *)
Theorem bodies_drawn_back_to_front :
  forall planets cx cy camera disabledChains,
    fst (Planets.drawPlanets planets cx cy camera disabledChains)
    = map (Planets.advance cx cy camera) planets
    /\ StronglySorted (fun a b => pz b <= pz a)
         (map Planets.body
            (snd (Planets.drawPlanets planets cx cy camera disabledChains)))
    /\ Permutation
         (map Planets.body
            (snd (Planets.drawPlanets planets cx cy camera disabledChains)))
         (filter (enabledBody disabledChains)
            (map (Planets.advance cx cy camera) planets)).
Proof.
  intros. apply drawn_bodies_sorted.
Qed.






(** X8. The depth fade of a drawn body: its alpha is never below 0.4, which
    it reaches from the depth 360 on, and is at most 1 for a body not in
    front of the centre; a body of a size that is not negative is drawn
    with a radius of at least 0.88 times its size; and of two depths the
    greater never gives the greater alpha or radius. *)
Theorem depth_fade_of_bodies :
  forall planet z z',
    let near := Planets.drawBody (planet, z) in
    let far := Planets.drawBody (planet, z') in
    0.4 <= Planets.depthAlpha near
    /\ (360 <= z -> Planets.depthAlpha near = 0.4)
    /\ (0 <= z -> Planets.depthAlpha near <= 1)
    /\ (0 <= size planet -> 0.88 * size planet <= Planets.drawnRadius near)
    /\ (z <= z' ->
        Planets.depthAlpha far <= Planets.depthAlpha near
        /\ (0 <= size planet ->
            Planets.drawnRadius far <= Planets.drawnRadius near)).
Proof.
  intros planet z z' near far. subst near far.
  unfold Planets.drawBody. cbn [Planets.depthAlpha Planets.drawnRadius].
  assert (Hlow : forall d, 0.4 <= Rmax 0.4 (1 - d / 600)) by (intros; apply Rmax_l).
  split; [apply Hlow |].
  split; [intros Hz; apply Rmax_left; lra |].
  split; [intros Hz; apply Rmax_lub; lra |].
  split; [intros Hs; pose proof (Hlow z); nra |].
  intros Hzz.
  assert (Hmono : Rmax 0.4 (1 - z' / 600) <= Rmax 0.4 (1 - z / 600)).
  { apply Rmax_lub; [apply Rmax_l |].
    eapply Rle_trans; [| apply Rmax_r]. lra. }
  split; [exact Hmono |]. intros Hs. nra.
Qed.

Lemma depth_fade_of_bodies_witness :
  360 <= 400
  /\ Planets.depthAlpha (Planets.drawBody (sampleBody 2, 400)) = 0.4.
Proof.
  assert (H : 360 <= 400) by lra.
  split; [exact H |].
  exact (proj1 (proj2 (depth_fade_of_bodies (sampleBody 2) 400 400)) H).
Defined.

(* ================================================================= *)
(** ** More on the drawing of the rings *)

Lemma drawnHas_In (drawn : list Orbits.RingKey) (k : Orbits.RingKey) :
  Orbits.drawnHas drawn k = true <-> In k drawn.
Proof.
  unfold Orbits.drawnHas. rewrite existsb_exists. split.
  - intros (k' & Hin & Heq). apply keyEqb_eq in Heq. subst k'. exact Hin.
  - intros Hin. exists k. split; [exact Hin | apply keyEqb_eq; reflexivity].
Qed.

Lemma map_ringOf_cons planet cx cy camera rings :
  map Orbits.ringOf (Orbits.drawRing planet cx cy camera :: rings)
  = planet :: map Orbits.ringOf rings.
Proof. reflexivity. Qed.

(** The rings drawn from a state [drawn] of the key set: a key gets a ring
    exactly when it is not in the set yet and the first body that carries
    it is enabled; the ring is drawn for that body. *)
Lemma drawOrbitsFrom_spec cx cy camera disabledChains planets :
  forall drawn,
    let owners :=
      map Orbits.ringOf
          (Orbits.drawOrbitsFrom drawn planets cx cy camera disabledChains) in
    NoDup (map Orbits.ringKey owners)
    /\ forall p,
         In p owners <->
         (~ In (Orbits.ringKey p) drawn
          /\ enabledBody disabledChains p = true
          /\ exists before after,
               planets = before ++ p :: after
               /\ forall q, In q before -> Orbits.ringKey q <> Orbits.ringKey p).
Proof.
  induction planets as [| planet rest IH]; intros drawn owners; subst owners.
  - cbn [Orbits.drawOrbitsFrom map]. split; [constructor |].
    intros p. split; [intros [] |].
    intros (_ & _ & before & after & E & _).
    destruct before; discriminate E.
  - cbn [Orbits.drawOrbitsFrom]. cbv zeta.
    assert (Hsplit : forall p (D : list Orbits.RingKey),
      Orbits.ringKey planet <> Orbits.ringKey p ->
      ((exists before after,
          rest = before ++ p :: after
          /\ forall q, In q before -> Orbits.ringKey q <> Orbits.ringKey p)
       <->
       (exists before after,
          planet :: rest = before ++ p :: after
          /\ forall q, In q before -> Orbits.ringKey q <> Orbits.ringKey p))).
    { intros p D Hne. split.
      - intros (before & after & -> & Hb).
        exists (planet :: before), after. split; [reflexivity |].
        intros q [<- | Hq]; [exact Hne | exact (Hb q Hq)].
      - intros (before & after & E & Hb). destruct before as [| b before].
        + cbn [app] in E. injection E as <- _. contradiction Hne; reflexivity.
        + cbn [app] in E. injection E as <- ->.
          exists before, after. split; [reflexivity |].
          intros q Hq. apply Hb. right. exact Hq. }
    destruct (Orbits.drawnHas drawn (Orbits.ringKey planet)) eqn:Hhas.
    + apply drawnHas_In in Hhas.
      destruct (IH drawn) as [Hnd Hiff]. split; [exact Hnd |].
      intros p. rewrite Hiff. split.
      * intros (Hnot & Hen & Hex).
        assert (Hne : Orbits.ringKey planet <> Orbits.ringKey p).
        { intros E. apply Hnot. rewrite <- E. exact Hhas. }
        split; [exact Hnot |]. split; [exact Hen |].
        apply (Hsplit p drawn Hne). exact Hex.
      * intros (Hnot & Hen & Hex).
        assert (Hne : Orbits.ringKey planet <> Orbits.ringKey p).
        { intros E. apply Hnot. rewrite <- E. exact Hhas. }
        split; [exact Hnot |]. split; [exact Hen |].
        apply (Hsplit p drawn Hne). exact Hex.
    + assert (Hnew : ~ In (Orbits.ringKey planet) drawn).
      { intros Hin. apply drawnHas_In in Hin. congruence. }
      destruct (IH (Orbits.ringKey planet :: drawn)) as [Hnd Hiff].
      assert (Hrest : forall p,
        In p (map Orbits.ringOf
                (Orbits.drawOrbitsFrom (Orbits.ringKey planet :: drawn) rest
                   cx cy camera disabledChains)) <->
        (Orbits.ringKey planet <> Orbits.ringKey p
         /\ ~ In (Orbits.ringKey p) drawn
         /\ enabledBody disabledChains p = true
         /\ exists before after,
              planet :: rest = before ++ p :: after
              /\ forall q, In q before -> Orbits.ringKey q <> Orbits.ringKey p)).
      { intros p. rewrite Hiff. cbn [In]. split.
        - intros (Hnot & Hen & Hex).
          assert (Hne : Orbits.ringKey planet <> Orbits.ringKey p) by tauto.
          split; [exact Hne |]. split; [tauto |]. split; [exact Hen |].
          apply (Hsplit p drawn Hne). exact Hex.
        - intros (Hne & Hnot & Hen & Hex).
          split; [tauto |]. split; [exact Hen |].
          apply (Hsplit p drawn Hne). exact Hex. }
      destruct (has disabledChains (primaryChain (interaction planet))) eqn:Hdis.
      * split; [exact Hnd |]. intros p. rewrite Hrest. split.
        -- intros (_ & H). exact H.
        -- intros (Hnot & Hen & Hex). split; [| tauto].
           intros E. destruct Hex as (before & after & Eq & Hb).
           destruct before as [| b before]; cbn [app] in Eq; injection Eq as <- _.
           ++ unfold enabledBody in Hen. rewrite Hdis in Hen. discriminate Hen.
           ++ apply (Hb planet); [left; reflexivity | exact E].
      * rewrite map_ringOf_cons. cbn [map]. split.
        -- constructor; [| exact Hnd].
           intros Hin. apply in_map_iff in Hin. destruct Hin as (p & Ek & Hp).
           apply Hrest in Hp. destruct Hp as (Hne & _). congruence.
        -- intros p. cbn [In]. rewrite Hrest. split.
           ++ intros [<- | (_ & H)]; [| exact H].
              split; [exact Hnew |].
              split; [unfold enabledBody; rewrite Hdis; reflexivity |].
              exists [], rest. split; [reflexivity | intros q []].
           ++ intros (Hnot & Hen & before & after & Eq & Hb).
              destruct before as [| b before]; cbn [app] in Eq.
              ** injection Eq as -> _. left. reflexivity.
              ** injection Eq as <- ->. right.
                 split; [apply Hb; left; reflexivity |].
                 split; [exact Hnot |]. split; [exact Hen |].
                 exists (planet :: before), after. split; [reflexivity | exact Hb].
Qed.

(** X9. The rings [drawOrbits] draws: no two of them have the same key;
    a ring is drawn for a body exactly when the body is on an enabled
    chain and no body before it in the list has its key.  So when the
    first body carrying a key is on a disabled chain, no ring is drawn for
    that key, even for an enabled body that shares it. *)
Theorem rings_drawn_once_per_key :
  forall planets cx cy camera disabledChains,
    let owners :=
      map Orbits.ringOf (Orbits.drawOrbits planets cx cy camera disabledChains) in
    NoDup (map Orbits.ringKey owners)
    /\ (forall p,
          In p owners <->
          (enabledBody disabledChains p = true
           /\ exists before after,
                planets = before ++ p :: after
                /\ forall q, In q before -> Orbits.ringKey q <> Orbits.ringKey p))
    /\ (forall before first after p,
          planets = before ++ first :: after ->
          (forall q, In q before -> Orbits.ringKey q <> Orbits.ringKey first) ->
          enabledBody disabledChains first = false ->
          Orbits.ringKey p = Orbits.ringKey first ->
          ~ In p owners).
Proof.
  intros planets cx cy camera disabledChains owners. subst owners.
  unfold Orbits.drawOrbits.
  destruct (drawOrbitsFrom_spec cx cy camera disabledChains planets []) as [Hnd Hiff].
  cbv zeta in Hnd, Hiff.
  assert (Hchar : forall p,
    In p (map Orbits.ringOf
            (Orbits.drawOrbitsFrom [] planets cx cy camera disabledChains)) <->
    (enabledBody disabledChains p = true
     /\ exists before after,
          planets = before ++ p :: after
          /\ forall q, In q before -> Orbits.ringKey q <> Orbits.ringKey p)).
  { intros p. rewrite Hiff. cbn [In]. tauto. }
  split; [exact Hnd |]. split; [exact Hchar |].
  intros before first after p Hplanets Hfirst Hdis Hkey Hin.
  apply Hchar in Hin. destruct Hin as (Hen & b' & a' & E & Hb').
  rewrite Hplanets in E.
  assert (Hcases : In first b' \/ first = p \/ In p before).
  { clear - E. revert b' E. induction before as [| x before IH]; intros b' E.
    - destruct b' as [| y b']; cbn [app] in E; injection E as E1 E2.
      + right. left. exact E1.
      + left. left. symmetry. exact E1.
    - destruct b' as [| y b']; cbn [app] in E; injection E as E1 E2.
      + right. right. left. exact E1.
      + destruct (IH b' E2) as [H | [H | H]].
        * left. right. exact H.
        * right. left. exact H.
        * right. right. right. exact H. }
  destruct Hcases as [H | [H | H]].
  - exact (Hb' first H (eq_sym Hkey)).
  - subst p. congruence.
  - exact (Hfirst p H Hkey).
Qed.

Lemma rings_drawn_once_per_key_witness :
  let first := bodyOnChain "polygon-mainnet" in
  let second := bodyOnChain "matic-mainnet" in
  enabledBody ["polygon-mainnet"%string] first = false
  /\ enabledBody ["polygon-mainnet"%string] second = true
  /\ Orbits.ringKey second = Orbits.ringKey first
  /\ ~ In second
         (map Orbits.ringOf
            (Orbits.drawOrbits [first; second] 0 0 initialCamera
               ["polygon-mainnet"%string])).
Proof.
  intros first second.
  split; [reflexivity |]. split; [reflexivity |]. split; [reflexivity |].
  apply (proj2 (proj2 (rings_drawn_once_per_key [first; second] 0 0 initialCamera
                         ["polygon-mainnet"%string]))
           [] first [second] second eq_refl).
  - intros q [].
  - reflexivity.
  - reflexivity.
Defined.

(* ================================================================= *)
(** ** More on the creation of the ships *)

Lemma activation_range getTime range planet :
  0 <= Ships.activation getTime range planet <= 1.
Proof.
  unfold Ships.activation. destruct range as [[start end_] |]; [| lra].
  cbv zeta. destruct (JS.gtb (end_ - start) 0); [| lra].
  split; [apply Rmax_l |]. apply Rmax_lub; [lra | apply Rmin_l].
Qed.

Lemma createShipsFrom_In rand getTime cx cy range planets :
  forall k ship,
    In ship (Ships.createShipsFrom rand k getTime planets cx cy range) ->
    exists planet k',
      In planet planets
      /\ In ship (Ships.shipsOf rand k' getTime cx cy range planet).
Proof.
  induction planets as [| planet rest IH]; intros k ship Hin;
    cbn [Ships.createShipsFrom] in Hin; [destruct Hin |].
  cbv zeta in Hin. apply in_app_or in Hin. destruct Hin as [Hin | Hin].
  - exists planet, k. split; [left; reflexivity | exact Hin].
  - destruct (IH _ _ Hin) as (p & k' & Hp & Hs).
    exists p, k'. split; [right; exact Hp | exact Hs].
Qed.

(** X10. Every ship [createShips] makes belongs to one of the bodies: it
    is on the chain of that body, joins the centre and the stored position
    of that body (from the centre when outbound, to the centre when
    inbound), has an empty trail and an activation time in [0, 1]; a body
    nothing was sent to has no outbound ship, and one nothing was received
    from no inbound ship.  When [Math.random] stays in [0, 1), its
    progress starts in [0, 1) and its speed lies in [0.003, 0.007). *)
Theorem ships_belong_to_bodies :
  forall rand k getTime planets cx cy range ship,
    In ship (Ships.createShips rand k getTime planets cx cy range) ->
    exists planet,
      In planet planets
      /\ trail ship = []
      /\ chain ship = primaryChain (interaction planet)
      /\ 0 <= activationTime ship <= 1
      /\ match direction ship with
         | outbound =>
             (fromX ship, fromY ship) = (cx, cy)
             /\ (toX ship, toY ship) = (px planet, py planet)
             /\ (0 < sentCount (interaction planet))%nat
         | inbound =>
             (fromX ship, fromY ship) = (px planet, py planet)
             /\ (toX ship, toY ship) = (cx, cy)
             /\ (0 < receivedCount (interaction planet))%nat
         end
      /\ ((forall j, 0 <= rand j < 1) ->
          0 <= progress ship < 1 /\ 0.003 <= speed ship < 0.007).
Proof.
  intros rand k getTime planets cx cy range ship Hin.
  unfold Ships.createShips in Hin.
  destruct (createShipsFrom_In _ _ _ _ _ _ _ _ Hin) as (planet & k' & Hp & Hs).
  destruct (shipsOf_In _ _ _ _ _ _ _ _ Hs)
    as (Htrail & Hchain & Hact & (j & Hprog & Hspeed) & Hends).
  exists planet. split; [exact Hp |]. split; [exact Htrail |].
  split; [exact Hchain |].
  split; [rewrite Hact; apply activation_range |].
  split; [exact Hends |].
  intros Hrand. rewrite Hprog, Hspeed.
  pose proof (Hrand j). pose proof (Hrand (S j)). split; lra.
Qed.

Lemma ships_belong_to_bodies_witness :
  let planets := [bodyAt 10 0 2 0; bodyAt 0 20 1 0] in
  let ships := Ships.createShips (fun _ => / 2) 0 (fun _ => 0) planets 0 0 None in
  let ship := {| fromX := 0; fromY := 0; toX := 0; toY := 20;
                 progress := / 2; speed := 0.003 + / 2 * 0.004;
                 shipColor := "#ff9944"; trail := [];
                 direction := outbound; chain := "eth-mainnet";
                 activationTime := 0 |} in
  In ship ships
  /\ (forall j : nat, 0 <= (fun _ : nat => / 2) j < 1)
  /\ 0.003 <= speed ship < 0.007.
Proof.
  intros planets ships ship.
  assert (Hin : In ship ships) by (right; right; left; reflexivity).
  assert (Hrand : forall j : nat, 0 <= (fun _ : nat => / 2) j < 1)
    by (intros j; cbv beta; lra).
  split; [exact Hin |]. split; [exact Hrand |].
  destruct (ships_belong_to_bodies (fun _ => / 2) 0 (fun _ => 0) planets 0 0 None
              ship Hin) as (planet & _ & _ & _ & _ & _ & Hbounds).
  exact (proj2 (Hbounds Hrand)).
Defined.

Lemma activation_cases getTime start end_ planet planet' :
  let act := Ships.activation getTime (Some (start, end_)) in
  (end_ <= start -> act planet = 0)
  /\ (start < end_ ->
      (getTime (firstInteraction (interaction planet)) <= start -> act planet = 0)
      /\ (end_ <= getTime (firstInteraction (interaction planet)) -> act planet = 1)
      /\ (start <= getTime (firstInteraction (interaction planet)) <= end_ ->
          act planet
          = (getTime (firstInteraction (interaction planet)) - start)
            / (end_ - start))
      /\ (getTime (firstInteraction (interaction planet))
          <= getTime (firstInteraction (interaction planet')) ->
          act planet <= act planet')).
Proof.
  cbv zeta. unfold Ships.activation. split.
  - intros H. rewrite gtb_false by lra. reflexivity.
  - intros H. rewrite gtb_true by lra.
    set (t := getTime (firstInteraction (interaction planet))).
    set (t' := getTime (firstInteraction (interaction planet'))).
    assert (Hd : 0 < / (end_ - start)) by (apply Rinv_0_lt_compat; lra).
    assert (Hone : (end_ - start) * / (end_ - start) = 1) by (apply Rinv_r; lra).
    unfold Rdiv. repeat split.
    + intros Ht. apply Rmax_left. eapply Rle_trans; [apply Rmin_r |]. nra.
    + intros Ht. rewrite Rmin_left by nra. apply Rmax_right. lra.
    + intros Ht. rewrite Rmin_right by nra. apply Rmax_right. nra.
    + intros Ht. apply Rmax_lub; [apply Rmax_l |].
      eapply Rle_trans; [| apply Rmax_r].
      apply Rmin_glb; [apply Rmin_l |].
      eapply Rle_trans; [apply Rmin_r |]. nra.
Qed.

(** X11. The activation time of the ships of a body: 0 without a timeline
    range and for a range that is empty or reversed; in a proper range it
    is the place of the body's first interaction in the range, 0 before
    its start and 1 after its end, so a body that was met later never has
    ships that activate earlier. *)
Theorem activation_follows_first_interaction :
  forall getTime start end_ planet planet',
    Ships.activation getTime None planet = 0
    /\ (end_ <= start -> Ships.activation getTime (Some (start, end_)) planet = 0)
    /\ (start < end_ ->
        (getTime (firstInteraction (interaction planet)) <= start ->
         Ships.activation getTime (Some (start, end_)) planet = 0)
        /\ (end_ <= getTime (firstInteraction (interaction planet)) ->
            Ships.activation getTime (Some (start, end_)) planet = 1)
        /\ (start <= getTime (firstInteraction (interaction planet)) <= end_ ->
            Ships.activation getTime (Some (start, end_)) planet
            = (getTime (firstInteraction (interaction planet)) - start)
              / (end_ - start))
        /\ (getTime (firstInteraction (interaction planet))
            <= getTime (firstInteraction (interaction planet')) ->
            Ships.activation getTime (Some (start, end_)) planet
            <= Ships.activation getTime (Some (start, end_)) planet')).
Proof.
  intros getTime start end_ planet planet'.
  split; [reflexivity |].
  exact (activation_cases getTime start end_ planet planet').
Qed.

Lemma activation_follows_first_interaction_witness :
  0 < 100
  /\ 0 <= (fun _ : string => 25) (firstInteraction (interaction (sampleBody 1))) <= 100
  /\ Ships.activation (fun _ => 25) (Some (0, 100)) (sampleBody 1) = (25 - 0) / (100 - 0).
Proof.
  assert (H1 : 0 < 100) by lra.
  assert (H2 : 0 <= (fun _ : string => 25)
                      (firstInteraction (interaction (sampleBody 1))) <= 100)
    by (cbv beta; lra).
  split; [exact H1 |]. split; [exact H2 |].
  exact (proj1 (proj2 (proj2
           (proj2 (proj2 (activation_follows_first_interaction
                            (fun _ => 25) 0 100 (sampleBody 1) (sampleBody 1)))
                  H1))) H2).
Defined.

(* ================================================================= *)
(** ** More on the update of the ships *)

Lemma updateLoop_length planets cx cy trailsEnabled ships :
  forall k,
    List.length (Ships.updateLoop planets cx cy trailsEnabled k ships)
    = List.length ships.
Proof.
  induction ships as [| ship rest IH]; intros k; cbn [Ships.updateLoop List.length];
    [reflexivity | rewrite IH; reflexivity].
Qed.

Lemma reassociateFrom_length planets cx cy ships :
  forall outIdx inIdx,
    List.length (Ships.reassociateFrom outIdx inIdx ships planets cx cy)
    = List.length ships.
Proof.
  induction ships as [| ship rest IH]; intros outIdx inIdx;
    cbn [Ships.reassociateFrom List.length]; [reflexivity |].
  destruct (direction ship); cbn [List.length]; rewrite IH; reflexivity.
Qed.

Lemma updateShips_length ships planets cx cy trailsEnabled :
  List.length (Ships.updateShips ships planets cx cy trailsEnabled)
  = List.length ships.
Proof.
  unfold Ships.updateShips, Ships.reassociateShips.
  rewrite reassociateFrom_length. apply updateLoop_length.
Qed.

(** The ship of index [i] after an update: the loop body applied to the
    ship, then attached to some body or left alone. *)
Lemma updateShips_nth ships planets cx cy trailsEnabled i :
  nth_error (Ships.updateShips ships planets cx cy trailsEnabled) i
  = match nth_error ships i with
    | None => None
    | Some ship =>
        let stepped := Ships.updateShip planets cx cy trailsEnabled i ship in
        Some (Ships.attach stepped
                (Ships.planetAt planets
                   (List.length
                      (filter (match direction ship with
                               | outbound => isOutbound
                               | inbound => isInbound
                               end)
                              (firstn i
                                 (Ships.updateLoop planets cx cy trailsEnabled 0
                                    ships)))))
                cx cy)
    end.
Proof.
  unfold Ships.updateShips, Ships.reassociateShips.
  pose proof (updateLoop_nth planets cx cy trailsEnabled ships 0%nat i) as Hloop.
  cbn [Nat.add] in Hloop.
  destruct (nth_error ships i) as [ship |] eqn:Hi; cbn [option_map] in Hloop.
  - rewrite (reassociateFrom_follows_rank planets cx cy _ 0%nat 0%nat i _ Hloop).
    cbv zeta.
    assert (Hdir : direction (Ships.updateShip planets cx cy trailsEnabled i ship)
                   = direction ship).
    { unfold Ships.updateShip. cbv zeta. cbn [direction]. apply attach_direction. }
    rewrite Hdir. destruct (direction ship); reflexivity.
  - apply nth_error_None. rewrite reassociateFrom_length.
    apply nth_error_None. exact Hloop.
Qed.

Lemma planetAt_In planets idx :
  planets <> [] -> exists body, Ships.planetAt planets idx = Some body /\ In body planets.
Proof.
  intros Hne. unfold Ships.planetAt.
  destruct planets as [| p rest]; [contradiction |].
  assert (Hlt : (idx mod List.length (p :: rest) < List.length (p :: rest))%nat).
  { apply Nat.mod_upper_bound. cbn [List.length]. lia. }
  destruct (nth_error (p :: rest) (idx mod List.length (p :: rest))) as [body |] eqn:E.
  - exists body. split; [reflexivity | exact (nth_error_In _ _ E)].
  - apply nth_error_None in E. lia.
Qed.

Lemma attach_keeps ship planet cx cy :
  let ship' := Ships.attach ship planet cx cy in
  speed ship' = speed ship
  /\ chain ship' = chain ship
  /\ activationTime ship' = activationTime ship
  /\ shipColor ship' = shipColor ship.
Proof.
  cbv zeta. unfold Ships.attach. destruct planet as [planet |]; [| tauto].
  destruct (direction ship); cbn; tauto.
Qed.

Lemma attach_ends ship body cx cy :
  match direction ship with
  | outbound =>
      (fromX (Ships.attach ship (Some body) cx cy),
       fromY (Ships.attach ship (Some body) cx cy)) = (cx, cy)
      /\ (toX (Ships.attach ship (Some body) cx cy),
          toY (Ships.attach ship (Some body) cx cy)) = (px body, py body)
  | inbound =>
      (fromX (Ships.attach ship (Some body) cx cy),
       fromY (Ships.attach ship (Some body) cx cy)) = (px body, py body)
      /\ (toX (Ships.attach ship (Some body) cx cy),
          toY (Ships.attach ship (Some body) cx cy)) = (cx, cy)
  end.
Proof.
  unfold Ships.attach. destruct (direction ship); cbn; split; reflexivity.
Qed.

Lemma updateShip_keeps planets cx cy trailsEnabled idx ship :
  let ship' := Ships.updateShip planets cx cy trailsEnabled idx ship in
  direction ship' = direction ship
  /\ speed ship' = speed ship
  /\ chain ship' = chain ship
  /\ activationTime ship' = activationTime ship
  /\ shipColor ship' = shipColor ship
  /\ progress ship'
     = (if JS.gtb (progress ship + speed ship) 1 then 0
        else progress ship + speed ship)
  /\ (fromX ship', fromY ship', toX ship', toY ship')
     = (fromX (Ships.attach ship (Ships.planetAt planets idx) cx cy),
        fromY (Ships.attach ship (Ships.planetAt planets idx) cx cy),
        toX (Ships.attach ship (Ships.planetAt planets idx) cx cy),
        toY (Ships.attach ship (Ships.planetAt planets idx) cx cy)).
Proof.
  cbv zeta. unfold Ships.updateShip. cbv zeta.
  cbn [direction speed chain activationTime shipColor progress fromX fromY toX toY].
  pose proof (attach_keeps ship (Ships.planetAt planets idx) cx cy) as K.
  cbv zeta in K. destruct K as (K1 & K2 & K3 & K4).
  rewrite attach_direction. repeat split; assumption.
Qed.

Lemma updateShips_step ships planets cx cy trailsEnabled i ship :
  nth_error ships i = Some ship ->
  exists ship',
    nth_error (Ships.updateShips ships planets cx cy trailsEnabled) i = Some ship'
    /\ direction ship' = direction ship
    /\ speed ship' = speed ship
    /\ chain ship' = chain ship
    /\ activationTime ship' = activationTime ship
    /\ progress ship' <= 1
    /\ (progress ship + speed ship <= 1 ->
        progress ship' = progress ship + speed ship)
    /\ (1 < progress ship + speed ship -> progress ship' = 0)
    /\ (planets = [] ->
        (fromX ship', fromY ship', toX ship', toY ship')
        = (fromX ship, fromY ship, toX ship, toY ship))
    /\ (planets <> [] ->
        exists body,
          In body planets
          /\ match direction ship with
             | outbound =>
                 (fromX ship', fromY ship') = (cx, cy)
                 /\ (toX ship', toY ship') = (px body, py body)
             | inbound =>
                 (fromX ship', fromY ship') = (px body, py body)
                 /\ (toX ship', toY ship') = (cx, cy)
             end).
Proof.
  intros Hi. rewrite updateShips_nth, Hi. cbv zeta.
  set (stepped := Ships.updateShip planets cx cy trailsEnabled i ship).
  set (rank := List.length _).
  pose proof (updateShip_keeps planets cx cy trailsEnabled i ship) as K.
  cbv zeta in K. fold stepped in K.
  destruct K as (Kd & Ks & Kc & Ka & _ & Kp & Ke).
  pose proof (attach_keeps stepped (Ships.planetAt planets rank) cx cy) as A.
  cbv zeta in A. destruct A as (As & Ac & Aa & _).
  eexists. split; [reflexivity |].
  rewrite attach_direction, attach_progress, As, Ac, Aa.
  split; [exact Kd |]. split; [exact Ks |]. split; [exact Kc |].
  split; [exact Ka |].
  split.
  { rewrite Kp. unfold JS.gtb, JS.ltb.
    destruct (Rlt_dec 1 (progress ship + speed ship)); lra. }
  split; [intros H; rewrite Kp, gtb_false by lra; reflexivity |].
  split; [intros H; rewrite Kp, gtb_true by lra; reflexivity |].
  split.
  - intros ->. cbn [Ships.planetAt Ships.attach].
    rewrite Ke. reflexivity.
  - intros Hne. destruct (planetAt_In planets rank Hne) as (body & -> & Hbody).
    exists body. split; [exact Hbody |].
    pose proof (attach_ends stepped body cx cy) as E.
    rewrite Kd in E. exact E.
Qed.

(** X12. One update step keeps the number of ships and, of every ship, the
    direction, the speed, the chain and the activation time.  The progress
    grows by the speed, or restarts at 0 once it would pass 1, so it never
    exceeds 1.  With no body in the scene the endpoints are left as they
    are; otherwise the ship joins the centre and the current position of
    one of the bodies, from the centre when outbound and to the centre
    when inbound. *)
Theorem ship_update_step :
  forall ships planets cx cy trailsEnabled,
    List.length (Ships.updateShips ships planets cx cy trailsEnabled)
    = List.length ships
    /\ forall i ship,
         nth_error ships i = Some ship ->
         exists ship',
           nth_error (Ships.updateShips ships planets cx cy trailsEnabled) i
           = Some ship'
           /\ direction ship' = direction ship
           /\ speed ship' = speed ship
           /\ chain ship' = chain ship
           /\ activationTime ship' = activationTime ship
           /\ progress ship' <= 1
           /\ (progress ship + speed ship <= 1 ->
               progress ship' = progress ship + speed ship)
           /\ (1 < progress ship + speed ship -> progress ship' = 0)
           /\ (planets = [] ->
               (fromX ship', fromY ship', toX ship', toY ship')
               = (fromX ship, fromY ship, toX ship, toY ship))
           /\ (planets <> [] ->
               exists body,
                 In body planets
                 /\ match direction ship with
                    | outbound =>
                        (fromX ship', fromY ship') = (cx, cy)
                        /\ (toX ship', toY ship') = (px body, py body)
                    | inbound =>
                        (fromX ship', fromY ship') = (px body, py body)
                        /\ (toX ship', toY ship') = (cx, cy)
                    end).
Proof.
  intros ships planets cx cy trailsEnabled.
  split; [apply updateShips_length |].
  intros i ship Hi. exact (updateShips_step ships planets cx cy trailsEnabled i ship Hi).
Qed.

Lemma ship_update_step_witness :
  nth_error [sampleShip] 0 = Some sampleShip
  /\ exists ship',
       nth_error (Ships.updateShips [sampleShip] [] 0 0 true) 0 = Some ship'
       /\ (fromX ship', fromY ship', toX ship', toY ship') = (0, 0, 100, 0)
       /\ progress ship' = 0.
Proof.
  split; [reflexivity |].
  destruct (proj2 (ship_update_step [sampleShip] [] 0 0 true) 0%nat sampleShip eq_refl)
    as (ship' & Hnth & _ & _ & _ & _ & _ & _ & Hwrap & Hempty & _).
  exists ship'. split; [exact Hnth |]. split; [exact (Hempty eq_refl) |].
  apply Hwrap. cbn [progress speed sampleShip]. lra.
Defined.

(* ================================================================= *)
(** ** The trails *)

Lemma aged_weaken (l : list TrailPoint) :
  forall k, aged (S k) l -> aged k l.
Proof.
  induction l as [| p l IH]; intros k H; cbn [aged] in *; [exact I |].
  destruct H as [[Hpos Hle] Hrest]. rewrite S_INR in Hle.
  split; [split; [exact Hpos | pose proof (pos_INR k); lra] | apply IH, Hrest].
Qed.

Lemma aged_fade (l : list TrailPoint) :
  forall k,
    aged k l ->
    aged (S k) (filter (fun p => JS.gtb (alpha p) 0) (map Ships.fade l)).
Proof.
  induction l as [| p l IH]; intros k H; cbn [map filter aged]; [exact I |].
  cbn [aged] in H. destruct H as [[Hpos Hle] Hrest].
  unfold Ships.fade at 1. cbn [alpha].
  destruct (Rlt_dec 0 (alpha p - 0.03)) as [Hkeep | Hdrop].
  - rewrite (gtb_true _ _ Hkeep). cbn [aged alpha Ships.fade].
    split; [split; [exact Hkeep | rewrite S_INR; lra] | apply IH, Hrest].
  - rewrite gtb_false by lra. apply aged_weaken, IH, Hrest.
Qed.

Lemma aged_bound (l : list TrailPoint) :
  forall k, aged k l -> l <> [] -> 0.03 * INR (k + List.length l - 1) < 1.
Proof.
  induction l as [| p l IH]; intros k H Hne; [contradiction |].
  cbn [aged] in H. destruct H as [[Hpos Hle] Hrest].
  destruct l as [| q l].
  - cbn [List.length]. replace (k + 1 - 1)%nat with k by lia. lra.
  - replace (k + List.length (p :: q :: l) - 1)%nat
      with (S k + List.length (q :: l) - 1)%nat by (cbn [List.length]; lia).
    apply IH; [exact Hrest | discriminate].
Qed.

Lemma aged_alphas (l : list TrailPoint) :
  forall k, aged k l -> Forall (fun p => 0 < alpha p <= 1) l.
Proof.
  induction l as [| p l IH]; intros k H; constructor; cbn [aged] in H.
  - destruct H as [[Hpos Hle] _]. pose proof (pos_INR k). lra.
  - apply (IH (S k)), H.
Qed.

Lemma wellAged_short ship :
  wellAged ship ->
  (List.length (trail ship) <= 34)%nat
  /\ Forall (fun p => 0 < alpha p <= 1) (trail ship).
Proof.
  unfold wellAged. intros H. split.
  - destruct (trail ship) as [| p l] eqn:E; [cbn; lia |].
    rewrite <- E in *. rewrite <- length_rev.
    assert (Hne : rev (trail ship) <> []).
    { intros Hnil. apply (f_equal (@List.length _)) in Hnil.
      rewrite length_rev, E in Hnil. discriminate Hnil. }
    pose proof (aged_bound _ 0%nat H Hne) as Hb. cbn [Nat.add] in Hb.
    assert (Hlt : INR (List.length (rev (trail ship)) - 1) < INR 34).
    { replace (INR 34) with 34 by (cbn [INR]; lra). lra. }
    apply INR_lt in Hlt. lia.
  - rewrite <- (rev_involutive (trail ship)). apply Forall_rev.
    exact (aged_alphas _ 0%nat H).
Qed.

Lemma updateShip_trail planets cx cy trailsEnabled idx ship :
  let ship' := Ships.updateShip planets cx cy trailsEnabled idx ship in
  (wellAged ship -> wellAged ship')
  /\ (exists older,
        trail ship'
        = older ++ [ {| tx := fst (pathPoint ship'); ty := snd (pathPoint ship');
                        alpha := if trailsEnabled then 1 - 0.03 else 1 |} ]
        /\ (trailsEnabled = false -> older = [])).
Proof.
  cbv zeta. unfold Ships.updateShip. cbv zeta.
  set (wrapped := JS.gtb (progress ship + speed ship) 1).
  set (start := Ships.attach ship (Ships.planetAt planets idx) cx cy).
  set (t := if wrapped then 0 else progress ship + speed ship).
  set (old := if wrapped then [] else trail ship).
  unfold wellAged, pathPoint.
  cbn [trail progress fromX fromY toX toY fst snd].
  set (head := {| tx := _; ty := _; alpha := 1 |}).
  destruct trailsEnabled.
  - rewrite map_app, filter_app. cbn [map filter Ships.fade alpha tx ty head].
    rewrite gtb_true by lra. split.
    + intros Hold. rewrite rev_app_distr. cbn [rev app aged].
      split; [unfold Ships.fade, head; cbn [alpha INR]; lra |].
      rewrite <- filter_rev, <- map_rev. apply aged_fade.
      subst old. destruct wrapped; [exact I | exact Hold].
    + eexists. split; [| discriminate].
      apply f_equal. apply (f_equal (fun p => [p])).
      subst head. cbn [tx ty]. reflexivity.
  - split.
    + intros _. cbn [rev app aged alpha head]. split; [cbn [INR]; lra | exact I].
    + exists []. split; [| reflexivity]. reflexivity.
Qed.

Lemma updateShips_In ships planets cx cy trailsEnabled ship' :
  In ship' (Ships.updateShips ships planets cx cy trailsEnabled) ->
  exists i ship body,
    nth_error ships i = Some ship
    /\ ship' = Ships.attach (Ships.updateShip planets cx cy trailsEnabled i ship)
                 body cx cy.
Proof.
  intros Hin. apply In_nth_error in Hin. destruct Hin as [i Hi].
  rewrite updateShips_nth in Hi.
  destruct (nth_error ships i) as [ship |] eqn:E; [| discriminate Hi].
  cbv zeta in Hi. injection Hi as <-.
  eexists i, ship, _. split; [exact E | reflexivity].
Qed.

Lemma updateShips_wellAged ships planets cx cy trailsEnabled :
  Forall wellAged ships ->
  Forall wellAged (Ships.updateShips ships planets cx cy trailsEnabled).
Proof.
  intros Hall. apply Forall_forall. intros ship' Hin.
  destruct (updateShips_In _ _ _ _ _ _ Hin) as (i & ship & body & Hi & ->).
  unfold wellAged. rewrite attach_trail.
  apply (proj1 (updateShip_trail planets cx cy trailsEnabled i ship)).
  rewrite Forall_forall in Hall. exact (Hall ship (nth_error_In _ _ Hi)).
Qed.

Lemma createShips_wellAged rand k getTime planets cx cy range :
  Forall wellAged (Ships.createShips rand k getTime planets cx cy range).
Proof.
  apply Forall_forall. intros ship Hin. unfold Ships.createShips in Hin.
  destruct (createShipsFrom_In _ _ _ _ _ _ _ _ Hin) as (planet & k' & _ & Hs).
  destruct (shipsOf_In _ _ _ _ _ _ _ _ Hs) as (Htrail & _).
  unfold wellAged. rewrite Htrail. exact I.
Qed.

Lemma frames_wellAged cx cy frames :
  forall ships,
    Forall wellAged ships ->
    Forall wellAged
      (fold_left (fun fleet (frame : list Planet * bool) =>
                    Ships.updateShips fleet (fst frame) cx cy (snd frame))
                 frames ships).
Proof.
  induction frames as [| frame rest IH]; intros ships H; cbn [fold_left];
    [exact H |].
  apply IH, updateShips_wellAged, H.
Qed.

(** X13. The trails stay short.  From the ships [createShips] makes, after
    any run of update steps, whatever the bodies and the trails switch of
    each step, every trail holds at most 34 points, each with an alpha
    above 0 and at most 1. *)
Theorem trails_stay_short :
  forall rand k getTime planets cx cy range frames ship,
    In ship
       (fold_left (fun fleet (frame : list Planet * bool) =>
                     Ships.updateShips fleet (fst frame) cx cy (snd frame))
                  frames
                  (Ships.createShips rand k getTime planets cx cy range)) ->
    (List.length (trail ship) <= 34)%nat
    /\ Forall (fun p => 0 < alpha p <= 1) (trail ship).
Proof.
  intros rand k getTime planets cx cy range frames ship Hin.
  apply wellAged_short.
  pose proof (frames_wellAged cx cy frames _
                (createShips_wellAged rand k getTime planets cx cy range)) as H.
  rewrite Forall_forall in H. exact (H ship Hin).
Qed.

Lemma trails_stay_short_witness :
  let fleet := Ships.createShips (fun _ => / 2) 0 (fun _ => 0)
                 [bodyAt 10 0 1 0] 0 0 None in
  exists ship,
    In ship (fold_left (fun fleet (frame : list Planet * bool) =>
                          Ships.updateShips fleet (fst frame) 0 0 (snd frame))
                       [([bodyAt 10 0 1 0], true)] fleet)
    /\ (List.length (trail ship) <= 34)%nat.
Proof.
  intros fleet.
  destruct (updateShips_step fleet [bodyAt 10 0 1 0] 0 0 true 0%nat
              {| fromX := 0; fromY := 0; toX := 10; toY := 0;
                 progress := / 2; speed := 0.003 + / 2 * 0.004;
                 shipColor := "#ff9944"; trail := [];
                 direction := outbound; chain := "eth-mainnet";
                 activationTime := 0 |} eq_refl) as (ship & Hnth & _).
  assert (Hin : In ship (fold_left (fun fleet (frame : list Planet * bool) =>
                          Ships.updateShips fleet (fst frame) 0 0 (snd frame))
                       [([bodyAt 10 0 1 0], true)] fleet))
    by exact (nth_error_In _ _ Hnth).
  exists ship. split; [exact Hin |].
  exact (proj1 (trails_stay_short (fun _ => / 2) 0%nat (fun _ => 0)
                  [bodyAt 10 0 1 0] 0 0 None [([bodyAt 10 0 1 0], true)] ship Hin)).
Defined.

(* ================================================================= *)
(** ** The drawing of the ships *)

Lemma drawShips_shown ships disabledChains trailsEnabled timelineProgress :
  ShipsView.drawShips ships disabledChains trailsEnabled timelineProgress
  = map (ShipsView.drawShip trailsEnabled)
        (filter (shown disabledChains timelineProgress) ships).
Proof.
  induction ships as [| ship rest IH]; cbn [ShipsView.drawShips filter map];
    [reflexivity |].
  unfold shown at 1.
  destruct (has disabledChains (chain ship)); cbn [negb andb]; [exact IH |].
  destruct timelineProgress as [progressNow |].
  - destruct (JS.ltb progressNow (activationTime ship)); cbn [negb map];
      rewrite IH; reflexivity.
  - cbn [map]. rewrite IH. reflexivity.
Qed.

Lemma headPoint_last ship older head :
  trail ship = older ++ [head] -> ShipsView.headPoint ship = Some head.
Proof.
  intros E. unfold ShipsView.headPoint. rewrite E, length_app.
  cbn [List.length].
  replace (List.length older + 1 - 1)%nat with (List.length older) by lia.
  replace (0 <? List.length older + 1)%nat with true
    by (symmetry; apply Nat.ltb_lt; lia).
  rewrite nth_error_app2 by lia. rewrite Nat.sub_diag. reflexivity.
Qed.

Lemma updated_ship_head ships planets cx cy trailsEnabled ship' :
  In ship' (Ships.updateShips ships planets cx cy trailsEnabled) ->
  exists i ship head,
    nth_error ships i = Some ship
    /\ ShipsView.headPoint ship' = Some head
    /\ (tx head, ty head)
       = pathPoint (Ships.updateShip planets cx cy trailsEnabled i ship)
    /\ alpha head = (if trailsEnabled then 1 - 0.03 else 1)
    /\ (trailsEnabled = false -> trail ship' = [head]).
Proof.
  intros Hin.
  destruct (updateShips_In _ _ _ _ _ _ Hin) as (i & ship & body & Hi & ->).
  destruct (proj2 (updateShip_trail planets cx cy trailsEnabled i ship))
    as (older & Htrail & Hoff).
  eexists i, ship, _. split; [exact Hi |].
  split.
  { apply (headPoint_last _ older). rewrite attach_trail. exact Htrail. }
  cbn [tx ty alpha].
  split; [destruct (pathPoint _); reflexivity |].
  split; [reflexivity |].
  intros Hte. rewrite attach_trail, Htrail, (Hoff Hte). reflexivity.
Qed.

(** X14. What is drawn of the ships after an update step: exactly the ships
    that are on an enabled chain and, under a timeline, have reached their
    activation time, in their order.  Each of them gets its two head dots,
    at the point of its curved path that the step has just recorded, the
    last point of its trail.  With trails off no trail dot is drawn and
    the trail is that one point, of alpha 1; with trails on there is one
    dot per trail point. *)
Theorem ships_drawn_after_update :
  forall ships planets cx cy trailsEnabled disabledChains timelineProgress,
    let fleet := Ships.updateShips ships planets cx cy trailsEnabled in
    let drawn := ShipsView.drawShips fleet disabledChains trailsEnabled
                   timelineProgress in
    map ShipsView.drawnShip drawn = filter (shown disabledChains timelineProgress) fleet
    /\ forall d,
         In d drawn ->
         exists i ship head,
           nth_error ships i = Some ship
           /\ (tx head, ty head)
              = pathPoint (Ships.updateShip planets cx cy trailsEnabled i ship)
           /\ ShipsView.headDots d
              = [ {| ShipsView.dotX := tx head; ShipsView.dotY := ty head;
                     ShipsView.dotRadius := 3; ShipsView.dotAlpha := 0.6 |};
                  {| ShipsView.dotX := tx head; ShipsView.dotY := ty head;
                     ShipsView.dotRadius := 1; ShipsView.dotAlpha := 1 |} ]
           /\ (trailsEnabled = false ->
               ShipsView.trailDots d = []
               /\ trail (ShipsView.drawnShip d) = [head]
               /\ alpha head = 1)
           /\ (trailsEnabled = true ->
               List.length (ShipsView.trailDots d)
               = List.length (trail (ShipsView.drawnShip d))).
Proof.
  intros ships planets cx cy trailsEnabled disabledChains timelineProgress
         fleet drawn.
  subst drawn. rewrite drawShips_shown. split.
  - rewrite map_map. cbn [ShipsView.drawnShip ShipsView.drawShip]. apply map_id.
  - intros d Hd. apply in_map_iff in Hd. destruct Hd as (ship' & <- & Hs).
    apply filter_In in Hs. destruct Hs as [Hin _].
    destruct (updated_ship_head _ _ _ _ _ _ Hin)
      as (i & ship & head & Hi & Hhead & Hpt & Halpha & Hoff).
    exists i, ship, head. split; [exact Hi |]. split; [exact Hpt |].
    cbn [ShipsView.headDots ShipsView.trailDots ShipsView.drawnShip
         ShipsView.drawShip].
    rewrite Hhead. split; [reflexivity |]. split.
    + intros ->. split; [reflexivity |]. split; [exact (Hoff eq_refl) | exact Halpha].
    + intros ->. apply length_map.
Qed.

Lemma ships_drawn_after_update_witness :
  let fleet := Ships.updateShips [sampleShip] [bodyAt 30 40 1 0] 0 0 false in
  exists d, In d (ShipsView.drawShips fleet [] false None)
            /\ ShipsView.trailDots d = []
            /\ List.length (ShipsView.headDots d) = 2%nat.
Proof.
  intros fleet.
  destruct (updateShips_step [sampleShip] [bodyAt 30 40 1 0] 0 0 false 0%nat
              sampleShip eq_refl) as (ship' & Hnth & _).
  assert (Hfleet : fleet = [ship']).
  { pose proof (updateShips_length [sampleShip] [bodyAt 30 40 1 0] 0 0 false) as Hl.
    fold fleet in Hl, Hnth. destruct fleet as [| s [| s2 rest]]; try discriminate Hl.
    cbn [nth_error] in Hnth. injection Hnth as ->. reflexivity. }
  assert (Hin : In (ShipsView.drawShip false ship')
                   (ShipsView.drawShips fleet [] false None)).
  { rewrite Hfleet. left. reflexivity. }
  exists (ShipsView.drawShip false ship'). split; [exact Hin |].
  destruct (proj2 (ships_drawn_after_update [sampleShip] [bodyAt 30 40 1 0] 0 0
                     false [] None) _ Hin)
    as (i & ship & head & _ & _ & Hdots & Hoff & _).
  split; [exact (proj1 (Hoff eq_refl)) |].
  rewrite Hdots. reflexivity.
Defined.

(* ================================================================= *)
(** ** More on the zoom and the pointer *)

(** X15. One notch of the wheel: a negative [deltaY] multiplies the zoom by
    1.08, any other [deltaY], 0 included, by [1 / 1.08], as long as the
    product stays in [0.3, 8]; beyond, the zoom is 8, respectively 0.3.  A
    notch in raises every zoom of [0.3, 8) and a notch out lowers every
    zoom of (0.3, 8]; and of two zooms the greater never becomes the
    smaller one. *)
Theorem wheel_notches :
  forall zoom zoom' deltaIn deltaOut,
    deltaIn < 0 ->
    0 <= deltaOut ->
    (0.3 <= zoom * 1.08 <= 8 -> Renderer.onWheel deltaIn zoom = zoom * 1.08)
    /\ (0.3 <= zoom * (1 / 1.08) <= 8 ->
        Renderer.onWheel deltaOut zoom = zoom * (1 / 1.08))
    /\ (8 <= zoom * 1.08 -> Renderer.onWheel deltaIn zoom = 8)
    /\ (zoom * (1 / 1.08) <= 0.3 -> Renderer.onWheel deltaOut zoom = 0.3)
    /\ (0.3 <= zoom < 8 -> zoom < Renderer.onWheel deltaIn zoom)
    /\ (0.3 < zoom <= 8 -> Renderer.onWheel deltaOut zoom < zoom)
    /\ (zoom <= zoom' ->
        Renderer.onWheel deltaIn zoom <= Renderer.onWheel deltaIn zoom'
        /\ Renderer.onWheel deltaOut zoom <= Renderer.onWheel deltaOut zoom').
Proof.
  intros zoom zoom' deltaIn deltaOut Hin Hout.
  unfold Renderer.onWheel. cbv zeta.
  rewrite (ltb_true deltaIn 0 Hin), (ltb_false deltaOut 0 Hout).
  assert (Hclamp : forall v, 0.3 <= v <= 8 -> Rmax 0.3 (Rmin 8 v) = v).
  { intros v Hv. rewrite Rmin_right by lra. apply Rmax_right. lra. }
  split; [| split; [| split; [| split; [| split; [| split]]]]].
  - intros H. apply Hclamp. exact H.
  - intros H. apply Hclamp. exact H.
  - intros H. rewrite Rmin_left by lra. apply Rmax_right. lra.
  - intros H. apply Rmax_left.
    eapply Rle_trans; [apply Rmin_r | exact H].
  - intros H. eapply Rlt_le_trans; [| apply Rmax_r].
    apply Rmin_glb_lt; lra.
  - intros H. apply Rmax_lub_lt; [lra |].
    eapply Rle_lt_trans; [apply Rmin_r |]. lra.
  - intros H.
    assert (Hmono : forall u v, u <= v ->
                      Rmax 0.3 (Rmin 8 u) <= Rmax 0.3 (Rmin 8 v)).
    { intros u v Huv. apply Rmax_lub; [apply Rmax_l |].
      eapply Rle_trans; [| apply Rmax_r].
      apply Rmin_glb; [apply Rmin_l |].
      eapply Rle_trans; [apply Rmin_r | exact Huv]. }
    split; apply Hmono; lra.
Qed.

Lemma wheel_notches_witness :
  -1 < 0 /\ 0 <= 0 /\ 0.3 < 1 <= 8 /\ Renderer.onWheel 0 1 < 1.
Proof.
  assert (H1 : -1 < 0) by lra. assert (H2 : 0 <= 0) by lra.
  assert (H3 : 0.3 < 1 <= 8) by lra.
  repeat (split; [assumption |]).
  exact (proj1 (proj2 (proj2 (proj2 (proj2 (proj2
           (wheel_notches 1 1 (-1) 0 H1 H2)))))) H3).
Defined.

Lemma screenToWorld_zoomTransform state x y :
  Renderer.zoom state <> 0 ->
  Renderer.screenToWorld state
    (fst (Interaction.zoomTransform state x y))
    (snd (Interaction.zoomTransform state x y))
  = (x, y).
Proof.
  intros Hz. unfold Renderer.screenToWorld, Interaction.zoomTransform.
  cbn [fst snd]. f_equal; field; exact Hz.
Qed.

Lemma pointer_on_body_hits state i planet :
  Renderer.zoom state <> 0 ->
  nth_error (Renderer.planets state) i = Some planet ->
  Renderer.isDisabled state planet = false ->
  -12 < size planet ->
  (Renderer.mouseX state, Renderer.mouseY state)
  = Interaction.zoomTransform state (px planet) (py planet) ->
  bodyHit state i.
Proof.
  intros Hz Hi Hen Hsize Hmouse.
  exists planet. split; [exact Hi |]. split; [exact Hen |].
  change (pointer state)
    with (Renderer.screenToWorld state (Renderer.mouseX state)
            (Renderer.mouseY state)).
  replace (Renderer.mouseX state)
    with (fst (Interaction.zoomTransform state (px planet) (py planet)))
    by (rewrite <- Hmouse; reflexivity).
  replace (Renderer.mouseY state)
    with (snd (Interaction.zoomTransform state (px planet) (py planet)))
    by (rewrite <- Hmouse; reflexivity).
  rewrite screenToWorld_zoomTransform by exact Hz.
  unfold Renderer.distance. cbn [fst snd].
  replace ((px planet - px planet) * (px planet - px planet)
           + (py planet - py planet) * (py planet - py planet)) with 0 by ring.
  rewrite sqrt_0. lra.
Qed.

(** X16. The hit test undoes the zoom of the drawing: [screenToWorld] maps
    the place where a scene point is drawn back to that point.  So with
    the pointer exactly where an enabled body is drawn, at any zoom, the
    hit test finds a body: that one, or a later one in the list that the
    pointer also touches. *)
Theorem pointer_on_drawn_body :
  forall state,
    Renderer.zoom state <> 0 ->
    (forall x y,
       Renderer.screenToWorld state
         (fst (Interaction.zoomTransform state x y))
         (snd (Interaction.zoomTransform state x y))
       = (x, y))
    /\ forall i planet,
         nth_error (Renderer.planets state) i = Some planet ->
         Renderer.isDisabled state planet = false ->
         -12 < size planet ->
         (Renderer.mouseX state, Renderer.mouseY state)
         = Interaction.zoomTransform state (px planet) (py planet) ->
         exists j,
           Renderer.hitTest state = Some j /\ (i <= j)%nat /\ bodyHit state j.
Proof.
  intros state Hz. split.
  - intros x y. apply screenToWorld_zoomTransform. exact Hz.
  - intros i planet Hi Hen Hsize Hmouse.
    pose proof (pointer_on_body_hits state i planet Hz Hi Hen Hsize Hmouse) as Hhit.
    rewrite hitTest_passes.
    destruct (hitBodies_last state) as [[_ Hnone] | (j & Hr & Hb & Hmax)].
    + exfalso. exact (Hnone i Hhit).
    + exists j. rewrite Hr. split; [reflexivity |].
      split; [exact (Hmax i Hhit) | exact Hb].
Qed.

Lemma pointer_on_drawn_body_witness :
  Renderer.zoom (sampleState []) <> 0
  /\ -12 < size (bodyAt 100 0 1 0)
  /\ exists j, Renderer.hitTest (sampleState []) = Some j.
Proof.
  assert (Hz : Renderer.zoom (sampleState []) <> 0) by (cbn; lra).
  assert (Hs : -12 < size (bodyAt 100 0 1 0)) by (cbn; lra).
  split; [exact Hz |]. split; [exact Hs |].
  assert (Hmouse : (Renderer.mouseX (sampleState []), Renderer.mouseY (sampleState []))
                   = Interaction.zoomTransform (sampleState [])
                       (px (bodyAt 100 0 1 0)) (py (bodyAt 100 0 1 0))).
  { unfold Interaction.zoomTransform. cbn. f_equal; ring. }
  destruct (proj2 (pointer_on_drawn_body (sampleState []) Hz) 0%nat
              (bodyAt 100 0 1 0) eq_refl eq_refl Hs Hmouse) as (j & Hj & _).
  exists j. exact Hj.
Defined.

(* ================================================================= *)
(** ** One frame *)

Lemma render_state state :
  let camera := cameraOf state in
  let moved := map (Planets.advance (Renderer.centerX state) (Renderer.centerY state)
                      camera) (Renderer.planets state) in
  let fleet := Ships.updateShips (Renderer.ships state) moved
                 (Renderer.centerX state) (Renderer.centerY state)
                 (Renderer.trailsEnabled state) in
  let before := Renderer.withScene state moved fleet (Renderer.hoveredPlanet state) in
  fst (Renderer.render state)
  = Renderer.withScene state
      (Planets.mapi (Renderer.setHovered (Renderer.hitTest before)) 0 moved)
      fleet (Renderer.hitTest before).
Proof. reflexivity. Qed.

Lemma frame_hover state :
  let state' := fst (Renderer.render state) in
  List.length (Renderer.planets state') = List.length (Renderer.planets state)
  /\ List.length (Renderer.ships state') = List.length (Renderer.ships state)
  /\ Renderer.time state' = Renderer.time state + 0.016
  /\ (Renderer.zoom state', Renderer.stTiltX state', Renderer.stRotationY state')
     = (Renderer.zoom state, Renderer.stTiltX state, Renderer.stRotationY state)
  /\ (forall i p,
        nth_error (Renderer.planets state') i = Some p ->
        (hovered p = true <-> Renderer.hoveredPlanet state' = Some i))
  /\ (forall i,
        Renderer.hoveredPlanet state' = Some i ->
        exists p,
          nth_error (Renderer.planets state') i = Some p
          /\ Renderer.isDisabled state' p = false)
  /\ (Renderer.planets state = [] ->
      Renderer.hoveredPlanet state' = None
      /\ Renderer.rings (snd (Renderer.render state)) = []
      /\ Renderer.bodies (snd (Renderer.render state)) = []).
Proof.
  cbv zeta. rewrite render_state. cbv zeta.
  set (moved := map _ (Renderer.planets state)).
  set (fleet := Ships.updateShips _ _ _ _ _).
  set (before := Renderer.withScene state moved fleet (Renderer.hoveredPlanet state)).
  cbn [Renderer.planets Renderer.ships Renderer.time Renderer.zoom Renderer.stTiltX
       Renderer.stRotationY Renderer.hoveredPlanet Renderer.withScene].
  split; [rewrite mapi_length; subst moved; apply length_map |].
  split; [subst fleet; apply updateShips_length |].
  split; [reflexivity |]. split; [reflexivity |].
  split.
  { intros i p Hp. rewrite mapi_nth in Hp. cbn [Nat.add] in Hp.
    destruct (nth_error moved i) as [q |]; [| discriminate Hp].
    cbn [option_map] in Hp. injection Hp as <-.
    unfold Renderer.setHovered. cbn [hovered].
    destruct (Renderer.hitTest before) as [j |].
    - rewrite Nat.eqb_eq. split; [intros ->; reflexivity | intros E; injection E as E; symmetry; exact E].
    - split; discriminate. }
  split.
  { intros i Hfound.
    assert (Hq : exists q, nth_error moved i = Some q
                           /\ Renderer.isDisabled before q = false).
    { destruct (hitTest_sound before i Hfound)
        as [(q & Hq & Hen & _) | (d & (q & k & Hq & Hen & _) & _)];
        exists q; (split; [exact Hq | exact Hen]). }
    destruct Hq as (q & Hq & Hen).
    exists (Renderer.setHovered (Renderer.hitTest before) i q).
    split; [rewrite mapi_nth, Hq; reflexivity | exact Hen]. }
  intros Hempty.
  assert (Hmoved : moved = []) by (subst moved; rewrite Hempty; reflexivity).
  split.
  - unfold Renderer.hitTest. subst before.
    cbn [Renderer.planets Renderer.withScene]. rewrite Hmoved. reflexivity.
  - unfold Renderer.render. rewrite Hempty. split; reflexivity.
Qed.

(** X17. One frame keeps the numbers of bodies and ships, advances the
    time by 0.016 and leaves the zoom and the camera alone.  After it a
    body is marked hovered exactly when it is the hovered body of the
    state, so at most one body is; the hovered body is in the list and on
    an enabled chain.  A frame of a scene without bodies draws no ring and
    no body and hovers nothing. *)
Theorem frame_marks_one_hovered_body :
  forall state,
    let state' := fst (Renderer.render state) in
    List.length (Renderer.planets state') = List.length (Renderer.planets state)
    /\ List.length (Renderer.ships state') = List.length (Renderer.ships state)
    /\ Renderer.time state' = Renderer.time state + 0.016
    /\ (Renderer.zoom state', Renderer.stTiltX state', Renderer.stRotationY state')
       = (Renderer.zoom state, Renderer.stTiltX state, Renderer.stRotationY state)
    /\ (forall i p,
          nth_error (Renderer.planets state') i = Some p ->
          (hovered p = true <-> Renderer.hoveredPlanet state' = Some i))
    /\ (forall i,
          Renderer.hoveredPlanet state' = Some i ->
          exists p,
            nth_error (Renderer.planets state') i = Some p
            /\ Renderer.isDisabled state' p = false)
    /\ (Renderer.planets state = [] ->
        Renderer.hoveredPlanet state' = None
        /\ Renderer.rings (snd (Renderer.render state)) = []
        /\ Renderer.bodies (snd (Renderer.render state)) = []).
Proof.
  intros state. exact (frame_hover state).
Qed.

Lemma frame_marks_one_hovered_body_witness :
  Renderer.planets (withEmptyScene (sampleState [])) = []
  /\ Renderer.hoveredPlanet (fst (Renderer.render (withEmptyScene (sampleState []))))
     = None.
Proof.
  split; [reflexivity |].
  exact (proj1 (proj2 (proj2 (proj2 (proj2 (proj2 (proj2
           (frame_marks_one_hovered_body (withEmptyScene (sampleState []))))))))
           eq_refl)).
Defined.

(* ================================================================= *)
(** ** Dragging and clicking *)

Lemma moves_app path path' :
  forall state drag,
    Interaction.moves (path ++ path') state drag
    = Interaction.moves path' (fst (Interaction.moves path state drag))
        (snd (Interaction.moves path state drag)).
Proof.
  induction path as [| [x y] rest IH]; intros state drag;
    cbn [app Interaction.moves]; [reflexivity |].
  destruct (Interaction.onMouseMove x y state drag) as [state' drag'].
  apply IH.
Qed.

Lemma moves_idle path :
  forall state drag,
    Interaction.isDragging drag = false ->
    Interaction.moves path state drag = (state, drag).
Proof.
  induction path as [| [x y] rest IH]; intros state drag Hidle;
    cbn [Interaction.moves]; [reflexivity |].
  unfold Interaction.onMouseMove. rewrite Hidle. apply IH. exact Hidle.
Qed.

Lemma moves_dragging path :
  forall state drag,
    Interaction.isDragging drag = true ->
    let drag' := snd (Interaction.moves path state drag) in
    Interaction.isDragging drag' = true
    /\ Interaction.dragStartX drag' = Interaction.dragStartX drag
    /\ Interaction.dragStartY drag' = Interaction.dragStartY drag
    /\ Interaction.dragStartTiltX drag' = Interaction.dragStartTiltX drag
    /\ Interaction.dragStartRotationY drag' = Interaction.dragStartRotationY drag
    /\ (Interaction.didDrag drag' = true <->
        Interaction.didDrag drag = true
        \/ Exists (fun p => 3 < Rabs (fst p - Interaction.dragStartX drag)
                            \/ 3 < Rabs (snd p - Interaction.dragStartY drag))
                  path).
Proof.
  induction path as [| [x y] rest IH]; intros state drag Hdrag; cbv zeta.
  - cbn [Interaction.moves snd]. repeat split; try assumption.
    + intros H. left. exact H.
    + intros [H | H]; [exact H | inversion H].
  - cbn [Interaction.moves]. unfold Interaction.onMouseMove. rewrite Hdrag.
    cbv zeta.
    set (drag1 := Interaction.mkDrag _ _ _ _ _ _).
    specialize (IH (Interaction.withCamera state
                      (Interaction.dragStartTiltX drag
                       + (y - Interaction.dragStartY drag) * 0.005)
                      (Interaction.dragStartRotationY drag
                       + (x - Interaction.dragStartX drag) * 0.005))
                   drag1 eq_refl).
    cbv zeta in IH. destruct IH as (I1 & I2 & I3 & I4 & I5 & I6).
    split; [exact I1 |]. split; [exact I2 |]. split; [exact I3 |].
    split; [exact I4 |]. split; [exact I5 |].
    rewrite I6. subst drag1.
    cbn [Interaction.didDrag Interaction.dragStartX Interaction.dragStartY].
    assert (Hfar :
      (JS.gtb (Rabs (x - Interaction.dragStartX drag)) 3
       || JS.gtb (Rabs (y - Interaction.dragStartY drag)) 3 = true)
      <-> (3 < Rabs (x - Interaction.dragStartX drag)
           \/ 3 < Rabs (y - Interaction.dragStartY drag))).
    { rewrite orb_true_iff. unfold JS.gtb. rewrite !ltb_spec. tauto. }
    destruct (JS.gtb (Rabs (x - Interaction.dragStartX drag)) 3
              || JS.gtb (Rabs (y - Interaction.dragStartY drag)) 3) eqn:E.
    + split; [| intros _; left; reflexivity].
      intros _. right. apply Exists_cons_hd. cbn [fst snd].
      apply Hfar. reflexivity.
    + split.
      * intros [H | H]; [left; exact H | right; apply Exists_cons_tl; exact H].
      * intros [H | H]; [left; exact H |].
        inversion H as [? ? Hhd | ? ? Htl]; subst.
        -- cbn [fst snd] in Hhd. apply Hfar in Hhd. discriminate Hhd.
        -- right. exact Htl.
Qed.

Lemma drag_camera rest x y state drag :
  Interaction.isDragging drag = true ->
  let state' := fst (Interaction.moves (rest ++ [(x, y)]) state drag) in
  Renderer.stTiltX state'
  = Interaction.dragStartTiltX drag + (y - Interaction.dragStartY drag) * 0.005
  /\ Renderer.stRotationY state'
     = Interaction.dragStartRotationY drag
       + (x - Interaction.dragStartX drag) * 0.005.
Proof.
  intros Hdrag. cbv zeta. rewrite moves_app.
  pose proof (moves_dragging rest state drag Hdrag) as K. cbv zeta in K.
  destruct K as (K1 & K2 & K3 & K4 & K5 & _).
  cbn [Interaction.moves]. unfold Interaction.onMouseMove. rewrite K1.
  cbv zeta. cbn [fst Renderer.stTiltX Renderer.stRotationY Interaction.withCamera].
  rewrite K2, K3, K4, K5. split; reflexivity.
Qed.

(** X18. A gesture with the left button: while it lasts the camera is the
    camera of the moment the button went down, turned by 0.005 radian per
    pixel of the offset of the pointer from where it went down, so coming
    back to that place restores the camera.  Releasing the button calls
    the click callback, with the hovered body, exactly when no pointer
    position of the gesture was more than 3 pixels away on either axis,
    even if the pointer came back.  Pressing another button starts no
    gesture: moves leave the state alone and the release is no click. *)
Theorem click_or_drag :
  forall button x0 y0 path state drag stateUp,
    let pressed := Interaction.onMouseDown button x0 y0 state drag in
    let moved := Interaction.moves path state pressed in
    (button = 0%Z ->
     (forall rest x y,
        path = rest ++ [(x, y)] ->
        Renderer.stTiltX (fst moved) = Renderer.stTiltX state + (y - y0) * 0.005
        /\ Renderer.stRotationY (fst moved)
           = Renderer.stRotationY state + (x - x0) * 0.005)
     /\ (Forall (fun p => Rabs (fst p - x0) <= 3 /\ Rabs (snd p - y0) <= 3) path ->
         fst (Interaction.onMouseUp true stateUp (snd moved))
         = Some (Renderer.hoveredPlanet stateUp))
     /\ (Exists (fun p => 3 < Rabs (fst p - x0) \/ 3 < Rabs (snd p - y0)) path ->
         fst (Interaction.onMouseUp true stateUp (snd moved)) = None)
     /\ fst (Interaction.onMouseUp false stateUp (snd moved)) = None)
    /\ (button <> 0%Z ->
        Interaction.isDragging drag = false ->
        moved = (state, drag)
        /\ fst (Interaction.onMouseUp true stateUp (snd moved)) = None)
    /\ Interaction.isDragging
         (snd (Interaction.onMouseUp true stateUp (snd moved))) = false.
Proof.
  intros button x0 y0 path state drag stateUp pressed moved.
  split; [| split; [| reflexivity]].
  - intros ->.
    assert (Hpressed : pressed
                       = {| Interaction.isDragging := true;
                            Interaction.dragStartX := x0;
                            Interaction.dragStartY := y0;
                            Interaction.dragStartTiltX := Renderer.stTiltX state;
                            Interaction.dragStartRotationY := Renderer.stRotationY state;
                            Interaction.didDrag := false |}) by reflexivity.
    assert (Hdrag : Interaction.isDragging pressed = true)
      by (rewrite Hpressed; reflexivity).
    pose proof (moves_dragging path state pressed Hdrag) as K. cbv zeta in K.
    fold moved in K. destruct K as (K1 & _ & _ & _ & _ & K6).
    rewrite Hpressed in K6.
    cbn [Interaction.didDrag Interaction.dragStartX Interaction.dragStartY] in K6.
    split.
    { intros rest x y ->.
      pose proof (drag_camera rest x y state pressed Hdrag) as C. cbv zeta in C.
      exact C. }
    unfold Interaction.onMouseUp. cbn [fst]. rewrite K1.
    split; [| split].
    + intros Hnear.
      assert (Hno : Interaction.didDrag (snd moved) = false).
      { destruct (Interaction.didDrag (snd moved)); [| reflexivity].
        destruct (proj1 K6 eq_refl) as [E | E]; [discriminate E |].
        apply Exists_exists in E. destruct E as (p & Hp & Hfar).
        rewrite Forall_forall in Hnear. specialize (Hnear p Hp). lra. }
      rewrite Hno. reflexivity.
    + intros Hfar.
      assert (Hyes : Interaction.didDrag (snd moved) = true)
        by (apply K6; right; exact Hfar).
      rewrite Hyes. reflexivity.
    + destruct (Interaction.didDrag (snd moved)); reflexivity.
  - intros Hbutton Hidle.
    assert (Hpressed : pressed = drag).
    { subst pressed. unfold Interaction.onMouseDown.
      destruct (button =? 0)%Z eqn:E; [apply Z.eqb_eq in E; contradiction |].
      reflexivity. }
    subst moved. rewrite Hpressed, (moves_idle path state drag Hidle).
    split; [reflexivity |].
    unfold Interaction.onMouseUp. cbn [fst snd]. rewrite Hidle. reflexivity.
Qed.

Lemma click_or_drag_witness :
  Forall (fun p => Rabs (fst p - 10) <= 3 /\ Rabs (snd p - 10) <= 3) [(11, 12)]
  /\ fst (Interaction.onMouseUp true (sampleState [])
            (snd (Interaction.moves [(11, 12)] (sampleState [])
                    (Interaction.onMouseDown 0 10 10 (sampleState [])
                       Interaction.idle))))
     = Some (Renderer.hoveredPlanet (sampleState [])).
Proof.
  assert (Hnear : Forall (fun p => Rabs (fst p - 10) <= 3 /\ Rabs (snd p - 10) <= 3)
                         [(11, 12)]).
  { constructor; [| constructor]. cbn [fst snd].
    split; apply Rabs_le; lra. }
  split; [exact Hnear |].
  exact (proj1 (proj2 (proj1 (click_or_drag 0%Z 10 10 [(11, 12)] (sampleState [])
                                Interaction.idle (sampleState [])) eq_refl))
           Hnear).
Defined.

(* ================================================================= *)
(** ** The map of [buildInteractions] *)

Lemma mapGet_mapSet {V : Type} (k c : string) (v : V) (m : list (string * V)) :
  Goldrush.mapGet k (Goldrush.mapSet c v m)
  = if String.eqb k c then Some v else Goldrush.mapGet k m.
Proof.
  induction m as [| [c' v'] m IH]; cbn [Goldrush.mapSet Goldrush.mapGet].
  - reflexivity.
  - destruct (String.eqb c c') eqn:Ecc; cbn [Goldrush.mapGet].
    + apply String.eqb_eq in Ecc. subst c'.
      destruct (String.eqb k c); reflexivity.
    + rewrite IH. destruct (String.eqb k c') eqn:Ekc'; [| reflexivity].
      apply String.eqb_eq in Ekc'. subst c'.
      rewrite String.eqb_sym, Ecc. reflexivity.
Qed.

Lemma mapGet_None {V : Type} (k : string) (m : list (string * V)) :
  Goldrush.mapGet k m = None <-> ~ In k (map fst m).
Proof.
  induction m as [| [c v] m IH]; cbn [Goldrush.mapGet map fst In].
  - tauto.
  - destruct (String.eqb k c) eqn:E.
    + apply String.eqb_eq in E. subst c. split; [discriminate | tauto].
    + apply String.eqb_neq in E. rewrite IH. split.
      * intros H [H' | H']; [congruence | tauto].
      * tauto.
Qed.

Lemma mapGet_In {V : Type} (k : string) (v : V) (m : list (string * V)) :
  Goldrush.mapGet k m = Some v -> In (k, v) m.
Proof.
  induction m as [| [c v'] m IH]; cbn [Goldrush.mapGet]; [discriminate |].
  destruct (String.eqb k c) eqn:E.
  - apply String.eqb_eq in E. subst c. intros H. injection H as ->. left. reflexivity.
  - intros H. right. exact (IH H).
Qed.

Lemma In_mapGet {V : Type} (k : string) (v : V) (m : list (string * V)) :
  NoDup (map fst m) -> In (k, v) m -> Goldrush.mapGet k m = Some v.
Proof.
  induction m as [| [c v'] m IH]; cbn [map fst Goldrush.mapGet];
    intros Hnd Hin; [destruct Hin |].
  inversion Hnd as [| ? ? Hnot Hnd']; subst.
  destruct Hin as [E | Hin].
  - injection E as -> ->. rewrite String.eqb_refl. reflexivity.
  - destruct (String.eqb k c) eqn:E.
    + apply String.eqb_eq in E. subst c. exfalso. apply Hnot.
      apply in_map_iff. exists (k, v). split; [reflexivity | exact Hin].
    + exact (IH Hnd' Hin).
Qed.

Lemma keys_mapSet {V : Type} (c : string) (v : V) (m : list (string * V)) :
  map fst (Goldrush.mapSet c v m)
  = match Goldrush.mapGet c m with
    | Some _ => map fst m
    | None => map fst m ++ [c]
    end.
Proof.
  induction m as [| [c' v'] m IH]; cbn [Goldrush.mapSet Goldrush.mapGet map fst app].
  - reflexivity.
  - destruct (String.eqb c c') eqn:E; cbn [map fst].
    + apply String.eqb_eq in E. subst c'. reflexivity.
    + rewrite IH. destruct (Goldrush.mapGet c m); reflexivity.
Qed.

Lemma keys_mapSet_NoDup {V : Type} (c : string) (v : V) (m : list (string * V)) :
  NoDup (map fst m) -> NoDup (map fst (Goldrush.mapSet c v m)).
Proof.
  intros Hnd. rewrite keys_mapSet.
  destruct (Goldrush.mapGet c m) eqn:E; [exact Hnd |].
  apply mapGet_None in E.
  apply NoDup_rev in Hnd. rewrite <- (rev_involutive (map fst m ++ [c])).
  apply NoDup_rev. rewrite rev_app_distr. cbn [rev app].
  constructor; [| exact Hnd]. intros H. apply E. apply in_rev. exact H.
Qed.

Lemma In_mapSet {V : Type} (c k : string) (v w : V) (m : list (string * V)) :
  In (k, w) (Goldrush.mapSet c v m) -> (k = c /\ w = v) \/ In (k, w) m.
Proof.
  induction m as [| [c' v'] m IH]; cbn [Goldrush.mapSet].
  - intros [E | []]. injection E as -> ->. left. split; reflexivity.
  - destruct (String.eqb c c') eqn:Ecc.
    + intros [E | H]; [injection E as -> ->; left; split; reflexivity |].
      right. right. exact H.
    + intros [E | H]; [right; left; exact E |].
      destruct (IH H) as [H' | H']; [left; exact H' | right; right; exact H'].
Qed.

(** What [visit] does, by the counterparty of the transaction. *)
Lemma visit_counterparty wallet m tx :
  Goldrush.visit wallet m tx
  = match counterpartyOf wallet tx with
    | None => m
    | Some (k, dir) =>
        let counterpartyLabel :=
          match dir with
          | Goldrush.sent => to_address_label tx
          | Goldrush.received => from_address_label tx
          end in
        let entry :=
          match Goldrush.mapGet k m with
          | Some entry => entry
          | None =>
              {| Goldrush.e_address := k;
                 Goldrush.e_label := counterpartyLabel;
                 Goldrush.e_totalValueUsd := 0;
                 Goldrush.e_txCount := 0;
                 Goldrush.e_sentCount := 0;
                 Goldrush.e_receivedCount := 0;
                 Goldrush.e_chains := [];
                 Goldrush.e_primaryChainCount := [];
                 Goldrush.e_firstInteraction := block_signed_at tx;
                 Goldrush.e_lastInteraction := block_signed_at tx |}
          end in
        Goldrush.mapSet k (Goldrush.record entry dir counterpartyLabel tx) m
    end.
Proof.
  unfold Goldrush.visit, counterpartyOf. cbv zeta.
  destruct (from_address tx) as [sender |]; cbn [option_map]; [| reflexivity].
  destruct (to_address tx) as [receiver |]; cbn [option_map];
    [| destruct (JS.toLowerCase sender); reflexivity].
  destruct (JS.toLowerCase sender) as [| a s] eqn:Es; cbn [JS.truthy andb];
    [reflexivity |].
  destruct (JS.toLowerCase receiver) as [| b r] eqn:Er; cbn [JS.truthy andb];
    [reflexivity |].
  destruct (String.eqb (String a s) wallet) eqn:E1.
  - destruct (String.eqb (String b r) wallet) eqn:E2; reflexivity.
  - destruct (String.eqb (String b r) wallet) eqn:E2; [| reflexivity].
    rewrite E1. reflexivity.
Qed.

Lemma counterpartyOf_other wallet tx k dir :
  counterpartyOf wallet tx = Some (k, dir) -> k <> wallet.
Proof.
  unfold counterpartyOf.
  destruct (option_map JS.toLowerCase (from_address tx)) as [sender |]; [| discriminate].
  destruct (option_map JS.toLowerCase (to_address tx)) as [receiver |]; [| discriminate].
  destruct (JS.truthy (Some sender) && JS.truthy (Some receiver)); [| discriminate].
  destruct (String.eqb sender wallet) eqn:E1.
  - destruct (String.eqb receiver wallet) eqn:E2; [discriminate |].
    intros H. injection H as <- _. apply String.eqb_neq. exact E2.
  - destruct (String.eqb receiver wallet) eqn:E2; [| discriminate].
    intros H. injection H as <- _. apply String.eqb_neq. exact E1.
Qed.

Lemma filter_snoc {A : Type} (f : A -> bool) (l : list A) (x : A) :
  filter f (l ++ [x]) = if f x then filter f l ++ [x] else filter f l.
Proof.
  rewrite filter_app. cbn [filter]. destruct (f x); [reflexivity |].
  apply app_nil_r.
Qed.

Lemma filter_none {A : Type} (f : A -> bool) (l : list A) :
  (forall x, In x l -> f x = false) -> filter f l = [].
Proof.
  induction l as [| a l IH]; intros H; [reflexivity |].
  cbn [filter]. rewrite (H a (or_introl eq_refl)).
  apply IH. intros x Hx. apply H. right. exact Hx.
Qed.

Lemma quoteSum_snoc (l : list Transaction) (x : Transaction) :
  quoteSum (l ++ [x]) = quoteSum l + Goldrush.orZero (value_quote x).
Proof. unfold quoteSum. rewrite fold_left_app. reflexivity. Qed.

Lemma sentTo_exchanged wallet k tx :
  exchangedWith wallet k tx = false -> sentTo wallet k tx = false.
Proof.
  unfold exchangedWith, sentTo.
  destruct (counterpartyOf wallet tx) as [[c []] |]; auto.
Qed.

Lemma receivedFrom_exchanged wallet k tx :
  exchangedWith wallet k tx = false -> receivedFrom wallet k tx = false.
Proof.
  unfold exchangedWith, receivedFrom.
  destruct (counterpartyOf wallet tx) as [[c []] |]; auto.
Qed.

Lemma exchangedOn_exchanged wallet k c tx :
  exchangedWith wallet k tx = false -> exchangedOn wallet k c tx = false.
Proof. unfold exchangedOn. intros ->. reflexivity. Qed.

(** A transaction exchanged with someone else leaves the figures of [k]. *)
Lemma counted_skip wallet txs k e tx :
  exchangedWith wallet k tx = false ->
  counted wallet txs k e -> counted wallet (txs ++ [tx]) k e.
Proof.
  intros Hx (H1 & H2 & H3 & H4 & H5 & H6 & H7 & H8 & H9 & H10).
  unfold counted. rewrite !filter_snoc.
  rewrite Hx, (sentTo_exchanged _ _ _ Hx), (receivedFrom_exchanged _ _ _ Hx).
  repeat (split; [assumption |]).
  intros c. rewrite filter_snoc, (exchangedOn_exchanged _ _ c _ Hx). apply H10.
Qed.

(** The entry made for a counterparty not met before. *)
Lemma fresh_counted wallet txs k lbl first last :
  k <> wallet ->
  (forall tx, In tx txs -> exchangedWith wallet k tx = false) ->
  counted wallet txs k
    {| Goldrush.e_address := k;
       Goldrush.e_label := lbl;
       Goldrush.e_totalValueUsd := 0;
       Goldrush.e_txCount := 0;
       Goldrush.e_sentCount := 0;
       Goldrush.e_receivedCount := 0;
       Goldrush.e_chains := [];
       Goldrush.e_primaryChainCount := [];
       Goldrush.e_firstInteraction := first;
       Goldrush.e_lastInteraction := last |}.
Proof.
  intros Hk H. unfold counted.
  cbn [Goldrush.e_address Goldrush.e_txCount Goldrush.e_sentCount
       Goldrush.e_receivedCount Goldrush.e_totalValueUsd Goldrush.e_chains
       Goldrush.e_primaryChainCount map Goldrush.mapGet Goldrush.orZeroNat].
  rewrite (filter_none (exchangedWith wallet k) txs H).
  rewrite (filter_none (sentTo wallet k) txs)
    by (intros x Hx; apply sentTo_exchanged, H, Hx).
  rewrite (filter_none (receivedFrom wallet k) txs)
    by (intros x Hx; apply receivedFrom_exchanged, H, Hx).
  repeat (split; [first [reflexivity | assumption | constructor] |]).
  split; [intros c n [] |].
  intros c. rewrite (filter_none (exchangedOn wallet k c) txs)
    by (intros x Hx; apply exchangedOn_exchanged, H, Hx).
  reflexivity.
Qed.

Lemma setAdd_keys {V : Type} (c : string) (v : V) (m : list (string * V)) :
  Goldrush.setAdd c (map fst m) = map fst (Goldrush.mapSet c v m).
Proof.
  unfold Goldrush.setAdd. rewrite keys_mapSet.
  destruct (Goldrush.mapGet c m) eqn:E.
  - assert (H : existsb (String.eqb c) (map fst m) = true).
    { apply existsb_exists. exists c. split; [| apply String.eqb_refl].
      apply mapGet_In in E. apply in_map_iff. exists (c, v0).
      split; [reflexivity | exact E]. }
    rewrite H. reflexivity.
  - destruct (existsb (String.eqb c) (map fst m)) eqn:H; [| reflexivity].
    apply existsb_exists in H. destruct H as (x & Hx & Ex).
    apply String.eqb_eq in Ex. subst x.
    apply mapGet_None in E. contradiction.
Qed.

(** The updates of one transaction exchanged with [k]. *)
Lemma record_counted wallet txs k dir e lbl tx :
  counterpartyOf wallet tx = Some (k, dir) ->
  counted wallet txs k e ->
  tallies wallet (txs ++ [tx]) k (Goldrush.record e dir lbl tx).
Proof.
  intros Hc (H1 & H2 & H3 & H4 & H5 & H6 & H7 & H8 & H9 & H10).
  assert (Hx : exchangedWith wallet k tx = true).
  { unfold exchangedWith. rewrite Hc. apply String.eqb_refl. }
  assert (Hs : sentTo wallet k tx
               = match dir with Goldrush.sent => true | Goldrush.received => false end).
  { unfold sentTo. rewrite Hc. destruct dir; [apply String.eqb_refl | reflexivity]. }
  assert (Hr : receivedFrom wallet k tx
               = match dir with Goldrush.sent => false | Goldrush.received => true end).
  { unfold receivedFrom. rewrite Hc. destruct dir; [reflexivity | apply String.eqb_refl]. }
  unfold tallies, counted, Goldrush.record.
  cbn [Goldrush.e_address Goldrush.e_txCount Goldrush.e_sentCount
       Goldrush.e_receivedCount Goldrush.e_totalValueUsd Goldrush.e_chains
       Goldrush.e_primaryChainCount].
  rewrite !filter_snoc, Hx, Hs, Hr, quoteSum_snoc.
  split; [| lia].
  split; [exact H1 |]. split; [exact H2 |].
  split; [rewrite length_app; cbn [List.length]; lia |].
  split; [destruct dir; [rewrite length_app; cbn [List.length]; lia | exact H4] |].
  split; [destruct dir; [exact H5 | rewrite length_app; cbn [List.length]; lia] |].
  split; [rewrite H6; reflexivity |].
  destruct (JS.truthy (Some (chain_name tx))) eqn:Hn.
  - split; [apply keys_mapSet_NoDup; exact H7 |].
    split; [rewrite H8; apply setAdd_keys |].
    split.
    + intros c n Hin. apply In_mapSet in Hin.
      destruct Hin as [[_ ->] | Hin]; [lia | exact (H9 c n Hin)].
    + intros c. rewrite mapGet_mapSet, filter_snoc. unfold exchangedOn at 1.
      rewrite Hx, Hn. cbn [andb]. rewrite (String.eqb_sym c).
      destruct (String.eqb (chain_name tx) c) eqn:E.
      * apply String.eqb_eq in E. subst c. cbn [Goldrush.orZeroNat].
        rewrite length_app, <- H10. cbn [List.length]. reflexivity.
      * apply H10.
  - split; [exact H7 |]. split; [exact H8 |]. split; [exact H9 |].
    intros c. rewrite filter_snoc. unfold exchangedOn at 1.
    rewrite Hx, Hn. cbn [andb]. apply H10.
Qed.

Lemma tallies_skip wallet txs k e tx :
  exchangedWith wallet k tx = false ->
  tallies wallet txs k e -> tallies wallet (txs ++ [tx]) k e.
Proof.
  intros Hx [Hc Hn]. split; [apply counted_skip; assumption | exact Hn].
Qed.

Lemma unmet_skip wallet txs k tx :
  exchangedWith wallet k tx = false ->
  (forall tx', In tx' txs -> exchangedWith wallet k tx' = false) ->
  forall tx', In tx' (txs ++ [tx]) -> exchangedWith wallet k tx' = false.
Proof.
  intros Hx H tx' Hin. apply in_app_or in Hin.
  destruct Hin as [Hin | [<- | []]]; [exact (H tx' Hin) | exact Hx].
Qed.

(** One turn of the loop keeps the map in step with the transactions. *)
Lemma visit_tallied wallet txs m tx :
  tallied wallet txs m -> tallied wallet (txs ++ [tx]) (Goldrush.visit wallet m tx).
Proof.
  intros [Hnd Hm]. rewrite visit_counterparty.
  destruct (counterpartyOf wallet tx) as [[cp dir] |] eqn:Hc.
  - cbv zeta. split; [apply keys_mapSet_NoDup; exact Hnd |].
    intros k. rewrite mapGet_mapSet.
    destruct (String.eqb k cp) eqn:E.
    + apply String.eqb_eq in E. subst k.
      apply record_counted; [exact Hc |].
      specialize (Hm cp). destruct (Goldrush.mapGet cp m) as [e |].
      * exact (proj1 Hm).
      * apply fresh_counted; [exact (counterpartyOf_other _ _ _ _ Hc) | exact Hm].
    + assert (Hx : exchangedWith wallet k tx = false).
      { unfold exchangedWith. rewrite Hc, String.eqb_sym. exact E. }
      specialize (Hm k). destruct (Goldrush.mapGet k m) as [e |].
      * apply tallies_skip; assumption.
      * apply unmet_skip; assumption.
  - split; [exact Hnd |].
    assert (Hx : forall k, exchangedWith wallet k tx = false).
    { intros k. unfold exchangedWith. rewrite Hc. reflexivity. }
    intros k. specialize (Hm k). destruct (Goldrush.mapGet k m) as [e |].
    + apply tallies_skip; [apply Hx | exact Hm].
    + apply unmet_skip; [apply Hx | exact Hm].
Qed.

Lemma loop_tallied wallet txs :
  tallied wallet txs (fold_left (Goldrush.visit wallet) txs []).
Proof.
  induction txs as [| tx txs IH] using rev_ind.
  - split; [constructor |]. intros k tx [].
  - rewrite fold_left_app. cbn [fold_left]. apply visit_tallied. exact IH.
Qed.

Lemma NoDup_firstn {A : Type} (n : nat) (l : list A) :
  NoDup l -> NoDup (firstn n l).
Proof.
  revert n. induction l as [| a l IH]; intros [| n] H; cbn [firstn];
    try constructor.
  - inversion H as [| ? ? Hnot Hnd]; subst. intros Hin. apply Hnot.
    exact (firstn_incl _ _ _ Hin).
  - inversion H; subst. apply IH. assumption.
Qed.

(** A record returned comes from an entry of the map. *)
Lemma interaction_of_entry walletAddress txs w :
  In w (Goldrush.buildInteractions walletAddress txs) ->
  exists e,
    w = Goldrush.toInteraction e
    /\ tallies (JS.toLowerCase walletAddress) txs (Goldrush.e_address e) e.
Proof.
  unfold Goldrush.buildInteractions. cbv zeta. intros Hin.
  apply firstn_incl in Hin.
  apply (Permutation_in _
           (sort_permutation _ (fun a => INR (txCount a)) _)) in Hin.
  apply in_map_iff in Hin. destruct Hin as (e & <- & Hin).
  apply in_map_iff in Hin. destruct Hin as ([k e'] & E & Hin).
  cbn [snd] in E. subst e'. exists e. split; [reflexivity |].
  destruct (loop_tallied (JS.toLowerCase walletAddress) txs) as [Hnd Hm].
  specialize (Hm k). rewrite (In_mapGet _ _ _ Hnd Hin) in Hm.
  destruct Hm as [Hc Hn]. rewrite (proj1 Hc). split; assumption.
Qed.

Lemma exchanged_split wallet k txs :
  List.length (filter (exchangedWith wallet k) txs)
  = (List.length (filter (sentTo wallet k) txs)
     + List.length (filter (receivedFrom wallet k) txs))%nat.
Proof.
  induction txs as [| tx txs IH]; [reflexivity |].
  cbn [filter]. unfold exchangedWith at 1, sentTo at 1, receivedFrom at 1.
  destruct (counterpartyOf wallet tx) as [[c []] |];
    try destruct (String.eqb c k); cbn [List.length]; lia.
Qed.

Lemma entry_addresses wallet txs m :
  tallied wallet txs m ->
  map address (map Goldrush.toInteraction (map snd m)) = map fst m.
Proof.
  intros [Hnd Hm]. rewrite !map_map. apply map_ext_in.
  intros [k e] Hin. cbn [snd fst Goldrush.toInteraction address].
  specialize (Hm k). rewrite (In_mapGet _ _ _ Hnd Hin) in Hm.
  exact (proj1 (proj1 Hm)).
Qed.

(** X20. [buildInteractions] returns at most one record per counterparty:
    the addresses of the records returned are pairwise distinct. *)
Theorem interactions_distinct walletAddress txs :
  NoDup (map address (Goldrush.buildInteractions walletAddress txs)).
Proof.
  unfold Goldrush.buildInteractions. cbv zeta.
  rewrite <- firstn_map. apply NoDup_firstn.
  pose proof (loop_tallied (JS.toLowerCase walletAddress) txs) as Ht.
  apply (Permutation_NoDup
           (l := map address
                   (map Goldrush.toInteraction
                      (map snd
                         (fold_left (Goldrush.visit (JS.toLowerCase walletAddress))
                                    txs []))))).
  - apply Permutation_sym, Permutation_map.
    apply (sort_permutation _ (fun a => INR (txCount a))).
  - rewrite (entry_addresses _ _ _ Ht). exact (proj1 Ht).
Qed.

(** X21. When [buildInteractions] returns fewer than 20 records, nothing
    was cut off: every transaction that has a counterparty (one of its two
    lower-cased addresses is the lower-cased wallet, the other is not) has a
    record for that counterparty among those returned. *)
Theorem interactions_complete walletAddress txs tx k dir :
  In tx txs ->
  counterpartyOf (JS.toLowerCase walletAddress) tx = Some (k, dir) ->
  (List.length (Goldrush.buildInteractions walletAddress txs) < 20)%nat ->
  exists w, In w (Goldrush.buildInteractions walletAddress txs) /\ address w = k.
Proof.
  unfold Goldrush.buildInteractions. cbv zeta.
  set (wallet := JS.toLowerCase walletAddress).
  set (m := fold_left (Goldrush.visit wallet) txs []).
  set (sorted := JS.sort _ _).
  intros Hin Hc Hlen.
  assert (Hall : firstn 20 sorted = sorted).
  { apply firstn_all2. rewrite length_firstn in Hlen. lia. }
  rewrite Hall.
  destruct (loop_tallied wallet txs) as [Hnd Hm]. fold m in Hnd, Hm.
  specialize (Hm k). destruct (Goldrush.mapGet k m) as [e |] eqn:E.
  - exists (Goldrush.toInteraction e). split.
    + apply (Permutation_in _
               (Permutation_sym (sort_permutation _ (fun a => INR (txCount a)) _))).
      apply in_map, in_map_iff. exists (k, e). split; [reflexivity |].
      apply mapGet_In. exact E.
    + exact (proj1 (proj1 Hm)).
  - specialize (Hm tx Hin). unfold exchangedWith in Hm.
    rewrite Hc, String.eqb_refl in Hm. discriminate.
Qed.

(** The loop of [pickPrimary]: the pair kept is the start or a pair of the
    list, and no count of the list is above its count. *)
Lemma pickPrimary_loop (counts : list (string * nat)) :
  forall acc : string * nat,
    let best :=
      fold_left
        (fun (acc : string * nat) (kv : string * nat) =>
           if (snd acc <? snd kv)%nat then (fst kv, snd kv) else acc)
        counts acc in
    (best = acc \/ In best counts)
    /\ (snd acc <= snd best)%nat
    /\ forall c n, In (c, n) counts -> (n <= snd best)%nat.
Proof.
  induction counts as [| [c0 n0] counts IH]; intros acc; cbn [fold_left].
  - split; [left; reflexivity |]. split; [lia |]. intros c n [].
  - cbn [fst snd]. destruct (Nat.ltb_spec (snd acc) n0) as [Hlt | Hge].
    + destruct (IH (c0, n0)) as (H1 & H2 & H3). cbv zeta in H1, H2, H3.
      cbn [snd] in H2. split; [| split].
      * destruct H1 as [-> | H1]; right; [left; reflexivity | right; exact H1].
      * lia.
      * intros c n [E | Hin]; [injection E as <- <-; exact H2 | exact (H3 c n Hin)].
    + destruct (IH acc) as (H1 & H2 & H3). cbv zeta in H1, H2, H3.
      split; [| split].
      * destruct H1 as [H1 | H1]; [left; exact H1 | right; right; exact H1].
      * exact H2.
      * intros c n [E | Hin]; [injection E as <- <-; lia | exact (H3 c n Hin)].
Qed.

Lemma pickPrimary_spec (counts : list (string * nat)) :
  NoDup (map fst counts) ->
  (forall c n, In (c, n) counts -> (1 <= n)%nat) ->
  (counts = [] -> Goldrush.pickPrimary counts = "eth-mainnet"%string)
  /\ (counts <> [] -> In (Goldrush.pickPrimary counts) (map fst counts))
  /\ forall c,
       (Goldrush.orZeroNat (Goldrush.mapGet c counts)
        <= Goldrush.orZeroNat (Goldrush.mapGet (Goldrush.pickPrimary counts) counts))%nat.
Proof.
  intros Hnd Hpos. split; [intros ->; reflexivity |].
  unfold Goldrush.pickPrimary.
  destruct (pickPrimary_loop counts ("eth-mainnet"%string, O)) as (H1 & _ & H3).
  cbv zeta in H1, H3.
  set (best := fold_left _ counts _) in *.
  destruct counts as [| [c0 n0] counts'] eqn:Ec; [split; [congruence |] |].
  - intros c. cbn. lia.
  - rewrite <- Ec in *.
    assert (Hin : In best counts).
    { destruct H1 as [H1 | H1]; [| exact H1].
      assert (Hc0 : In (c0, n0) counts) by (rewrite Ec; left; reflexivity).
      pose proof (Hpos c0 n0 Hc0). pose proof (H3 c0 n0 Hc0).
      rewrite H1 in *. cbn [snd] in *. lia. }
    split.
    + intros _. apply in_map. exact Hin.
    + intros c. destruct best as [cb nb] eqn:Eb. cbn [fst snd] in *.
      rewrite (In_mapGet _ _ _ Hnd Hin). cbn [Goldrush.orZeroNat].
      destruct (Goldrush.mapGet c counts) as [n |] eqn:E; cbn [Goldrush.orZeroNat];
        [| lia].
      exact (H3 c n (mapGet_In _ _ _ E)).
Qed.

Lemma chains_of_counts (counts : list (string * nat)) (c : string) :
  (forall c n, In (c, n) counts -> (1 <= n)%nat) ->
  In c (map fst counts)
  <-> (1 <= Goldrush.orZeroNat (Goldrush.mapGet c counts))%nat.
Proof.
  intros Hpos. split.
  - intros Hin. destruct (Goldrush.mapGet c counts) as [n |] eqn:E.
    + cbn [Goldrush.orZeroNat]. exact (Hpos c n (mapGet_In _ _ _ E)).
    + apply mapGet_None in E. contradiction.
  - intros H. destruct (Goldrush.mapGet c counts) as [n |] eqn:E.
    + apply mapGet_In in E. apply in_map_iff. exists (c, n).
      split; [reflexivity | exact E].
    + cbn [Goldrush.orZeroNat] in H. lia.
Qed.

Lemma interactions_complete_witness :
  exists w,
    In w (Goldrush.buildInteractions "0xAA" sampleTransfers)
    /\ address w = "0xb1"%string.
Proof.
  apply (interactions_complete "0xAA" sampleTransfers
           (transfer "0xAA" "0xB1" "eth-mainnet" "2024-01-03") "0xb1" Goldrush.sent).
  - left. reflexivity.
  - reflexivity.
  - unfold Goldrush.buildInteractions. cbv zeta.
    rewrite length_firstn.
    rewrite (Permutation_length (sort_permutation _ (fun a => INR (txCount a)) _)).
    rewrite !length_map.
    set (m := fold_left _ _ _). vm_compute in m. subst m.
    cbn [List.length]. lia.
Defined.

(** X19. Every record returned by [buildInteractions] tallies exactly the
    transactions exchanged with its address: the address is not the
    lower-cased wallet, [txCount], [sentCount] and [receivedCount] are the
    numbers of transactions exchanged with, sent to and received from that
    address, [txCount] is their sum and at least 1, and [totalValueUsd] is
    the sum of the quotes of these transactions, a missing quote counting
    for 0. *)
Theorem records_tally_transactions walletAddress txs :
  Forall
    (fun w =>
       address w <> JS.toLowerCase walletAddress
       /\ txCount w
          = List.length
              (filter (exchangedWith (JS.toLowerCase walletAddress) (address w)) txs)
       /\ sentCount w
          = List.length
              (filter (sentTo (JS.toLowerCase walletAddress) (address w)) txs)
       /\ receivedCount w
          = List.length
              (filter (receivedFrom (JS.toLowerCase walletAddress) (address w)) txs)
       /\ txCount w = (sentCount w + receivedCount w)%nat
       /\ (1 <= txCount w)%nat
       /\ totalValueUsd w
          = quoteSum
              (filter (exchangedWith (JS.toLowerCase walletAddress) (address w)) txs))
    (Goldrush.buildInteractions walletAddress txs).
Proof.
  apply Forall_forall. intros w Hin.
  destruct (interaction_of_entry _ _ _ Hin) as (e & -> & Hc & Hn).
  destruct Hc as (H1 & H2 & H3 & H4 & H5 & H6 & _).
  cbn [Goldrush.toInteraction address txCount sentCount receivedCount totalValueUsd].
  repeat split; try assumption.
  rewrite H3, H4, H5. apply exchanged_split.
Qed.

(** X22. In every record returned by [buildInteractions], [chains] lists,
    without repetition, exactly the non-empty chain names of the
    transactions exchanged with the address; no chain carries more of these
    transactions than [primaryChain], which is one of [chains], or
    eth-mainnet when [chains] is empty. *)
Theorem primary_chain_is_most_used walletAddress txs :
  Forall
    (fun w =>
       NoDup (chains w)
       /\ (forall c,
             In c (chains w)
             <-> (1 <= List.length
                         (filter (exchangedOn (JS.toLowerCase walletAddress)
                                              (address w) c) txs))%nat)
       /\ (forall c,
             (List.length
                (filter (exchangedOn (JS.toLowerCase walletAddress) (address w) c) txs)
              <= List.length
                   (filter (exchangedOn (JS.toLowerCase walletAddress) (address w)
                                        (primaryChain w)) txs))%nat)
       /\ (chains w <> [] -> In (primaryChain w) (chains w))
       /\ (chains w = [] -> primaryChain w = "eth-mainnet"%string))
    (Goldrush.buildInteractions walletAddress txs).
Proof.
  apply Forall_forall. intros w Hin.
  destruct (interaction_of_entry _ _ _ Hin) as (e & -> & Hc & Hn).
  destruct Hc as (_ & _ & _ & _ & _ & _ & H7 & H8 & H9 & H10).
  cbn [Goldrush.toInteraction address chains primaryChain].
  destruct (pickPrimary_spec _ H7 H9) as (P1 & P2 & P3).
  rewrite H8. split; [exact H7 |]. split; [| split; [| split]].
  - intros c. rewrite <- H10. apply chains_of_counts. exact H9.
  - intros c. rewrite <- !H10. apply P3.
  - intros Hne. apply P2. intros E. apply Hne. rewrite E. reflexivity.
  - intros E. apply P1. destruct (Goldrush.e_primaryChainCount e); [reflexivity |].
    discriminate.
Qed.

(* ================================================================= *)
(** ** The dates of [buildInteractions] *)

Lemma string_ltb_lt (a b : string) :
  String.ltb a b = true <-> OrderedTypeEx.String_as_OT.lt a b.
Proof.
  rewrite <- OrderedTypeEx.String_as_OT.cmp_lt.
  unfold String.ltb, OrderedTypeEx.String_as_OT.cmp.
  destruct (String.compare a b); split; congruence.
Qed.

Lemma string_ltb_irrefl (a : string) : String.ltb a a = false.
Proof.
  destruct (String.ltb a a) eqn:E; [| reflexivity].
  apply string_ltb_lt in E.
  exfalso. exact (OrderedTypeEx.String_as_OT.lt_not_eq _ _ E eq_refl).
Qed.

Lemma string_ltb_trans (a b c : string) :
  String.ltb a b = true -> String.ltb b c = true -> String.ltb a c = true.
Proof.
  rewrite !string_ltb_lt. apply OrderedTypeEx.String_as_OT.lt_trans.
Qed.

Lemma record_dates e dir lbl tx :
  Goldrush.e_firstInteraction (Goldrush.record e dir lbl tx)
  = (if String.ltb (block_signed_at tx) (Goldrush.e_firstInteraction e)
     then block_signed_at tx else Goldrush.e_firstInteraction e)
  /\ Goldrush.e_lastInteraction (Goldrush.record e dir lbl tx)
     = (if String.ltb (Goldrush.e_lastInteraction e) (block_signed_at tx)
        then block_signed_at tx else Goldrush.e_lastInteraction e).
Proof. split; reflexivity. Qed.

Lemma dated_skip wallet txs k e tx :
  exchangedWith wallet k tx = false ->
  dated wallet txs k e -> dated wallet (txs ++ [tx]) k e.
Proof.
  intros Hx ((t1 & I1 & X1 & D1) & (t2 & I2 & X2 & D2) & H).
  split; [exists t1; repeat split; [apply in_or_app; left |..]; assumption |].
  split; [exists t2; repeat split; [apply in_or_app; left |..]; assumption |].
  intros t Hin Ht. apply in_app_or in Hin.
  destruct Hin as [Hin | [<- | []]]; [exact (H t Hin Ht) | congruence].
Qed.

Lemma record_dated_old wallet txs k dir e lbl tx :
  counterpartyOf wallet tx = Some (k, dir) ->
  dated wallet txs k e ->
  dated wallet (txs ++ [tx]) k (Goldrush.record e dir lbl tx).
Proof.
  intros Hc ((t1 & I1 & X1 & D1) & (t2 & I2 & X2 & D2) & H).
  assert (Hx : exchangedWith wallet k tx = true).
  { unfold exchangedWith. rewrite Hc. apply String.eqb_refl. }
  assert (Hlast : In tx (txs ++ [tx])) by (apply in_or_app; right; left; reflexivity).
  unfold dated. destruct (record_dates e dir lbl tx) as [-> ->].
  destruct (String.ltb (block_signed_at tx) (Goldrush.e_firstInteraction e)) eqn:E1;
    destruct (String.ltb (Goldrush.e_lastInteraction e) (block_signed_at tx)) eqn:E2.
  all: split; [first [exists tx; repeat split; [exact Hlast | exact Hx]
                     | exists t1; repeat split;
                       [apply in_or_app; left; exact I1 | exact X1 | exact D1]] |].
  all: split; [first [exists tx; repeat split; [exact Hlast | exact Hx]
                     | exists t2; repeat split;
                       [apply in_or_app; left; exact I2 | exact X2 | exact D2]] |].
  all: intros t Hin Ht; apply in_app_or in Hin;
    destruct Hin as [Hin | [<- | []]];
    [destruct (H t Hin Ht) as [F L] |].
  all: split; try apply string_ltb_irrefl; try assumption.
  all: match goal with
       | |- String.ltb ?a ?b = false =>
           destruct (String.ltb a b) eqn:E; [exfalso | reflexivity]
       end.
  all: first
    [ pose proof (string_ltb_trans _ _ _ E E1) as T; congruence
    | pose proof (string_ltb_trans _ _ _ E2 E) as T; congruence ].
Qed.

Lemma record_dated_fresh wallet txs k dir e lbl tx :
  counterpartyOf wallet tx = Some (k, dir) ->
  (forall tx', In tx' txs -> exchangedWith wallet k tx' = false) ->
  Goldrush.e_firstInteraction e = block_signed_at tx ->
  Goldrush.e_lastInteraction e = block_signed_at tx ->
  dated wallet (txs ++ [tx]) k (Goldrush.record e dir lbl tx).
Proof.
  intros Hc Hnone F L.
  assert (Hx : exchangedWith wallet k tx = true).
  { unfold exchangedWith. rewrite Hc. apply String.eqb_refl. }
  assert (Hlast : In tx (txs ++ [tx])) by (apply in_or_app; right; left; reflexivity).
  unfold dated. destruct (record_dates e dir lbl tx) as [-> ->].
  rewrite F, L, string_ltb_irrefl.
  split; [exists tx; repeat split; assumption |].
  split; [exists tx; repeat split; assumption |].
  intros t Hin Ht. apply in_app_or in Hin.
  destruct Hin as [Hin | [<- | []]].
  - rewrite (Hnone t Hin) in Ht. discriminate.
  - split; apply string_ltb_irrefl.
Qed.

Lemma visit_dated wallet txs m tx :
  tallied wallet txs m ->
  (forall k e, Goldrush.mapGet k m = Some e -> dated wallet txs k e) ->
  forall k e,
    Goldrush.mapGet k (Goldrush.visit wallet m tx) = Some e ->
    dated wallet (txs ++ [tx]) k e.
Proof.
  intros [_ Hm] Hd k e. rewrite visit_counterparty.
  destruct (counterpartyOf wallet tx) as [[cp dir] |] eqn:Hc.
  - cbv zeta. rewrite mapGet_mapSet.
    destruct (String.eqb k cp) eqn:E.
    + apply String.eqb_eq in E. subst k. intros H. injection H as <-.
      specialize (Hm cp). specialize (Hd cp).
      destruct (Goldrush.mapGet cp m) as [e0 |].
      * apply record_dated_old; [exact Hc | apply Hd; reflexivity].
      * apply record_dated_fresh; [exact Hc | exact Hm | reflexivity | reflexivity].
    + intros H. apply dated_skip; [| exact (Hd k e H)].
      unfold exchangedWith. rewrite Hc, String.eqb_sym. exact E.
  - intros H. apply dated_skip; [| exact (Hd k e H)].
    unfold exchangedWith. rewrite Hc. reflexivity.
Qed.

Lemma loop_dated wallet txs :
  forall k e,
    Goldrush.mapGet k (fold_left (Goldrush.visit wallet) txs []) = Some e ->
    dated wallet txs k e.
Proof.
  induction txs as [| tx txs IH] using rev_ind.
  - intros k e H. discriminate H.
  - rewrite fold_left_app. cbn [fold_left].
    apply visit_dated; [apply loop_tallied | exact IH].
Qed.

(** X23. In every record returned by [buildInteractions],
    [firstInteraction] and [lastInteraction] are the dates of transactions
    exchanged with the address, and no such transaction is signed before
    the first or after the last, in the order of [<] on strings. *)
Theorem dates_span_transactions walletAddress txs :
  Forall
    (fun w =>
       (exists tx,
           In tx txs
           /\ exchangedWith (JS.toLowerCase walletAddress) (address w) tx = true
           /\ block_signed_at tx = firstInteraction w)
       /\ (exists tx,
              In tx txs
              /\ exchangedWith (JS.toLowerCase walletAddress) (address w) tx = true
              /\ block_signed_at tx = lastInteraction w)
       /\ forall tx,
            In tx txs ->
            exchangedWith (JS.toLowerCase walletAddress) (address w) tx = true ->
            String.ltb (block_signed_at tx) (firstInteraction w) = false
            /\ String.ltb (lastInteraction w) (block_signed_at tx) = false)
    (Goldrush.buildInteractions walletAddress txs).
Proof.
  apply Forall_forall. intros w Hin.
  unfold Goldrush.buildInteractions in Hin. cbv zeta in Hin.
  apply firstn_incl in Hin.
  apply (Permutation_in _
           (sort_permutation _ (fun a => INR (txCount a)) _)) in Hin.
  apply in_map_iff in Hin. destruct Hin as (e & <- & Hin).
  apply in_map_iff in Hin. destruct Hin as ([k e'] & E & Hin).
  cbn [snd] in E. subst e'.
  destruct (loop_tallied (JS.toLowerCase walletAddress) txs) as [Hnd Hm].
  pose proof (In_mapGet _ _ _ Hnd Hin) as Hget.
  specialize (Hm k). rewrite Hget in Hm.
  pose proof (loop_dated _ _ _ _ Hget) as Hd.
  cbn [Goldrush.toInteraction address firstInteraction lastInteraction].
  rewrite (proj1 (proj1 Hm)). exact Hd.
Qed.

(* ================================================================= *)
(** ** The star field *)







Lemma ltb_false_inv (a b : R) : JS.ltb a b = false -> b <= a.
Proof.
  unfold JS.ltb. destruct (Rlt_dec a b); [discriminate | intros _; lra].
Qed.











(* ================================================================= *)
(** ** Ships under the timeline *)

Lemma shown_later disabledChains p p' ship :
  p <= p' ->
  shown disabledChains (Some p) ship = true ->
  shown disabledChains (Some p') ship = true.
Proof.
  unfold shown. intros Hp H. apply andb_true_iff in H. destruct H as [H1 H2].
  rewrite H1. cbn [andb]. apply negb_true_iff in H2. apply ltb_false_inv in H2.
  rewrite ltb_false by lra. reflexivity.
Qed.

Lemma shown_at_end disabledChains p ship :
  activationTime ship <= p ->
  shown disabledChains (Some p) ship = shown disabledChains None ship.
Proof.
  unfold shown. intros H. rewrite ltb_false by exact H. reflexivity.
Qed.

Lemma created_activation rand k getTime planets cx cy range ship :
  In ship (Ships.createShips rand k getTime planets cx cy range) ->
  0 <= activationTime ship <= 1
  /\ (range = None -> activationTime ship = 0).
Proof.
  unfold Ships.createShips. intros Hin.
  apply createShipsFrom_In in Hin. destruct Hin as (planet & k' & _ & Hin).
  apply shipsOf_In in Hin. destruct Hin as (_ & _ & -> & _).
  split; [apply activation_range |]. intros ->. reflexivity.
Qed.

(** X27. The ships made by [createShips], drawn under a timeline: a ship
    drawn at some progress is drawn at every later progress; from progress
    1 on, and at every progress from 0 on when the ships were made without
    a timeline range, the ships drawn are those drawn without a timeline,
    that is, all ships on enabled chains. *)
Theorem timeline_reveals_ships :
  forall rand k getTime planets cx cy range disabledChains trailsEnabled p p',
    p <= p' ->
    let ships := Ships.createShips rand k getTime planets cx cy range in
    (forall d,
        In d (ShipsView.drawShips ships disabledChains trailsEnabled (Some p)) ->
        In d (ShipsView.drawShips ships disabledChains trailsEnabled (Some p')))
    /\ (1 <= p' ->
        ShipsView.drawShips ships disabledChains trailsEnabled (Some p')
        = ShipsView.drawShips ships disabledChains trailsEnabled None)
    /\ (range = None -> 0 <= p ->
        ShipsView.drawShips ships disabledChains trailsEnabled (Some p)
        = ShipsView.drawShips ships disabledChains trailsEnabled None).
Proof.
  intros rand k getTime planets cx cy range disabledChains trailsEnabled p p'
         Hp ships.
  rewrite !drawShips_shown. split; [| split].
  - intros d Hin. apply in_map_iff in Hin. destruct Hin as (ship & <- & Hin).
    apply filter_In in Hin. destruct Hin as [Hin Hs].
    apply in_map, filter_In. split; [exact Hin |].
    exact (shown_later _ _ _ _ Hp Hs).
  - intros H1. f_equal. apply filter_ext_in. intros ship Hin.
    apply shown_at_end.
    destruct (created_activation _ _ _ _ _ _ _ _ Hin) as [[_ Ha] _]. lra.
  - intros Hr H0. f_equal. apply filter_ext_in. intros ship Hin.
    apply shown_at_end.
    destruct (created_activation _ _ _ _ _ _ _ _ Hin) as [_ Ha].
    rewrite (Ha Hr). exact H0.
Qed.

Lemma timeline_reveals_ships_witness :
  0 <= 1
  /\ ShipsView.drawShips
       (Ships.createShips (fun _ => / 2) 0 (fun _ => 0) [bodyAt 30 40 1 0] 0 0
                          (Some (0, 10)))
       [] true (Some 1)
     = ShipsView.drawShips
         (Ships.createShips (fun _ => / 2) 0 (fun _ => 0) [bodyAt 30 40 1 0] 0 0
                            (Some (0, 10)))
         [] true None.
Proof.
  assert (H : 0 <= 1) by lra.
  split; [exact H |].
  refine (proj1 (proj2 (timeline_reveals_ships (fun _ => / 2) 0%nat (fun _ => 0)
                          [bodyAt 30 40 1 0] 0 0 (Some (0, 10)) [] true 0 1 H)) _).
  lra.
Defined.
